(** * GenieStructure: schema-driven decoding of Genie Engine data files

    A shallow embedding of
    [openage/convert/entity_object/conversion/genie_structure.py]:
    the recursive [read] method, the member resolver [get_data_format]
    and the structural fingerprint [format_hash], together with the
    properties of them that the specification states. *)

From Stdlib Require Import ZArith String Ascii List Bool Lia.
From Stdlib Require Import HexString DecimalString.
From Stdlib Require Import Floats.SpecFloat.
From stdpp Require Import base gmap list strings.
Import ListNotations.

#[local] Set Warnings "-register-all".
#[local] Open Scope string_scope.
#[local] Open Scope list_scope.
#[local] Open Scope Z_scope.

(** ** Exceptions

    Every failure of the module is a Python exception that leaves the
    call.  The constructors name the raise sites of [read] and
    [format_hash] and the built-in exceptions the method bodies can
    trigger. *)

Inductive error : Type :=
| NonExportableReference   (* "class where members should be included is not
                              exportable", "dumped data is not exportable" *)
| StorageMismatch          (* "... cannot be stored as ..." *)
| UnknownMemberDefinition  (* "unknown data member definition" *)
| InvalidLength            (* "invalid length %d < 0" *)
| UnknownElementType       (* "member %s requests unknown data type" *)
| InvalidData              (* "invalid data when reading" *)
| InvalidFloat             (* "invalid float when reading" *)
| UnsupportedHashMember    (* "can't hash unsupported member" *)
| StructError              (* struct.error of unpack_from *)
| AttributeError           (* getattr on a missing attribute *)
| KeyError                 (* dict lookup miss *)
| IndexError               (* sequence index out of range *)
| TypeError                (* operand of the wrong Python type *)
| UnboundLocalError        (* local variable read before assignment *)
| OverflowError            (* an infinite float converted to an integer *)
| ValueError               (* a NaN converted to an integer *)
| HookError.               (* raised inside a ReadMember method *)

Inductive outcome (A : Type) : Type :=
| Ok (a : A)
| Err (e : error).
Arguments Ok {A} a.
Arguments Err {A} e.

Definition bind {A B : Type} (r : outcome A) (k : A -> outcome B) : outcome B :=
  match r with
  | Ok a => k a
  | Err e => Err e
  end.

Declare Scope outcome_scope.
Delimit Scope outcome_scope with outcome.
Notation "'let*' x ':=' r 'in' k" := (bind r (fun x => k))
  (at level 10, x binder, r at level 200, k at level 200) : outcome_scope.
#[local] Open Scope outcome_scope.

Definition guard (b : bool) (e : error) : outcome unit :=
  if b then Ok tt else Err e.

(** ** Enumerations of the schema model *)

(** [value_object/read/member_access.py]: the export modes. *)
Inductive MemberAccess : Type :=
| READ | READ_GEN | READ_UNKNOWN | NOREAD_EXPORT | SKIP.

#[global] Instance MemberAccess_eq_dec : EqDecision MemberAccess.
Proof. solve_decision. Defined.

(** The [name] attribute of the enum members. *)
Definition access_name (export : MemberAccess) : string :=
  match export with
  | READ => "READ"
  | READ_GEN => "READ_GEN"
  | READ_UNKNOWN => "READ_UNKNOWN"
  | NOREAD_EXPORT => "NOREAD_EXPORT"
  | SKIP => "SKIP"
  end.

(** [value_members.MemberTypes], imported as [StorageType]. *)
Inductive StorageType : Type :=
| INT_MEMBER | FLOAT_MEMBER | BOOLEAN_MEMBER | ID_MEMBER | BITFIELD_MEMBER
| STRING_MEMBER | CONTAINER_MEMBER
| ARRAY_INT | ARRAY_FLOAT | ARRAY_BOOL | ARRAY_ID | ARRAY_STRING
| ARRAY_CONTAINER.

#[global] Instance StorageType_eq_dec : EqDecision StorageType.
Proof. solve_decision. Defined.

(** [ContinueReadMember.Result]. *)
Inductive ContinueResult : Type := ABORT | CONTINUE.

(** ** Python values

    The attributes that [read] stores on an object: decoded numbers,
    strings, the tuples returned by [struct.unpack_from], nested objects
    and the lists and dicts of sub-objects. *)

(** Keys of a [class_lookup] dict and of the per-subtype bucket dict. *)
Inductive key : Type :=
| KNone
| KInt (z : Z)
| KStr (s : string).

#[global] Instance key_eq_dec : EqDecision key.
Proof. solve_decision. Defined.

Inductive value : Type :=
| VNone
| VInt (z : Z)
| VFloat (f : spec_float)
| VStr (s : string)
| VBytes (b : list Byte.byte)
| VTuple (elems : list value)
| VResult (r : ContinueResult)
| VList (elems : list value)
| VDict (buckets : list (key * list value))
| VObj (attrs : gmap string value).

(** The instance dictionary of a [GenieStructure] object. *)
Abbreviation obj := (gmap string value).

(** [getattr(self, name)] for the names that members are given: what
    the instance dictionary holds.  The names that a class provides on
    its own (its methods, [name_struct], [name_struct_file],
    [struct_description] and what [object] defines) are taken not to be
    member names. *)
Definition getattr (self : obj) (name : string) : outcome value :=
  match self !! name with
  | Some v => Ok v
  | None => Err AttributeError
  end.

(** [setattr(self, var_name, v)]; members without a name carry [None],
    which [setattr] refuses. *)
Definition setattr (self : obj) (var_name : option string) (v : value)
  : outcome obj :=
  match var_name with
  | Some name => Ok (<[name := v]> self)
  | None => Err TypeError
  end.

(** The integer a float compares equal to, if there is one. *)
Definition float_integer (f : spec_float) : option Z :=
  match f with
  | S754_zero _ => Some 0
  | S754_finite s m e =>
      let sign := if s then -1 else 1 in
      if 0 <=? e then Some (sign * (Z.pos m * 2 ^ e))
      else if Z.pos m mod 2 ^ (- e) =? 0
           then Some (sign * (Z.pos m / 2 ^ (- e)))
           else None
  | S754_infinity _ | S754_nan => None
  end.

(** A Python value used as a dict key.  Integers, strings and [None] are
    the keys a [class_lookup] is built from; a float finds the entry of
    the integer it is equal to, any other hashable value finds no entry,
    and an unhashable one is refused. *)
Definition value_key (v : value) : outcome key :=
  match v with
  | VNone => Ok KNone
  | VInt z => Ok (KInt z)
  | VStr s => Ok (KStr s)
  | VFloat f =>
      match float_integer f with
      | Some z => Ok (KInt z)
      | None => Err KeyError
      end
  | VTuple _ | VBytes _ | VResult _ | VObj _ => Err KeyError
  | VList _ | VDict _ => Err TypeError
  end.

(** Truth value of an attribute, as [if offset_lookup:] tests it. *)
Definition truthy (v : value) : bool :=
  match v with
  | VNone => false
  | VInt z => negb (z =? 0)
  | VFloat (S754_zero _) => false
  | VFloat _ => true
  | VStr s => negb (String.eqb s EmptyString)
  | VBytes b => negb (Nat.eqb (length b) 0)
  | VTuple l | VList l => negb (Nat.eqb (length l) 0)
  | VDict d => negb (Nat.eqb (length d) 0)
  | VResult _ | VObj _ => true
  end.

(** ** The [struct] module

    [raw] is an immutable bytes object.  [struct.unpack_from] is used
    with the format ["< %d%s"]: little-endian, standard sizes, no
    alignment. *)

Inductive symbol : Type :=
| Sym_b | Sym_B | Sym_h | Sym_H | Sym_i | Sym_I | Sym_l | Sym_L
| Sym_q | Sym_Q | Sym_f | Sym_d | Sym_s.

#[global] Instance symbol_eq_dec : EqDecision symbol.
Proof. solve_decision. Defined.

(** Modelled from the spec: [struct_type_lookup] of
    [convert/deprecated/util.py], which is not part of the sources at
    hand; the closed mapping from a C type name to the struct scan
    symbol that fixes the element width (spec, section 6). *)
Definition struct_type_lookup (struct_type : string) : option symbol :=
  if String.eqb struct_type "char" then Some Sym_b
  else if String.eqb struct_type "unsigned char" then Some Sym_B
  else if String.eqb struct_type "int8_t" then Some Sym_b
  else if String.eqb struct_type "uint8_t" then Some Sym_B
  else if String.eqb struct_type "short" then Some Sym_h
  else if String.eqb struct_type "unsigned short" then Some Sym_H
  else if String.eqb struct_type "int16_t" then Some Sym_h
  else if String.eqb struct_type "uint16_t" then Some Sym_H
  else if String.eqb struct_type "int" then Some Sym_i
  else if String.eqb struct_type "unsigned int" then Some Sym_I
  else if String.eqb struct_type "int32_t" then Some Sym_i
  else if String.eqb struct_type "uint32_t" then Some Sym_I
  else if String.eqb struct_type "long" then Some Sym_l
  else if String.eqb struct_type "unsigned long" then Some Sym_L
  else if String.eqb struct_type "long long" then Some Sym_q
  else if String.eqb struct_type "unsigned long long" then Some Sym_Q
  else if String.eqb struct_type "int64_t" then Some Sym_q
  else if String.eqb struct_type "uint64_t" then Some Sym_Q
  else if String.eqb struct_type "float" then Some Sym_f
  else if String.eqb struct_type "double" then Some Sym_d
  else if String.eqb struct_type "char[]" then Some Sym_s
  else None.

(** Standard size of one element of a format symbol. *)
Definition width (sym : symbol) : Z :=
  match sym with
  | Sym_b | Sym_B | Sym_s => 1
  | Sym_h | Sym_H => 2
  | Sym_i | Sym_I | Sym_l | Sym_L | Sym_f => 4
  | Sym_q | Sym_Q | Sym_d => 8
  end.

(** [struct.calcsize("< %d%s" % (data_count, symbol))]. *)
Definition calcsize (data_count : Z) (sym : symbol) : Z :=
  data_count * width sym.

Definition byte_val (b : Byte.byte) : Z := Z.of_N (Byte.to_N b).

(** Little-endian unsigned integer held in a run of bytes. *)
Fixpoint le_uint (bs : list Byte.byte) : Z :=
  match bs with
  | [] => 0
  | b :: bs' => byte_val b + 256 * le_uint bs'
  end.

(** Two's complement reading of a [w]-byte unsigned integer. *)
Definition to_signed (w : Z) (u : Z) : Z :=
  if u <? 2 ^ (8 * w - 1) then u else u - 2 ^ (8 * w).

(** IEEE 754 binary interchange format with precision [prec] and
    maximal exponent [emax], read from its bit pattern.  A Python float
    made from a binary32 pattern denotes the same number. *)
Definition float_of_bits (prec emax bits : Z) : spec_float :=
  let mbits := prec - 1 in
  let m := bits mod 2 ^ mbits in
  let e := (bits / 2 ^ mbits) mod (2 * emax) in
  let s := negb (bits / 2 ^ mbits / (2 * emax) =? 0) in
  if e =? 0 then
    if m =? 0 then S754_zero s
    else S754_finite s (Z.to_pos m) (3 - emax - prec)
  else if e =? 2 * emax - 1 then
    if m =? 0 then S754_infinity s else S754_nan
  else S754_finite s (Z.to_pos (m + 2 ^ mbits)) (e - (emax - 1) - mbits).

(** [math.isfinite]. *)
Definition isfinite (f : spec_float) : bool :=
  match f with
  | S754_zero _ | S754_finite _ _ _ => true
  | S754_infinity _ | S754_nan => false
  end.

Definition decode_elem (sym : symbol) (bs : list Byte.byte) : value :=
  match sym with
  | Sym_B | Sym_H | Sym_I | Sym_L | Sym_Q => VInt (le_uint bs)
  | Sym_b | Sym_h | Sym_i | Sym_l | Sym_q =>
      VInt (to_signed (width sym) (le_uint bs))
  | Sym_f => VFloat (float_of_bits 24 128 (le_uint bs))
  | Sym_d => VFloat (float_of_bits 53 1024 (le_uint bs))
  | Sym_s => VBytes bs
  end.

(** Consecutive elements of [w] bytes each. *)
Fixpoint decode_elems (sym : symbol) (w : nat) (n : nat) (bs : list Byte.byte)
  : list value :=
  match n with
  | O => []
  | S n' => decode_elem sym (firstn w bs) :: decode_elems sym w n' (skipn w bs)
  end.

(** [struct.unpack_from("< %d%s" % (data_count, symbol), raw, offset)]
    for [data_count >= 0].  A negative offset counts from the end of the
    buffer; the call fails when the buffer does not hold
    [calcsize] bytes from the offset on.  The repeat count of ["s"] is
    the length of the single bytes object it yields. *)
Definition unpack_from (data_count : Z) (sym : symbol)
           (raw : list Byte.byte) (offset : Z) : outcome (list value) :=
  let size := calcsize data_count sym in
  let len := Z.of_nat (length raw) in
  let* start :=
    if offset <? 0 then
      if (0 <? offset + size) || (offset + len <? 0)
      then Err StructError else Ok (offset + len)
    else Ok offset in
  if len - start <? size then Err StructError
  else
    let bs := firstn (Z.to_nat size) (skipn (Z.to_nat start) raw) in
    match sym with
    | Sym_s => Ok [VBytes bs]
    | _ => Ok (decode_elems sym (Z.to_nat (width sym)) (Z.to_nat data_count) bs)
    end.

(** Modelled from the spec: [decode_until_null] of [util/strings.py],
    which is not part of the sources at hand; a string-like element is
    truncated at the first null terminator (spec, section 4.2, step 5).
    Text is kept as the byte string itself. *)
Fixpoint decode_until_null (data : list Byte.byte) : string :=
  match data with
  | [] => EmptyString
  | b :: rest =>
      if Byte.eqb b Byte.x00 then EmptyString
      else String (ascii_of_byte b) (decode_until_null rest)
  end.

(** ["%08x" % n]. *)
Definition hex08 (n : Z) : string :=
  let digits := match n with
                | Z0 => "0"
                | Zpos p | Zneg p => HexString.Raw.of_pos p EmptyString
                end in
  let sign := if n <? 0 then "-" else EmptyString in
  let pad := Nat.sub 8 (String.length sign + String.length digits) in
  String.append sign
    (String.append (string_of_list_ascii (repeat "0"%char pad)) digits).

(** ** The schema model

    A struct format is a list of 4-tuples
    [(read_mode, var_name, storage_type, read_type)]. *)

(** The [hashlib.sha512] object handed through [format_hash], as the
    data fed to it so far: the digest is a function of that data. *)
Definition hasher : Type := string.

(** [hasher.update(data.encode())]. *)
Definition update (h : hasher) (data : string) : hasher := String.append h data.

(** The edition and expansions a data file belongs to, only handed on to
    [get_data_format_members]. *)
Definition game_version : Type := (string * list string)%type.

(** Modelled from the spec: [vararray_match] and [integer_match] of
    [convert/deprecated/struct_definition.py], which are not part of the
    sources at hand.  A read type given as a string is kept in the form
    these expressions take it apart into: a plain type name, or a type
    name with a count that is either a literal or the name of a
    previously decoded field of the same object (spec, section 3,
    [Primitive(type, count)]). *)
Inductive count : Type :=
| Literal (n : N)
| FieldRef (name : string).

Inductive str_type : Type :=
| Plain (type_name : string)
| VarArray (type_name : string) (data_count : count).

(** The text of a string read type, which [format_hash] encodes. *)
Definition type_text (t : str_type) : string :=
  match t with
  | Plain ty => ty
  | VarArray ty (Literal n) =>
      String.append ty (String.append "[" (String.append
        (NilEmpty.string_of_uint (N.to_uint n)) "]"))
  | VarArray ty (FieldRef name) =>
      String.append ty (String.append "[" (String.append name "]"))
  end.

(** The interface of [read_members.ReadMember], whose subclasses are
    not part of the sources at hand: the attributes and methods that
    [read] and [format_hash] call on a member. *)
Record ReadMember : Type := {
  raw_type : string;
  get_length : obj -> outcome Z;
  verify_read_data : obj -> list value -> bool;
  entry_hook : value -> outcome value;
  get_empty_value : outcome value;
  member_format_hash : hasher -> hasher;
}.

(** The subclasses of [ReadMember] that [read] tells apart among the
    members holding actual content. *)
Inductive member_class : Type :=
| EnumLookupMember
| ContinueReadMember
| PlainReadMember.

#[global] Instance member_class_eq_dec : EqDecision member_class.
Proof. solve_decision. Defined.

(** [MultisubtypeMember.passed_args]: [None], a string, or a set of
    member names. *)
Inductive passed_args_t : Type :=
| PNone
| PStr (s : string)
| PSet (names : list string).

(** A member that is no reference but actual content. *)
Inductive data_type : Type :=
| TStr (t : str_type)                           (* isinstance(var_type, str) *)
| TReadMember (k : member_class) (rm : ReadMember)
| TOther.                                       (* any other object *)

(** Read types, and the classes they refer to.  A class is either a
    subclass of [GenieStructure], given by its three class attributes
    and its [get_data_format_members], or any other class. *)
Inductive read_type : Type :=
| TData (d : data_type)
| TGroupMember (include : bool) (rm : ReadMember) (cls : class_ref)
    (* [include]: isinstance(var_type, IncludeMembers) *)
| TMultisubtypeMember (subdata : bool) (rm : ReadMember)
    (passed_args : passed_args_t)
    (offset_to : option (string * (value -> bool)))
    (subtype_definition :
       option (MemberAccess * option string * StorageType * read_type))
    (class_lookup : list (key * class_ref))
    (* [subdata]: isinstance(var_type, SubdataMember) *)
with class_ref : Type :=
| GenieClass (name_struct name_struct_file struct_description : string)
    (get_data_format_members :
       game_version ->
       list (MemberAccess * option string * StorageType * read_type))
| OtherClass (name : string).

Abbreviation member :=
  (MemberAccess * option string * StorageType * read_type)%type.

Definition is_ReadMember (var_type : read_type) : option ReadMember :=
  match var_type with
  | TData (TReadMember _ rm) => Some rm
  | TGroupMember _ rm _ => Some rm
  | TMultisubtypeMember _ rm _ _ _ _ => Some rm
  | TData (TStr _) | TData TOther => None
  end.

Definition is_ContinueReadMember (var_type : read_type) : bool :=
  match var_type with
  | TData (TReadMember ContinueReadMember _) => true
  | _ => false
  end.

(** ** get_data_format *)

(** An element of an [allowed_modes] tuple: the literal [True] that
    every caller puts first, or an export mode. *)
Inductive mode_item : Type :=
| MTrue
| MMode (m : MemberAccess).

#[global] Instance mode_item_eq_dec : EqDecision mode_item.
Proof. solve_decision. Defined.

(** [export not in allowed_modes] is the negation of this. *)
Definition mode_in (export : MemberAccess) (allowed_modes : list mode_item)
  : bool :=
  bool_decide (MMode export ∈ allowed_modes).

(** Truth value of the [allowed_modes] argument: [None] is the default
    [False]; a tuple is true when it is not empty. *)
Definition modes_given (allowed_modes : option (list mode_item)) : bool :=
  match allowed_modes with
  | Some (_ :: _) => true
  | Some [] | None => false
  end.

(** The test that lets a member that is not a flattened inclusion
    through to the [yield], [false] standing for the [continue]. *)
Definition member_returned (allowed_modes : option (list mode_item))
           (m : member) : bool :=
  let '(export, _, _, read_type) := m in
  let definitively_return_member := is_ContinueReadMember read_type in
  if modes_given allowed_modes then
    if negb (mode_in export (default [] allowed_modes)) then
      if negb definitively_return_member then false else true
    else true
  else true.

Arguments member_returned : simpl never.

(** [cls.get_data_format_members(game_version)]; a class that is no
    [GenieStructure] declares nothing. *)
Definition declared_members (cls : class_ref) (gv : game_version)
  : list member :=
  match cls with
  | GenieClass _ _ _ get_data_format_members => get_data_format_members gv
  | OtherClass _ => []
  end.

Definition member_export (m : member) : MemberAccess := fst (fst (fst m)).
Definition member_name (m : member) : option string := snd (fst (fst m)).
Definition member_type (m : member) : read_type := snd m.

(** Two members that agree in export mode, name and read type, and so
    differ at most in the storage type. *)
Definition same_but_storage (m m' : member) : Prop :=
  member_export m = member_export m'
  /\ member_name m = member_name m'
  /\ member_type m = member_type m'.

(** The generator [get_data_format], run to its end: the entries it
    yields, or the exception that ends it. *)
Fixpoint get_data_format (cls : class_ref) (gv : game_version)
         (allowed_modes : option (list mode_item))
         (flatten_includes is_parent : bool) {struct cls}
  : outcome (list (bool * member)) :=
  match cls with
  | OtherClass _ => Err AttributeError
  | GenieClass _ _ _ get_data_format_members =>
      (fix members_loop (ms : list member) : outcome (list (bool * member)) :=
         match ms with
         | [] => Ok []
         | (export, var_name, storage_type, read_type) as m :: ms' =>
             match read_type with
             | TGroupMember true _ inc_cls =>
                 if flatten_includes then
                   let* inner :=
                     get_data_format inc_cls gv allowed_modes
                                     flatten_includes true in
                   let* rest := members_loop ms' in
                   Ok (inner ++ rest)
                 else
                   let* rest := members_loop ms' in
                   Ok (if member_returned allowed_modes m
                       then (is_parent, m) :: rest else rest)
             | _ =>
                 let* rest := members_loop ms' in
                 Ok (if member_returned allowed_modes m
                     then (is_parent, m) :: rest else rest)
             end
         end) (get_data_format_members gv)
  end.

(** ** Value members

    Modelled from the spec: the classes of
    [value_object/read/value_members.py], which are not part of the
    sources at hand, as the tagged union [ValueNode] of the spec
    (section 3); each node carries the name and the value or children
    its constructor is called with. *)
Inductive ValueMember : Type :=
| IntMember (name : option string) (v : value)
| FloatMember (name : option string) (v : value)
| BooleanMember (name : option string) (v : value)
| IDMember (name : option string) (v : value)
| BitfieldMember (name : option string) (v : value)
| StringMember (name : option string) (v : value)
| ContainerMember (name : option string) (members : list ValueMember)
| ArrayMember (name : option string)
    (allowed_member_type : option StorageType) (members : list ValueMember).

(** ** read *)

(** The local variables of [read] that live across the iterations of
    its loop over the members.  [gen_member] is unbound until one of the
    branches assigns it and keeps its value afterwards. *)
Record loop_state : Type := LoopState {
  offset : Z;
  self : obj;
  generated_value_members : list ValueMember;
  stop_reading_members : bool;
  gen_member : option ValueMember;
}.

Definition init_state (offset : Z) (self : obj) : loop_state :=
  LoopState offset self [] false None.

(** What a call of [read] hands back: the two returned values, and the
    object it has filled. *)
Definition read_result : Type := (Z * obj * list ValueMember)%type.

Definition finish (st : loop_state) : read_result :=
  (offset st, self st, generated_value_members st).

(** A bound [read] of some class, waiting for offset and object. *)
Definition reader : Type := Z -> obj -> outcome read_result.

(** The branch taken once [stop_reading_members] is set. *)
Definition replacement_value (var_type : read_type) : outcome value :=
  match is_ReadMember var_type with
  | Some rm => get_empty_value rm
  | None => Ok (VInt 0)
  end.

Definition skip_member (var_name : option string) (var_type : read_type)
           (st : loop_state) : outcome loop_state :=
  let* v := replacement_value var_type in
  let* self' := setattr (self st) var_name v in
  Ok (LoopState (offset st) self' (generated_value_members st)
                (stop_reading_members st) (gen_member st)).

(** *** Group members *)

Definition read_group (rd : option reader) (include : bool)
           (export : MemberAccess) (var_name : option string)
           (storage_type : StorageType) (st : loop_state)
  : outcome loop_state :=
  match rd with
  | None => Err NonExportableReference
  | Some cls_read =>
      if include then
        let* '(offset', self', gen_members) := cls_read (offset st) (self st) in
        Ok (LoopState offset' self'
              (if decide (export = READ_GEN)
               then generated_value_members st ++ gen_members
               else generated_value_members st)
              (stop_reading_members st) (gen_member st))
      else
        let* '(offset', grouped_data, gen_members) := cls_read (offset st) ∅ in
        let* self' := setattr (self st) var_name (VObj grouped_data) in
        let* gens :=
          if decide (export = READ_GEN) then
            match storage_type with
            | CONTAINER_MEMBER =>
                Ok (generated_value_members st
                      ++ [ContainerMember var_name gen_members])
            | ARRAY_CONTAINER =>
                Ok (generated_value_members st
                      ++ [ArrayMember var_name (Some CONTAINER_MEMBER)
                            [ContainerMember var_name gen_members]])
            | _ => Err StorageMismatch
            end
          else Ok (generated_value_members st) in
        Ok (LoopState offset' self' gens
                      (stop_reading_members st) (gen_member st))
  end.

(** *** Multi-subtype members *)

(** The names [for passed_member_name in var_type.passed_args] runs
    over.  A string that is not empty is first replaced, in the member
    itself, by the set of its characters: [var_type.passed_args =
    set(var_type.passed_args)]. *)
Definition passed_names (passed_args : passed_args_t) : list string :=
  match passed_args with
  | PNone => []
  | PStr s =>
      remove_dups (map (fun c => String c EmptyString) (list_ascii_of_string s))
  | PSet names => names
  end.

(** The member attribute after that statement. *)
Definition written_back (passed_args : passed_args_t) : passed_args_t :=
  match passed_args with
  | PStr (String _ _ as s) => PSet (passed_names (PStr s))
  | _ => passed_args
  end.

Fixpoint collect_varargs (self : obj) (names : list string) (varargs : obj)
  : outcome obj :=
  match names with
  | [] => Ok varargs
  | name :: names' =>
      let* v := getattr self name in
      collect_varargs self names' (<[name := v]> varargs)
  end.

Fixpoint dict_lookup {A : Type} (d : list (key * A)) (k : key) : option A :=
  match d with
  | [] => None
  | (k', a) :: d' => if decide (k' = k) then Some a else dict_lookup d' k
  end.

(** [d[k].append(x)] on the buckets of a dict. *)
Fixpoint dict_append (d : list (key * list value)) (k : key) (x : value)
  : option (list (key * list value)) :=
  match d with
  | [] => None
  | (k', l) :: d' =>
      if decide (k' = k) then Some ((k', l ++ [x]) :: d')
      else option_map (cons (k', l)) (dict_append d' k x)
  end.

(** Position of a sequence index, counted from the end when negative. *)
Definition seq_index (len : nat) (i : Z) : option nat :=
  let j := if i <? 0 then i + Z.of_nat len else i in
  if (0 <=? j) && (j <? Z.of_nat len) then Some (Z.to_nat j) else None.

(** [container[subtype_name].append(x)], giving the container after
    the call.  The container is the dict of buckets unless the read of
    the subtype definition has stored something else under the name. *)
Definition bucket_append (container : value) (subtype_name : value)
           (x : value) : outcome value :=
  match container with
  | VDict d =>
      let* k := value_key subtype_name in
      match dict_append d k x with
      | Some d' => Ok (VDict d')
      | None => Err KeyError
      end
  | VList l | VTuple l =>
      match subtype_name with
      | VInt i =>
          match seq_index (length l) i with
          | Some j =>
              match l !! j with
              | Some (VList b) =>
                  let l' := <[j := VList (b ++ [x])]> l in
                  Ok (match container with VTuple _ => VTuple l' | _ => VList l' end)
              | _ => Err AttributeError
              end
          | None => Err IndexError
          end
      | _ => Err TypeError
      end
  | VStr s =>
      match subtype_name with
      | VInt i => match seq_index (String.length s) i with
                  | Some _ => Err AttributeError
                  | None => Err IndexError
                  end
      | _ => Err TypeError
      end
  | VBytes b =>
      match subtype_name with
      | VInt i => match seq_index (length b) i with
                  | Some _ => Err AttributeError
                  | None => Err IndexError
                  end
      | _ => Err TypeError
      end
  | VNone | VInt _ | VFloat _ | VResult _ | VObj _ => Err TypeError
  end.

(** [offset_lookup[i]]: an element of a tuple or list, a string of one
    character of a string, the number of a byte of a bytes object, the
    bucket a dict holds for the key [i]. *)
Definition subscript (v : value) (i : nat) : outcome value :=
  match v with
  | VTuple l | VList l =>
      match l !! i with
      | Some x => Ok x
      | None => Err IndexError
      end
  | VStr s =>
      match String.get i s with
      | Some c => Ok (VStr (String c EmptyString))
      | None => Err IndexError
      end
  | VBytes b =>
      match b !! i with
      | Some x => Ok (VInt (byte_val x))
      | None => Err IndexError
      end
  | VDict d =>
      match dict_lookup d (KInt (Z.of_nat i)) with
      | Some bucket => Ok (VList bucket)
      | None => Err KeyError
      end
  | VNone | VInt _ | VFloat _ | VResult _ | VObj _ => Err TypeError
  end.

(** The state of the loop [for i in range(list_len)]. *)
Record subdata_state : Type := SubdataState {
  sd_offset : Z;
  sd_self : obj;
  subdata_value_members : list ValueMember;
}.

(** [if offset_lookup: if not var_type.offset_to[1](offset_lookup[i]):
    continue]: whether entry [i] is left out. *)
Definition entry_skipped (offset_to : option (string * (value -> bool)))
           (offset_lookup : value) (i : nat) : outcome bool :=
  if truthy offset_lookup then
    match offset_to with
    | Some (_, present) =>
        let* entry := subscript offset_lookup i in
        Ok (negb (present entry))
    | None => Ok false
    end
  else Ok false.

(** The class of the next entry, with the state after its choice: the
    single class of a [SubdataMember]; otherwise the class that
    [class_lookup] holds for the subtype name, which the on-the-fly read
    of the subtype definition has just stored on the object.
    [subtype_read] is that read, [subtype_name_attr] the name the
    definition stores under, and [class_lookup] holds, for each key, the
    bound [read] of its class, or [None] for a class that is no
    [GenieStructure]. *)
Definition select_subtype (subdata : bool)
           (subtype_read : option reader)
           (subtype_name_attr : option (option string))
           (class_lookup : list (key * option reader))
           (sd : subdata_state)
  : outcome (Z * obj * list ValueMember * value * option reader) :=
  if subdata then
    match dict_lookup class_lookup KNone with
    | Some c => Ok (sd_offset sd, sd_self sd, [], VNone, c)
    | None => Err KeyError
    end
  else
    match subtype_read, subtype_name_attr with
    | Some rd, Some attr =>
        let* '(offset1, self1, sub_members) :=
          rd (sd_offset sd) (sd_self sd) in
        let* subtype_name :=
          match attr with
          | Some n => getattr self1 n
          | None => Err TypeError
          end in
        let* k := value_key subtype_name in
        match dict_lookup class_lookup k with
        | Some c => Ok (offset1, self1, sub_members, subtype_name, c)
        | None => Err KeyError
        end
    | _, _ =>
        (* (False,) + var_type.subtype_definition, without a definition *)
        Err TypeError
    end.

(** What is done with the entry once its class has read it: the new
    object is appended to the list, or to the bucket of its subtype, and
    its value members are wrapped into a container. *)
Definition store_entry (subdata : bool) (export : MemberAccess)
           (var_name : option string) (storage_type : StorageType)
           (self1 : obj) (sub_members : list ValueMember)
           (subtype_name : value) (subdata_value_members : list ValueMember)
           (r : read_result) : outcome subdata_state :=
  let '(offset2, new_data, gen_members) := r in
  let* self2 :=
    match var_name with
    | None => Err TypeError
    | Some n =>
        let* container := getattr self1 n in
        if subdata then
          match container with
          | VList l => Ok (<[n := VList (l ++ [VObj new_data])]> self1)
          | _ => Err AttributeError
          end
        else
          let* container' :=
            bucket_append container subtype_name (VObj new_data) in
          Ok (<[n := container']> self1)
    end in
  let* members :=
    if decide (export = READ_GEN) then
      match storage_type with
      | ARRAY_CONTAINER =>
          Ok (subdata_value_members
                ++ [ContainerMember var_name (sub_members ++ gen_members)])
      | _ => Err StorageMismatch
      end
    else Ok subdata_value_members in
  Ok (SubdataState offset2 self2 members).

(** One iteration of the loop. *)
Definition read_subdata_entry
           (subdata : bool) (offset_to : option (string * (value -> bool)))
           (subtype_read : option reader)
           (subtype_name_attr : option (option string))
           (class_lookup : list (key * option reader))
           (export : MemberAccess) (var_name : option string)
           (storage_type : StorageType)
           (varargs : obj) (offset_lookup : value)
           (i : nat) (sd : subdata_state) : outcome subdata_state :=
  let* skip := entry_skipped offset_to offset_lookup i in
  if (skip : bool) then Ok sd
  else
    let* '(offset1, self1, sub_members, subtype_name, new_data_class) :=
      select_subtype subdata subtype_read subtype_name_attr class_lookup sd in
    match new_data_class with
    | None => Err NonExportableReference
    | Some new_data_read =>
        (* the new object starts from the passed arguments *)
        let* r := new_data_read offset1 varargs in
        store_entry subdata export var_name storage_type self1 sub_members
                    subtype_name (subdata_value_members sd) r
    end.

Fixpoint read_subdata_entries (step : nat -> subdata_state -> outcome subdata_state)
         (indices : list nat) (sd : subdata_state) : outcome subdata_state :=
  match indices with
  | [] => Ok sd
  | i :: rest =>
      let* sd' := step i sd in
      read_subdata_entries step rest sd'
  end.

Definition read_multisubtype
           (subdata : bool) (rm : ReadMember) (passed_args : passed_args_t)
           (offset_to : option (string * (value -> bool)))
           (subtype_read : option reader)
           (subtype_name_attr : option (option string))
           (class_lookup : list (key * option reader))
           (export : MemberAccess) (var_name : option string)
           (storage_type : StorageType) (st : loop_state)
  : outcome loop_state :=
  let* varargs := collect_varargs (self st) (passed_names passed_args) ∅ in
  let* list_len := get_length rm (self st) in
  let* self0 :=
    setattr (self st) var_name
            (if subdata then VList []
             else VDict (map (fun kc => (fst kc, [])) class_lookup)) in
  let* offset_lookup :=
    match offset_to with
    | Some (name, _) => getattr self0 name
    | None => Ok VNone
    end in
  let* sd :=
    read_subdata_entries
      (read_subdata_entry subdata offset_to subtype_read subtype_name_attr
                          class_lookup export var_name storage_type
                          varargs offset_lookup)
      (seq 0 (Z.to_nat list_len))
      (SubdataState (offset st) self0 []) in
  Ok (LoopState (sd_offset sd) (sd_self sd)
        (if decide (export = READ_GEN)
         then generated_value_members st
                ++ [ArrayMember var_name (Some CONTAINER_MEMBER)
                                (subdata_value_members sd)]
         else generated_value_members st)
        (stop_reading_members st) (gen_member st)).

(** *** Members holding actual content *)

(** The storage types an array read type may be stored as. *)
Definition array_storage (storage_type : StorageType) : bool :=
  match storage_type with
  | STRING_MEMBER | ARRAY_INT | ARRAY_FLOAT | ARRAY_BOOL | ARRAY_ID
  | ARRAY_STRING => true
  | _ => false
  end.

(** The whole number below a finite float: its integral part when it
    is not negative, a negative number when it is. *)
Definition float_floor (f : spec_float) : option Z :=
  match f with
  | S754_zero _ => Some 0
  | S754_finite s m e =>
      let n := if s then Z.neg m else Z.pos m in
      Some (if 0 <=? e then n * 2 ^ e else n / 2 ^ (- e))
  | S754_infinity _ | S754_nan => None
  end.

(** A dynamic length, read from a member of the object, as the branch
    goes on to use it: [data_count < 0] and then ["%d" % data_count] in
    the struct format.  An integer is taken as it is.  A finite float
    passes the comparison unless it is negative, and the format takes
    its integral part; it is given as the whole number below it, which
    is negative exactly when the float is.  Negative infinity fails the
    comparison and then cannot be put into the message of the
    exception.  Positive infinity and NaN pass the comparison, and fail
    when the format is built, which is after [struct_type] has been
    looked up.  Any other value cannot be compared with zero. *)
Definition dynamic_count (struct_type : string) (v : value) : outcome Z :=
  match v with
  | VInt z => Ok z
  | VFloat f =>
      match float_floor f, f with
      | Some z, _ => Ok z
      | None, S754_infinity true => Err OverflowError
      | None, _ =>
          match struct_type_lookup struct_type with
          | None => Err UnknownElementType
          | Some _ =>
              Err (match f with S754_nan => ValueError | _ => OverflowError end)
          end
      end
  | _ => Err TypeError
  end.

(** What the first part of the branch works out: the raw type, the
    element count, whether the read type matched the array pattern, and
    the member itself when it is a [ReadMember]. *)
Record data_layout : Type := DataLayout {
  struct_type : string;
  data_count : Z;
  is_array : bool;
  is_custom_member : option (member_class * ReadMember);
}.

(** [struct_type] of an array read type: ["char"] stands for
    ["char[]"]. *)
Definition array_struct_type (ty : string) : string :=
  if String.eqb ty "char" then "char[]" else ty.

(** [data_count] of an array read type as it is first assigned: the
    number written in the type, or the value of the member named
    there. *)
Definition count_value (self : obj) (cnt : count) : outcome value :=
  match cnt with
  | Literal n => Ok (VInt (Z.of_N n))
  | FieldRef name => getattr self name
  end.

(** The element count of a member: one, a literal, the value of a
    member read before, or what [get_length] says. *)
Definition resolve_count (self : obj) (var_type : data_type) : outcome Z :=
  match var_type with
  | TStr (VarArray ty cnt) =>
      let* v := count_value self cnt in
      dynamic_count (array_struct_type ty) v
  | TStr (Plain _) => Ok 1
  | TReadMember _ rm => get_length rm self
  | TOther => Err UnknownMemberDefinition
  end.

(** The layout of a member.  For an array read type the count is
    fetched first, then the storage type is checked, and only then is
    the count looked at as a number. *)
Definition resolve_layout (self : obj) (storage_type : StorageType)
           (var_type : data_type) : outcome data_layout :=
  match var_type with
  | TStr (VarArray ty cnt) =>
      let struct_type := array_struct_type ty in
      let* v := count_value self cnt in
      let* _ := guard (array_storage storage_type) StorageMismatch in
      let* data_count := dynamic_count struct_type v in
      Ok (DataLayout struct_type data_count true None)
  | TStr (Plain ty) => Ok (DataLayout ty 1 false None)
  | TReadMember k rm =>
      let* data_count := get_length rm self in
      Ok (DataLayout (raw_type rm) data_count false (Some (k, rm)))
  | TOther => Err UnknownMemberDefinition
  end.

(** The storage type an array read type is checked against before its
    count is looked at; other read types have no such check. *)
Definition storage_admits (storage_type : StorageType) (d : data_type) : bool :=
  match d with
  | TStr (VarArray _ _) => array_storage storage_type
  | _ => true
  end.

(** The value members of the elements of an array, the allowed member
    type and the last [gen_member] assigned. *)
Fixpoint array_members (var_name : option string) (storage_type : StorageType)
         (elems : list value) (gm : option ValueMember)
  : outcome (list ValueMember * option StorageType * option ValueMember) :=
  match elems with
  | [] => Ok ([], None, gm)
  | elem :: rest =>
      let* '(gen_member, allowed_member_type) :=
        match storage_type with
        | ARRAY_INT => Ok (IntMember var_name elem, INT_MEMBER)
        | ARRAY_FLOAT => Ok (FloatMember var_name elem, FLOAT_MEMBER)
        | ARRAY_BOOL => Ok (BooleanMember var_name elem, BOOLEAN_MEMBER)
        | ARRAY_ID => Ok (IDMember var_name elem, ID_MEMBER)
        | ARRAY_STRING => Ok (StringMember var_name elem, STRING_MEMBER)
        | _ => Err StorageMismatch
        end in
      let* '(members, allowed', gm') :=
        array_members var_name storage_type rest (Some gen_member) in
      Ok (gen_member :: members,
          match allowed' with Some a => Some a | None => Some allowed_member_type end,
          gm')
  end.

(** The value member of a single element. *)
Definition scalar_member (var_name : option string) (storage_type : StorageType)
           (custom : option (member_class * ReadMember))
           (result : value) (gm : option ValueMember)
  : outcome ValueMember :=
  match custom with
  | Some (k, rm) =>
      let* lookup_result := entry_hook rm result in
      match k with
      | EnumLookupMember =>
          match storage_type with
          | INT_MEMBER => Ok (IntMember var_name result)
          | ID_MEMBER => Ok (IDMember var_name result)
          | BITFIELD_MEMBER => Ok (BitfieldMember var_name result)
          | STRING_MEMBER => Ok (StringMember var_name lookup_result)
          | _ => Err StorageMismatch
          end
      | ContinueReadMember =>
          match storage_type with
          | BOOLEAN_MEMBER => Ok (StringMember var_name lookup_result)
          | _ => Err StorageMismatch
          end
      | PlainReadMember =>
          match gm with
          | Some stale => Ok stale
          | None => Err UnboundLocalError
          end
      end
  | None =>
      match storage_type with
      | INT_MEMBER => Ok (IntMember var_name result)
      | FLOAT_MEMBER => Ok (FloatMember var_name result)
      | BOOLEAN_MEMBER => Ok (BooleanMember var_name result)
      | ID_MEMBER => Ok (IDMember var_name result)
      | _ => Err StorageMismatch
      end
  end.

Definition is_abort (v : value) : bool :=
  match v with
  | VResult ABORT => true
  | _ => false
  end.

(** The part of the branch under [if export != SKIP]: unpack, verify,
    build the value member, run the entry hook and store the value.
    It yields the object, the generated members, the abort flag and
    [gen_member] as they are afterwards. *)
Definition unpack_member (raw : list Byte.byte) (export : MemberAccess)
           (var_name : option string) (storage_type : StorageType)
           (lay : data_layout) (sym : symbol) (st : loop_state)
  : outcome loop_state :=
  let* result := unpack_from (data_count lay) sym raw (offset st) in
  let* _ :=
    match is_custom_member lay with
    | Some (_, rm) => guard (verify_read_data rm (self st) result) InvalidData
    | None => Ok tt
    end in
  let gens := generated_value_members st in
  let* '(result, gens, gm) :=
    if decide (sym = Sym_s) then
      (* stringify char array *)
      let* data :=
        match result with
        | VBytes b :: _ => Ok b
        | _ => Err IndexError
        end in
      let result := VStr (decode_until_null data) in
      if decide (export = READ_GEN) then
        match storage_type with
        | STRING_MEMBER =>
            let gen_member := StringMember var_name result in
            Ok (result, gens ++ [gen_member], Some gen_member)
        | _ => Err StorageMismatch
        end
      else Ok (result, gens, gen_member st)
    else if is_array lay then
      if decide (export = READ_GEN) then
        let* '(members, allowed_member_type, gm) :=
          array_members var_name storage_type result (gen_member st) in
        let array := ArrayMember var_name allowed_member_type members in
        Ok (VTuple result, gens ++ [array], gm)
      else Ok (VTuple result, gens, gen_member st)
    else if data_count lay =? 1 then
      (* store first tuple element *)
      let* result :=
        match result with
        | r :: _ => Ok r
        | [] => Err IndexError
        end in
      let* _ :=
        if decide (sym = Sym_f) then
          match result with
          | VFloat f => guard (isfinite f) InvalidFloat
          | _ => Err TypeError
          end
        else Ok tt in
      if decide (export = READ_GEN) then
        let* gen_member :=
          scalar_member var_name storage_type (is_custom_member lay)
                        result (gen_member st) in
        Ok (result, gens ++ [gen_member], Some gen_member)
      else Ok (result, gens, gen_member st)
    else Ok (VTuple result, gens, gen_member st) in
  (* run entry hook for non-primitive members *)
  let* '(result, stop) :=
    match is_custom_member lay with
    | Some (_, rm) =>
        let* result := entry_hook rm result in
        Ok (result, if is_abort result then true else stop_reading_members st)
    | None => Ok (result, stop_reading_members st)
    end in
  (* store member's data value *)
  let* self' := setattr (self st) var_name result in
  Ok (LoopState (offset st) self' gens stop gm).

(** The branch of [read] for a member that is no reference but actual
    content. *)
Definition read_data_member (raw : list Byte.byte) (export : MemberAccess)
           (var_name : option string) (storage_type : StorageType)
           (var_type : data_type) (st : loop_state) : outcome loop_state :=
  let* lay := resolve_layout (self st) storage_type var_type in
  if data_count lay <? 0 then Err InvalidLength
  else
    match struct_type_lookup (struct_type lay) with
    | None => Err UnknownElementType
    | Some sym =>
        let var_name :=
          if decide (export = READ_UNKNOWN)
          then Some (String.append "unknown-0x" (hex08 (offset st)))
          else var_name in
        let* st' :=
          if decide (export = SKIP) then Ok st
          else unpack_member raw export var_name storage_type lay sym st in
        (* increase the current file position by the size we just read *)
        Ok (LoopState (offset st' + calcsize (data_count lay) sym)
                      (self st') (generated_value_members st')
                      (stop_reading_members st') (gen_member st'))
    end.

(** *** The method itself *)

(** The modes [read] asks [get_data_format] for. *)
Definition read_modes : list mode_item :=
  [MTrue; MMode READ; MMode READ_GEN; MMode READ_UNKNOWN; MMode SKIP].

(** [read], by recursion on the class it decodes, and the body of its
    loop over the members, by recursion on the read type.  The loop of
    [read] runs over the members that [get_data_format] yields for
    [read_modes] without flattening the inclusions. *)
Fixpoint read (cls : class_ref) (raw : list Byte.byte) (gv : game_version)
         (offset : Z) (self : obj) {struct cls} : outcome read_result :=
  match cls with
  | OtherClass _ => Err AttributeError
  | GenieClass _ _ _ get_data_format_members =>
      let* st :=
        (fix members_loop (ms : list member) (st : loop_state)
           : outcome loop_state :=
           match ms with
           | [] => Ok st
           | (export, var_name, storage_type, var_type) as m :: ms' =>
               if member_returned (Some read_modes) m then
                 let* st' :=
                   read_member var_type raw gv export var_name storage_type st in
                 members_loop ms' st'
               else members_loop ms' st
           end) (get_data_format_members gv) (init_state offset self) in
      Ok (finish st)
  end

with read_member (var_type : read_type) (raw : list Byte.byte)
       (gv : game_version) (export : MemberAccess) (var_name : option string)
       (storage_type : StorageType) (st : loop_state) {struct var_type}
  : outcome loop_state :=
  if stop_reading_members st then skip_member var_name var_type st
  else
    match var_type with
    | TGroupMember include _ cls =>
        read_group
          (match cls with
           | OtherClass _ => None
           | GenieClass _ _ _ _ => Some (read cls raw gv)
           end)
          include export var_name storage_type st
    | TMultisubtypeMember subdata rm passed_args offset_to
                          subtype_definition class_lookup =>
        read_multisubtype subdata rm passed_args offset_to
          (match subtype_definition with
           | Some (sub_export, sub_name, sub_storage, sub_type) =>
               Some (fun offset self =>
                       let* st' :=
                         read_member sub_type raw gv sub_export sub_name
                                     sub_storage (init_state offset self) in
                       Ok (finish st'))
           | None => None
           end)
          (match subtype_definition with
           | Some (_, sub_name, _, _) => Some sub_name
           | None => None
           end)
          ((fix bound (lookup : list (key * class_ref))
              : list (key * option reader) :=
              match lookup with
              | [] => []
              | (k, c) :: lookup' =>
                  (k, match c with
                      | OtherClass _ => None
                      | GenieClass _ _ _ _ => Some (read c raw gv)
                      end) :: bound lookup'
              end) class_lookup)
          export var_name storage_type st
    | TData d => read_data_member raw export var_name storage_type d st
    end.

(** The loop of [read] over a list of members as [get_data_format]
    yields them. *)
Fixpoint read_members (raw : list Byte.byte) (gv : game_version)
         (members : list (bool * member)) (st : loop_state)
  : outcome loop_state :=
  match members with
  | [] => Ok st
  | (_, (export, var_name, storage_type, var_type)) :: rest =>
      let* st' := read_member var_type raw gv export var_name storage_type st in
      read_members raw gv rest st'
  end.

(** The bound [read] of a class, if it is a [GenieStructure]. *)
Definition class_reader (raw : list Byte.byte) (gv : game_version)
           (cls : class_ref) : option reader :=
  match cls with
  | OtherClass _ => None
  | GenieClass _ _ _ _ => Some (read cls raw gv)
  end.

(** The on-the-fly read of a subtype definition:
    [self.read(raw, offset, game_version, cls=target_class,
    members=(((False,) + var_type.subtype_definition),))], a run of the
    loop of [read] over the one member given. *)
Definition subtype_reader (raw : list Byte.byte) (gv : game_version)
           (subtype_definition : member) : reader :=
  let '(export, var_name, storage_type, var_type) := subtype_definition in
  fun offset self =>
    let* st :=
      read_member var_type raw gv export var_name storage_type
                  (init_state offset self) in
    Ok (finish st).

(** *** The entries of a multi-subtype list

    What the loop over the indices of a list with a subtype definition
    has done with one index that was not left out: the value the
    subtype definition gave, the class found for it, the offset behind
    the subtype definition, the offset behind the entry and the object
    read. *)
Record decoded_entry : Type := DecodedEntry {
  entry_subtype_name : value;
  entry_class : class_ref;
  entry_data_offset : Z;
  entry_end : Z;
  entry_object : obj;
}.

(** A run of the loop from index [i] on, seen from outside: [entries]
    holds, index by index, [None] for an entry that the offset guard
    leaves out and the record of the entry otherwise.  For each record,
    the subtype definition is read at the offset and on the object that
    the entries before have left; the value it stores under [attr] is
    the key of the class in [class_lookup]; the [read] of that class
    decodes the entry from behind the subtype definition into an object
    that starts as [varargs]; and the object is appended to the bucket
    of its subtype in the container stored under [name].  The run ends
    at [offset'] with the object [self']. *)
Fixpoint entries_decoded (raw : list Byte.byte) (gv : game_version)
         (subtype_definition : member) (attr : string)
         (class_lookup : list (key * class_ref))
         (offset_to : option (string * (value -> bool)))
         (offset_lookup : value) (name : string) (varargs : obj)
         (i : nat) (offset : Z) (self : obj)
         (entries : list (option decoded_entry))
         (offset' : Z) (self' : obj) {struct entries} : Prop :=
  match entries with
  | [] => offset' = offset /\ self' = self
  | None :: rest =>
      entry_skipped offset_to offset_lookup i = Ok true
      /\ entries_decoded raw gv subtype_definition attr class_lookup offset_to
                         offset_lookup name varargs (S i) offset self rest
                         offset' self'
  | Some e :: rest =>
      entry_skipped offset_to offset_lookup i = Ok false
      /\ exists self1 sub_members k gen_members container container',
          subtype_reader raw gv subtype_definition offset self
          = Ok (entry_data_offset e, self1, sub_members)
          /\ getattr self1 attr = Ok (entry_subtype_name e)
          /\ value_key (entry_subtype_name e) = Ok k
          /\ dict_lookup class_lookup k = Some (entry_class e)
          /\ read (entry_class e) raw gv (entry_data_offset e) varargs
             = Ok (entry_end e, entry_object e, gen_members)
          /\ getattr self1 name = Ok container
          /\ bucket_append container (entry_subtype_name e)
                           (VObj (entry_object e)) = Ok container'
          /\ entries_decoded raw gv subtype_definition attr class_lookup
                             offset_to offset_lookup name varargs (S i)
                             (entry_end e) (<[name := container']> self1) rest
                             offset' self'
  end.


(** *** Bytes consumed

    The pieces of the buffer that a read goes over, as the sizes of the
    pieces in the order they are met: one piece for every member holding
    actual content that the loop meets before an abort, be it a member
    of the struct itself, of the class of a group member, of a class
    that read an entry of a list, or the subtype definition of such an
    entry.  The size of a piece is the element count of the member times
    the width of its element type.  Group and list members have no
    pieces of their own. *)

(** What a bound read goes over, given offset and object. *)
Definition consumer : Type := Z -> obj -> list Z.

Definition total (sizes : list Z) : Z := fold_right Z.add 0 sizes.

(** The one piece of a member holding actual content. *)
Definition data_member_consumed (storage_type : StorageType) (d : data_type)
           (st : loop_state) : list Z :=
  match resolve_layout (self st) storage_type d with
  | Ok lay =>
      match struct_type_lookup (struct_type lay) with
      | Some sym => [data_count lay * width sym]
      | None => []
      end
  | Err _ => []
  end.

(** The pieces of a group member are those of the read of its class,
    from the offset the loop has reached. *)
Definition group_consumed (cls_consumed : option consumer) (include : bool)
           (st : loop_state) : list Z :=
  match cls_consumed with
  | Some pieces => pieces (offset st) (if include then self st else ∅)
  | None => []
  end.

(** What [read] does for a list member before the loop over its
    entries: the passed arguments, the length, the object with the
    empty list or the empty buckets, and the offset guard. *)
Definition subdata_setup {A : Type} (subdata : bool) (rm : ReadMember)
           (passed_args : passed_args_t)
           (offset_to : option (string * (value -> bool)))
           (class_lookup : list (key * A)) (var_name : option string)
           (st : loop_state) : outcome (obj * Z * obj * value) :=
  let* varargs := collect_varargs (self st) (passed_names passed_args) ∅ in
  let* list_len := get_length rm (self st) in
  let* self0 :=
    setattr (self st) var_name
            (if subdata then VList []
             else VDict (map (fun kc => (fst kc, [])) class_lookup)) in
  let* offset_lookup :=
    match offset_to with
    | Some (name, _) => getattr self0 name
    | None => Ok VNone
    end in
  Ok (varargs, list_len, self0, offset_lookup).

(** The pieces of one entry of a list: none when the entry is left
    out; otherwise those of the subtype definition, read where the loop
    has got to, followed by those of the class the entry is read by,
    from behind the subtype definition. *)
Definition subdata_entry_consumed
           (subdata : bool) (offset_to : option (string * (value -> bool)))
           (subtype_read : option reader) (subtype_consumed : option consumer)
           (subtype_name_attr : option (option string))
           (class_lookup : list (key * option reader))
           (class_consumed : list (key * option consumer))
           (varargs : obj) (offset_lookup : value)
           (i : nat) (sd : subdata_state) : list Z :=
  match entry_skipped offset_to offset_lookup i with
  | Ok false =>
      match select_subtype subdata subtype_read subtype_name_attr
                           class_lookup sd with
      | Ok (offset1, _, _, subtype_name, _) =>
          (if subdata then []
           else match subtype_consumed with
                | Some pieces => pieces (sd_offset sd) (sd_self sd)
                | None => []
                end)
          ++ match (if subdata then Ok KNone else value_key subtype_name) with
             | Ok k =>
                 match dict_lookup class_consumed k with
                 | Some (Some pieces) => pieces offset1 varargs
                 | _ => []
                 end
             | Err _ => []
             end
      | Err _ => []
      end
  | _ => []
  end.

(** The pieces of the entries, each taken in the state that the loop
    over the indices meets it in. *)
Fixpoint subdata_entries_consumed
         (step : nat -> subdata_state -> outcome subdata_state)
         (pieces : nat -> subdata_state -> list Z)
         (indices : list nat) (sd : subdata_state) : list Z :=
  match indices with
  | [] => []
  | i :: rest =>
      pieces i sd
      ++ match step i sd with
         | Ok sd' => subdata_entries_consumed step pieces rest sd'
         | Err _ => []
         end
  end.

Definition multisubtype_consumed
           (subdata : bool) (rm : ReadMember) (passed_args : passed_args_t)
           (offset_to : option (string * (value -> bool)))
           (subtype_read : option reader) (subtype_consumed : option consumer)
           (subtype_name_attr : option (option string))
           (class_lookup : list (key * option reader))
           (class_consumed : list (key * option consumer))
           (export : MemberAccess) (var_name : option string)
           (storage_type : StorageType) (st : loop_state) : list Z :=
  match subdata_setup subdata rm passed_args offset_to class_lookup
                      var_name st with
  | Ok (varargs, list_len, self0, offset_lookup) =>
      subdata_entries_consumed
        (read_subdata_entry subdata offset_to subtype_read subtype_name_attr
                            class_lookup export var_name storage_type
                            varargs offset_lookup)
        (subdata_entry_consumed subdata offset_to subtype_read
                                subtype_consumed subtype_name_attr
                                class_lookup class_consumed
                                varargs offset_lookup)
        (seq 0 (Z.to_nat list_len))
        (SubdataState (offset st) self0 [])
  | Err _ => []
  end.

(** The pieces that the read of a class goes over, and those of one
    member met by the loop in state [st], following the schema as
    [read] and [read_member] do.  The state in which the loop meets the
    next member is the one [read_member] leaves. *)
Fixpoint consumed (cls : class_ref) (raw : list Byte.byte) (gv : game_version)
         (offset : Z) (self : obj) {struct cls} : list Z :=
  match cls with
  | OtherClass _ => []
  | GenieClass _ _ _ get_data_format_members =>
      (fix members_loop (ms : list member) (st : loop_state) : list Z :=
         match ms with
         | [] => []
         | (export, var_name, storage_type, var_type) as m :: ms' =>
             if member_returned (Some read_modes) m then
               member_consumed var_type raw gv export var_name storage_type st
               ++ match read_member var_type raw gv export var_name
                                    storage_type st with
                  | Ok st' => members_loop ms' st'
                  | Err _ => []
                  end
             else members_loop ms' st
         end) (get_data_format_members gv) (init_state offset self)
  end

with member_consumed (var_type : read_type) (raw : list Byte.byte)
       (gv : game_version) (export : MemberAccess) (var_name : option string)
       (storage_type : StorageType) (st : loop_state) {struct var_type}
  : list Z :=
  if stop_reading_members st then []
  else
    match var_type with
    | TData d => data_member_consumed storage_type d st
    | TGroupMember include _ cls =>
        group_consumed
          (match cls with
           | OtherClass _ => None
           | GenieClass _ _ _ _ => Some (consumed cls raw gv)
           end)
          include st
    | TMultisubtypeMember subdata rm passed_args offset_to
                          subtype_definition class_lookup =>
        multisubtype_consumed subdata rm passed_args offset_to
          (subtype_reader raw gv <$> subtype_definition)
          (match subtype_definition with
           | Some (sub_export, sub_name, sub_storage, sub_type) =>
               Some (fun offset self =>
                       member_consumed sub_type raw gv sub_export sub_name
                                       sub_storage (init_state offset self))
           | None => None
           end)
          (member_name <$> subtype_definition)
          (map (fun kc => (fst kc, class_reader raw gv (snd kc))) class_lookup)
          ((fix bound (lookup : list (key * class_ref))
              : list (key * option consumer) :=
              match lookup with
              | [] => []
              | (k, c) :: lookup' =>
                  (k, match c with
                      | OtherClass _ => None
                      | GenieClass _ _ _ _ => Some (consumed c raw gv)
                      end) :: bound lookup'
              end) class_lookup)
          export var_name storage_type st
    end.

(** The pieces of a run of the loop of [read] over a list of members as
    [get_data_format] yields them. *)
Fixpoint members_consumed (raw : list Byte.byte) (gv : game_version)
         (members : list (bool * member)) (st : loop_state) : list Z :=
  match members with
  | [] => []
  | (_, (export, var_name, storage_type, var_type)) :: rest =>
      member_consumed var_type raw gv export var_name storage_type st
      ++ match read_member var_type raw gv export var_name storage_type st with
         | Ok st' => members_consumed raw gv rest st'
         | Err _ => []
         end
  end.

(** The bound [consumed] of a class, if it is a [GenieStructure]. *)
Definition class_consumer (raw : list Byte.byte) (gv : game_version)
           (cls : class_ref) : option consumer :=
  match cls with
  | OtherClass _ => None
  | GenieClass _ _ _ _ => Some (consumed cls raw gv)
  end.

(** The pieces of the on-the-fly read of a subtype definition. *)
Definition subtype_consumer (raw : list Byte.byte) (gv : game_version)
           (subtype_definition : member) : consumer :=
  let '(export, var_name, storage_type, var_type) := subtype_definition in
  fun offset self =>
    member_consumed var_type raw gv export var_name storage_type
                    (init_state offset self).

(** A bound read whose returned offset is the offset it was given plus
    the sizes of the pieces. *)
Definition accounted (rd : reader) (pieces : consumer) : Prop :=
  forall offset self offset' self' gens,
    rd offset self = Ok (offset', self', gens) ->
    offset' = offset + total (pieces offset self).

Definition accounted_class (rd : option reader) (pieces : option consumer)
  : Prop :=
  match rd, pieces with
  | Some rd, Some pieces => accounted rd pieces
  | None, None => True
  | _, _ => False
  end.

(** A member that the branch taken after an abort can deal with: it
    has a name to store under, and an empty value to store. *)
Definition skippable (m : bool * member) : Prop :=
  exists name v,
    member_name (snd m) = Some name
    /\ replacement_value (member_type (snd m)) = Ok v.

(** *** Schemas as a read leaves them

    The one thing [read] changes outside the object it fills is the
    [passed_args] attribute of a list member.  Two schemas agree when
    they are the same up to such attributes naming the same members. *)
Inductive agrees_type : read_type -> read_type -> Prop :=
| agrees_data d : agrees_type (TData d) (TData d)
| agrees_group include rm cls cls' :
    agrees_class cls cls' ->
    agrees_type (TGroupMember include rm cls) (TGroupMember include rm cls')
| agrees_multi subdata rm passed_args passed_args' offset_to sd sd' cl cl' :
    passed_names passed_args = passed_names passed_args' ->
    option_Forall2
      (fun m m' : member => fst m = fst m' /\ agrees_type (snd m) (snd m'))
      sd sd' ->
    Forall2
      (fun kc kc' : key * class_ref =>
         fst kc = fst kc' /\ agrees_class (snd kc) (snd kc'))
      cl cl' ->
    agrees_type
      (TMultisubtypeMember subdata rm passed_args offset_to sd cl)
      (TMultisubtypeMember subdata rm passed_args' offset_to sd' cl')
with agrees_class : class_ref -> class_ref -> Prop :=
| agrees_genie n f d fmt fmt' :
    (forall gv,
        Forall2
          (fun m m' : member => fst m = fst m' /\ agrees_type (snd m) (snd m'))
          (fmt gv) (fmt' gv)) ->
    agrees_class (GenieClass n f d fmt) (GenieClass n f d fmt')
| agrees_other n : agrees_class (OtherClass n) (OtherClass n).

(** Two bound reads that give the same outcome everywhere. *)
Definition readers_agree (r r' : option reader) : Prop :=
  match r, r' with
  | Some rd, Some rd' => forall offset self, rd offset self = rd' offset self
  | None, None => True
  | _, _ => False
  end.

(** ** format_hash *)

(** The modes [format_hash] asks [get_data_format] for. *)
Definition hash_modes : list mode_item :=
  [MTrue; MMode SKIP; MMode READ_GEN; MMode NOREAD_EXPORT].

(** Truth value of a member name: [None] and the empty string are
    false. *)
Definition name_given (member_name : option string) : option string :=
  match member_name with
  | Some EmptyString | None => None
  | Some n => Some n
  end.

Fixpoint hash_members (members : list (bool * member)) (h : hasher)
  : outcome hasher :=
  match members with
  | [] => Ok h
  | (_, (export, member_name, _, member_type)) :: rest =>
      (* includemembers etc have no name. *)
      let h := match name_given member_name with
               | Some n => update h n
               | None => h
               end in
      let* h :=
        match is_ReadMember member_type with
        | Some rm => Ok (member_format_hash rm h)
        | None =>
            match member_type with
            | TData (TStr t) => Ok (update h (type_text t))
            | _ => Err UnsupportedHashMember
            end
        end in
      hash_members rest (update h (access_name export))
  end.

(** [format_hash] returns the hasher it has fed. *)
Definition format_hash (cls : class_ref) (gv : game_version)
           (hasher : option hasher) : outcome string :=
  match cls with
  | OtherClass _ => Err AttributeError
  | GenieClass name_struct name_struct_file struct_description _ =>
      let h := match hasher with Some h => h | None => EmptyString end in
      (* struct properties *)
      let h := update h name_struct in
      let h := update h name_struct_file in
      let h := update h struct_description in
      let* members := get_data_format cls gv (Some hash_modes) false false in
      hash_members members h
  end.

(** ** Induction over schemas

    Read types and classes are nested through the member lists, the
    optional subtype definition and the class lookup; the induction
    principle hands the property on through all three. *)
Section schema_induction.
Variable P : read_type -> Prop.
Variable Q : class_ref -> Prop.

Hypothesis P_data : forall d, P (TData d).
Hypothesis P_group : forall include rm cls, Q cls -> P (TGroupMember include rm cls).
Hypothesis P_multi :
  forall subdata rm passed_args offset_to subtype_definition class_lookup,
    from_option P True (snd <$> subtype_definition) ->
    Forall (fun kc => Q (snd kc)) class_lookup ->
    P (TMultisubtypeMember subdata rm passed_args offset_to
                           subtype_definition class_lookup).
Hypothesis Q_genie :
  forall n f d fmt,
    (forall gv, Forall (fun m : member => P (snd m)) (fmt gv)) ->
    Q (GenieClass n f d fmt).
Hypothesis Q_other : forall n, Q (OtherClass n).

Fixpoint read_type_schema_ind (t : read_type) {struct t} : P t :=
  match t with
  | TData d => P_data d
  | TGroupMember include rm cls =>
      P_group include rm cls (class_ref_schema_ind cls)
  | TMultisubtypeMember subdata rm passed_args offset_to sd class_lookup =>
      P_multi subdata rm passed_args offset_to sd class_lookup
        (match sd as o return from_option P True (snd <$> o) with
         | Some (_, t') => read_type_schema_ind t'
         | None => I
         end)
        ((fix lookup_ind (l : list (key * class_ref))
            : Forall (fun kc => Q (snd kc)) l :=
            match l with
            | [] => List.Forall_nil _
            | (k, c) :: l' =>
                List.Forall_cons (fun kc => Q (snd kc)) (k, c) l'
                            (class_ref_schema_ind c) (lookup_ind l')
            end) class_lookup)
  end
with class_ref_schema_ind (c : class_ref) {struct c} : Q c :=
  match c with
  | GenieClass n f d fmt =>
      Q_genie n f d fmt
        (fun gv =>
           (fix members_ind (l : list member)
              : Forall (fun m : member => P (snd m)) l :=
              match l with
              | [] => List.Forall_nil _
              | (p, t') :: l' =>
                  List.Forall_cons (fun m : member => P (snd m)) (p, t') l'
                              (read_type_schema_ind t') (members_ind l')
              end) (fmt gv))
  | OtherClass n => Q_other n
  end.
End schema_induction.

(** ** Further notions for the properties of the resolver and the
    fingerprint *)

Definition is_IncludeMembers (var_type : read_type) : bool :=
  match var_type with
  | TGroupMember true _ _ => true
  | _ => false
  end.

(** The members that [format_hash] looks at: the abort markers, and the
    members whose export mode is one of [hash_modes]. *)
Definition hashed_member (m : member) : bool :=
  is_ContinueReadMember (member_type m)
  || match member_export m with
     | SKIP | READ_GEN | NOREAD_EXPORT => true
     | READ | READ_UNKNOWN => false
     end.

(** A member that [format_hash] cannot deal with: its read type is
    neither a [ReadMember] nor a string. *)
Definition unhashable_member (m : member) : bool :=
  hashed_member m
  && match member_type m with
     | TData TOther => true
     | _ => false
     end.

(** A [ReadMember] whose [format_hash] only feeds the hasher it is
    given, as [hasher.update] does. *)
Definition feeds_hasher (rm : ReadMember) : Prop :=
  forall h, member_format_hash rm h
            = String.append h (member_format_hash rm EmptyString).

(** ** Further notions for the properties of [read] *)

(** The members that the loop of [read] runs over: the abort markers,
    and the members whose export mode is one of [read_modes]. *)
Definition decoded_member (m : member) : bool :=
  is_ContinueReadMember (member_type m)
  || match member_export m with
     | NOREAD_EXPORT => false
     | READ | READ_GEN | READ_UNKNOWN | SKIP => true
     end.

(** The name a member holding actual content is stored under: for
    READ_UNKNOWN the name made from the offset, else its own. *)
Definition stored_name (export : MemberAccess) (var_name : option string)
           (offset : Z) : option string :=
  if decide (export = READ_UNKNOWN)
  then Some (String.append "unknown-0x" (hex08 offset))
  else var_name.

(** A bound read that never hands back an offset before the one it was
    given. *)
Definition reader_advances (rd : reader) : Prop :=
  forall offset self offset' self' gens,
    rd offset self = Ok (offset', self', gens) -> offset <= offset'.

(** ** structs *)

(** Modelled from the spec: [StructDefinition] of
    [convert/deprecated/struct_definition.py], which is not part of the
    sources at hand; the declaration exported for a struct (spec,
    section 6), kept as the class it is made from. *)
Inductive StructDefinition : Type :=
| StructDefinitionOf (cls : class_ref).

(** The game version [structs] asks [get_data_format] with: the dummy
    edition that represents AoC, without expansions. *)
Definition dummy_version : game_version := ("AoC", []).

(** [a < b] on the items of a [class_lookup], which are compared by
    their keys: numbers by value, strings letter by letter.  Keys of
    different types are not ordered, and neither are two items with the
    same key, whose classes would have to be compared. *)
Definition key_lt (a b : key) : outcome bool :=
  match a, b with
  | KInt x, KInt y => if x =? y then Err TypeError else Ok (x <? y)
  | KStr x, KStr y => if String.eqb x y then Err TypeError
                      else Ok (String.ltb x y)
  | _, _ => Err TypeError
  end.

Fixpoint insert_item {A : Type} (x : key * A) (l : list (key * A))
  : outcome (list (key * A)) :=
  match l with
  | [] => Ok [x]
  | y :: l' =>
      let* lt := key_lt (fst x) (fst y) in
      if (lt : bool) then Ok (x :: y :: l')
      else let* r := insert_item x l' in Ok (y :: r)
  end.

(** [sorted(d.items())]: the items in ascending order of their keys, or
    the exception of a comparison that cannot be made. *)
Fixpoint sorted_items {A : Type} (l : list (key * A))
  : outcome (list (key * A)) :=
  match l with
  | [] => Ok []
  | x :: l' => let* s := sorted_items l' in insert_item x s
  end.

(** [ret += subtype_class.structs()] for the classes of a sorted
    [class_lookup], each given with the outcome of its [structs], or
    with the exception raised for a class that is no [GenieStructure]. *)
Fixpoint concat_structs
         (items : list (key * outcome (list StructDefinition)))
  : outcome (list StructDefinition) :=
  match items with
  | [] => Ok []
  | (_, r) :: rest =>
      let* defs := r in
      let* more := concat_structs rest in
      Ok (defs ++ more)
  end.

(** [structs]: the struct definitions of the classes that the members
    looked at refer to, member by member, followed by the definition of
    the class itself. *)
Fixpoint structs (cls : class_ref) {struct cls}
  : outcome (list StructDefinition) :=
  match cls with
  | OtherClass _ => Err AttributeError
  | GenieClass _ _ _ get_data_format_members =>
      let* ret :=
        (fix members_loop (ms : list member)
           : outcome (list StructDefinition) :=
           match ms with
           | [] => Ok []
           | (_, _, _, member_type) as m :: ms' =>
               if member_returned (Some hash_modes) m then
                 let* found :=
                   match member_type with
                   | TMultisubtypeMember _ _ _ _ _ class_lookup =>
                       let* items :=
                         sorted_items
                           ((fix each (l : list (key * class_ref))
                               : list (key * outcome (list StructDefinition)) :=
                               match l with
                               | [] => []
                               | (k, c) :: l' =>
                                   (k, match c with
                                       | OtherClass _ =>
                                           Err NonExportableReference
                                       | GenieClass _ _ _ _ => structs c
                                       end) :: each l'
                               end) class_lookup) in
                       concat_structs items
                   | TGroupMember _ _ c =>
                       match c with
                       | OtherClass _ => Err NonExportableReference
                       | GenieClass _ _ _ _ => structs c
                       end
                   | TData _ => Ok []
                   end in
                 let* rest := members_loop ms' in
                 Ok (found ++ rest)
               else members_loop ms'
           end) (get_data_format_members dummy_version) in
      Ok (ret ++ [StructDefinitionOf cls])
  end.

(** The classes a read type refers to. *)
Definition type_refers (t : read_type) (c : class_ref) : Prop :=
  match t with
  | TGroupMember _ _ c0 => c = c0
  | TMultisubtypeMember _ _ _ _ _ class_lookup =>
      exists k, In (k, c) class_lookup
  | TData _ => False
  end.

(** The classes that [structs] goes into from a class: those that one
    of the members it looks at refers to. *)
Definition struct_refers (cls c : class_ref) : Prop :=
  exists m,
    In m (declared_members cls dummy_version)
    /\ hashed_member m = true
    /\ type_refers (member_type m) c.

(** Every definition has the definitions of the classes it refers to
    somewhere before it. *)
Definition dependencies_first (defs : list StructDefinition) : Prop :=
  forall i c c',
    defs !! i = Some (StructDefinitionOf c) ->
    struct_refers c c' ->
    exists j, (j < i)%nat /\ defs !! j = Some (StructDefinitionOf c').

(** ** Sample members and schemas

    Small instances of the schema model, on which the properties below
    are exercised. *)
Module Samples.

Definition aoc : game_version := ("AoC", []).

(** Modelled from the spec: [ContinueReadMember] of
    [value_object/read/read_members.py], which is not part of the
    sources at hand; the custom decoder whose hook signals Abort
    (spec, section 3, [CustomDecoder]).  A single number is read; the
    hook turns 0 into ABORT and 1 into CONTINUE and refuses anything
    else. *)
Definition continue_read (raw_type : string) : ReadMember := {|
  raw_type := raw_type;
  get_length := fun _ => Ok 1;
  verify_read_data := fun _ _ => true;
  entry_hook := fun data =>
    match data with
    | VInt 0 => Ok (VResult ABORT)
    | VInt 1 => Ok (VResult CONTINUE)
    | _ => Err HookError
    end;
  get_empty_value := Ok (VInt 0);
  member_format_hash := fun h => update h raw_type;
|}.

(** A [ReadMember] of the base class behaviour: the hook hands the
    data on, every read is valid, the length is fixed. *)
Definition number_member (raw_type : string) (length : Z) : ReadMember := {|
  raw_type := raw_type;
  get_length := fun _ => Ok length;
  verify_read_data := fun _ _ => true;
  entry_hook := fun data => Ok data;
  get_empty_value := Ok (VInt 0);
  member_format_hash := fun h => update h raw_type;
|}.

(** A group or list member as a [ReadMember]: nothing is read raw. *)
Definition ref_member (type_name : string) (length : Z) (empty : value)
  : ReadMember := {|
  raw_type := EmptyString;
  get_length := fun _ => Ok length;
  verify_read_data := fun _ _ => true;
  entry_hook := fun data => Ok data;
  get_empty_value := Ok empty;
  member_format_hash := fun h => update h type_name;
|}.

(** A struct with one exported integer. *)
Definition one_int (storage_type : StorageType) : class_ref :=
  GenieClass "one_int" "one_int.h" "a single number"
    (fun _ => [(READ_GEN, Some "value", storage_type, TData (TStr (Plain "int32_t")))]).

(** A struct with a member that is only read. *)
Definition read_only : class_ref :=
  GenieClass "read_only" "read_only.h" "a number that is not exported"
    (fun _ => [(READ, Some "value", INT_MEMBER, TData (TStr (Plain "int8_t")))]).

(** A struct whose abort marker is declared with a mode that [read]
    does not ask for. *)
Definition marked : class_ref :=
  GenieClass "marked" "marked.h" "numbers behind an abort marker"
    (fun _ =>
       [(READ, Some "first", INT_MEMBER, TData (TStr (Plain "uint8_t")));
        (NOREAD_EXPORT, Some "more", BOOLEAN_MEMBER,
         TData (TReadMember ContinueReadMember (continue_read "int8_t")));
        (NOREAD_EXPORT, Some "hidden", INT_MEMBER,
         TData (TStr (Plain "uint8_t")));
        (READ_GEN, Some "second", INT_MEMBER,
         TData (TStr (Plain "uint8_t")))]).

(** A length member followed by the array it sizes, the array being
    declared with a storage type that no array can be stored as. *)
Definition miscounted : class_ref :=
  GenieClass "miscounted" "miscounted.h" "an array with a read length"
    (fun _ =>
       [(READ, Some "n", INT_MEMBER, TData (TStr (Plain "int8_t")));
        (READ, Some "xs", INT_MEMBER,
         TData (TStr (VarArray "int8_t" (FieldRef "n"))))]).

(** The same with the array stored as an array. *)
Definition counted : class_ref :=
  GenieClass "counted" "counted.h" "an array with a read length"
    (fun _ =>
       [(READ, Some "n", INT_MEMBER, TData (TStr (Plain "int8_t")));
        (READ, Some "xs", ARRAY_INT,
         TData (TStr (VarArray "int8_t" (FieldRef "n"))))]).

(** Two floats read as an array. *)
Definition float_pair : class_ref :=
  GenieClass "float_pair" "float_pair.h" "two floats"
    (fun _ =>
       [(READ, Some "values", ARRAY_FLOAT,
         TData (TStr (VarArray "float" (Literal 2))))]).

(** A double read on its own. *)
Definition one_double : class_ref :=
  GenieClass "one_double" "one_double.h" "a double"
    (fun _ => [(READ, Some "value", FLOAT_MEMBER, TData (TStr (Plain "double")))]).

(** The bytes of the binary32 and binary64 patterns of +infinity. *)
Definition inf32 : list Byte.byte := [Byte.x00; Byte.x00; Byte.x80; Byte.x7f].
Definition inf64 : list Byte.byte :=
  [Byte.x00; Byte.x00; Byte.x00; Byte.x00;
   Byte.x00; Byte.x00; Byte.xf0; Byte.x7f].
(** The bytes of the binary32 pattern of 1.0. *)
Definition one32 : list Byte.byte := [Byte.x00; Byte.x00; Byte.x80; Byte.x3f].

(** A record that may end after its marker: a string follows only when
    the marker says CONTINUE. *)
Definition named : class_ref :=
  GenieClass "named" "named.h" "a marker and a name"
    (fun _ =>
       [(READ, Some "more", BOOLEAN_MEMBER,
         TData (TReadMember ContinueReadMember (continue_read "int8_t")));
        (READ, Some "name", STRING_MEMBER,
         TData (TStr (VarArray "char" (Literal 4))))]).

(** Five members, the third of which is the marker. *)
Definition five : class_ref :=
  GenieClass "five" "five.h" "two numbers, a marker, a number and a name"
    (fun _ =>
       [(READ, Some "a", INT_MEMBER, TData (TStr (Plain "uint8_t")));
        (READ, Some "b", INT_MEMBER, TData (TStr (Plain "uint16_t")));
        (READ, Some "more", BOOLEAN_MEMBER,
         TData (TReadMember ContinueReadMember (continue_read "int8_t")));
        (READ, Some "c", INT_MEMBER, TData (TStr (Plain "uint32_t")));
        (READ, Some "d", BOOLEAN_MEMBER,
         TData (TReadMember PlainReadMember (number_member "int8_t" 1)))]).

(** Two grouped records of [named] side by side, and a number of the
    enclosing struct behind them. *)
Definition family : class_ref :=
  GenieClass "family" "family.h" "two names and a number"
    (fun _ =>
       [(READ, Some "first", CONTAINER_MEMBER,
         TGroupMember false (ref_member "named" 1 VNone) named);
        (READ, Some "second", CONTAINER_MEMBER,
         TGroupMember false (ref_member "named" 1 VNone) named);
        (READ, Some "tail", INT_MEMBER, TData (TStr (Plain "uint8_t")))]).

(** A [ReadMember] in the manner of [EnumLookupMember]: a number is
    read and the hook looks its name up. *)
Definition enum_lookup (raw_type : string) (lookup_dict : list (Z * string))
  : ReadMember := {|
  raw_type := raw_type;
  get_length := fun _ => Ok 1;
  verify_read_data := fun _ _ => true;
  entry_hook := fun data =>
    match data with
    | VInt z =>
        match List.find (fun e => Z.eqb (fst e) z) lookup_dict with
        | Some (_, name) => Ok (VStr name)
        | None => Err HookError
        end
    | _ => Err HookError
    end;
  get_empty_value := Ok (VInt 0);
  member_format_hash := fun h => update h raw_type;
|}.

(** Two layouts of different size. *)
Definition shape_a : class_ref :=
  GenieClass "shape_a" "shape.h" "one byte"
    (fun _ => [(READ, Some "x", INT_MEMBER, TData (TStr (Plain "uint8_t")))]).

Definition shape_b : class_ref :=
  GenieClass "shape_b" "shape.h" "a word and a byte"
    (fun _ =>
       [(READ, Some "y", INT_MEMBER, TData (TStr (Plain "uint16_t")));
        (READ, Some "z", INT_MEMBER, TData (TStr (Plain "uint8_t")))]).

(** The subtype definition of the list below: a byte, looked up as the
    name of the shape. *)
Definition shape_kind : member :=
  (READ, Some "kind", STRING_MEMBER,
   TData (TReadMember EnumLookupMember
                      (enum_lookup "int8_t" [(1, "A"); (2, "B")]))).

(** A list of two shapes, each announced by its kind. *)
Definition shapes_type : read_type :=
  TMultisubtypeMember false (ref_member "shape" 2 (VList [])) PNone None
                      (Some shape_kind)
                      [(KStr "A", shape_a); (KStr "B", shape_b)].

Definition drawing : class_ref :=
  GenieClass "drawing" "drawing.h" "two shapes"
    (fun _ => [(READ, Some "shapes", ARRAY_CONTAINER, shapes_type)]).

(** A shape of kind B (0x0102, 3) followed by one of kind A (9). *)
Definition drawing_bytes : list Byte.byte :=
  [Byte.x02; Byte.x02; Byte.x01; Byte.x03; Byte.x01; Byte.x09].

(** A list of sub-objects that are handed two members of the parent,
    named by a string as the source allows, and the same list after a
    read has replaced the string by the set of its characters. *)
Definition point : class_ref :=
  GenieClass "point" "point.h" "one coordinate"
    (fun _ => [(READ_GEN, Some "x", INT_MEMBER, TData (TStr (Plain "int16_t")))]).

Definition path_of (passed_args : passed_args_t) : class_ref :=
  GenieClass "path" "path.h" "counted points"
    (fun _ =>
       [(READ, Some "a", INT_MEMBER, TData (TStr (Plain "uint8_t")));
        (READ, Some "b", INT_MEMBER, TData (TStr (Plain "uint8_t")));
        (READ_GEN, Some "points", ARRAY_CONTAINER,
         TMultisubtypeMember true (ref_member "point" 2 (VList []))
                             passed_args None None [(KNone, point)])]).

(** A struct that includes the members of another, and that other. *)
Definition base_members (gv : game_version) : list member :=
  [(READ_GEN, Some "id", ID_MEMBER, TData (TStr (Plain "int16_t")));
   (READ, Some "pad", INT_MEMBER, TData (TStr (Plain "int8_t")))].

Definition base : class_ref :=
  GenieClass "base" "base.h" "what every unit has" base_members.

Definition derived_members (gv : game_version) : list member :=
  [(READ_GEN, None, CONTAINER_MEMBER,
    TGroupMember true (ref_member "base" 1 VNone) base);
   (READ_GEN, Some "hp", INT_MEMBER, TData (TStr (Plain "int16_t")))].

Definition derived : class_ref :=
  GenieClass "derived" "derived.h" "a unit with hit points" derived_members.

(** A struct with a member whose read type is neither a [ReadMember]
    nor a string. *)
Definition broken_members (gv : game_version) : list member :=
  [(READ_GEN, Some "what", INT_MEMBER, TData TOther)].

Definition broken : class_ref :=
  GenieClass "broken" "broken.h" "a member of no known kind" broken_members.

(** A name looked up from a number, exported, and a number read by a
    plain [ReadMember], exported as well. *)
Definition labelled_members (gv : game_version) : list member :=
  [(READ_GEN, Some "label", STRING_MEMBER,
    TData (TReadMember EnumLookupMember
                       (enum_lookup "int8_t" [(1, "A"); (2, "B")])));
   (READ_GEN, Some "amount", INT_MEMBER,
    TData (TReadMember PlainReadMember (number_member "int8_t" 1)))].

Definition labelled : class_ref :=
  GenieClass "labelled" "labelled.h" "a label and a number" labelled_members.

(** A struct whose exported list has two classes, the lookup being
    written down in the reverse order of its keys. *)
Definition gallery_members (gv : game_version) : list member :=
  [(READ_GEN, Some "frame", CONTAINER_MEMBER,
    TGroupMember false (ref_member "point" 1 VNone) point);
   (READ_GEN, Some "shapes", ARRAY_CONTAINER,
    TMultisubtypeMember false (ref_member "shape" 2 (VList [])) PNone
                        None (Some shape_kind)
                        [(KStr "B", shape_b); (KStr "A", shape_a)])].

Definition gallery : class_ref :=
  GenieClass "gallery" "gallery.h" "exported shapes" gallery_members.

End Samples.
(** * Properties *)

(** ** The resolver without flattening *)

(** Without flattening, [get_data_format] never fails on a
    [GenieStructure]: it is a filter over the declared members. *)
Lemma get_data_format_no_flatten n f d fmt gv allowed_modes is_parent :
  get_data_format (GenieClass n f d fmt) gv allowed_modes false is_parent
  = Ok (map (pair is_parent)
            (List.filter (member_returned allowed_modes) (fmt gv))).
Proof.
  cbn [get_data_format]. generalize (fmt gv) as ms.
  induction ms as [|[[[export var_name] storage_type] read_type] ms IH].
  - reflexivity.
  - assert (Hstep :
      forall rest,
        (if member_returned allowed_modes (export, var_name, storage_type, read_type)
         then (is_parent, (export, var_name, storage_type, read_type)) :: rest
         else rest)
        = map (pair is_parent)
              (List.filter (member_returned allowed_modes)
                 [(export, var_name, storage_type, read_type)]) ++ rest).
    { intros rest. cbn [List.filter].
      destruct (member_returned _ _); reflexivity. }
    change (List.filter (member_returned allowed_modes)
              ((export, var_name, storage_type, read_type) :: ms))
      with (List.filter (member_returned allowed_modes)
              ([(export, var_name, storage_type, read_type)] ++ ms)).
    rewrite List.filter_app, map_app.
    destruct read_type as [dt|[] rm c|sub rm pa ot sd cl];
      rewrite IH; cbn [bind]; rewrite Hstep; reflexivity.
Qed.

(** [read] is the loop [read_members] over the members that
    [get_data_format] yields for [read_modes]. *)
Lemma read_eq n f d fmt raw gv offset self :
  read (GenieClass n f d fmt) raw gv offset self
  = let* members :=
      get_data_format (GenieClass n f d fmt) gv (Some read_modes) false false in
    let* st := read_members raw gv members (init_state offset self) in
    Ok (finish st).
Proof.
  rewrite get_data_format_no_flatten. cbn [bind read].
  generalize (init_state offset self) as st. generalize (fmt gv) as ms.
  induction ms as [|[[[export var_name] storage_type] var_type] ms IH];
    intros st.
  - reflexivity.
  - cbn [List.filter].
    destruct (member_returned (Some read_modes)
                (export, var_name, storage_type, var_type)) eqn:Hret.
    + cbn [map read_members].
      destruct (read_member var_type raw gv export var_name storage_type st)
        as [st'|e]; cbn [bind]; [apply IH | reflexivity].
    + apply IH.
Qed.


(** ** The export-mode filter of get_data_format *)

(** Every entry that [get_data_format] yields has passed the filter,
    whether it was declared by the class or by an included one. *)
Lemma get_data_format_entries_returned cls :
  forall gv allowed_modes flatten_includes is_parent out,
    get_data_format cls gv allowed_modes flatten_includes is_parent = Ok out ->
    Forall (fun e => member_returned allowed_modes (snd e) = true) out.
Proof.
  pattern cls.
  apply class_ref_schema_ind with
    (P := fun t =>
            match t with
            | TGroupMember _ _ c =>
                forall gv allowed_modes flatten_includes is_parent out,
                  get_data_format c gv allowed_modes flatten_includes is_parent
                  = Ok out ->
                  Forall (fun e => member_returned allowed_modes (snd e) = true) out
            | _ => True
            end); clear cls.
  - trivial.
  - intros _ _ c Hc. exact Hc.
  - trivial.
  - intros n f d fmt IHfmt gv allowed_modes flatten_includes is_parent.
    cbn [get_data_format]. specialize (IHfmt gv). revert IHfmt.
    generalize (fmt gv) as ms.
    induction ms as [|[[[export var_name] storage_type] read_type] ms IH];
      intros Hms out Hout.
    + injection Hout as <-. constructor.
    + apply Forall_cons in Hms as [Hm Hms]. specialize (IH Hms).
      cbn [snd] in Hm.
      assert (Hplain :
        forall rest,
          Forall (fun e => member_returned allowed_modes (snd e) = true) rest ->
          Forall (fun e => member_returned allowed_modes (snd e) = true)
            (if member_returned allowed_modes
                  (export, var_name, storage_type, read_type)
             then (is_parent, (export, var_name, storage_type, read_type)) :: rest
             else rest)).
      { intros rest Hrest.
        destruct (member_returned _ _) eqn:Hret; [constructor|]; assumption. }
      destruct read_type as [dt|[] rm c|sub rm pa ot sd cl];
        try (destruct flatten_includes);
        repeat match type of Hout with
          | context [bind ?r _] =>
              let E := fresh "E" in destruct r eqn:E; cbn [bind] in Hout;
              [|discriminate]
          end;
        injection Hout as <-;
        try (apply Hplain, IH; reflexivity).
      apply Forall_app; split; [eapply Hm; eassumption | apply IH; reflexivity].
  - intros n gv allowed_modes flatten_includes is_parent out Hout.
    discriminate.
Qed.

(** A member that is a [ContinueReadMember] is yielded whenever the
    generator runs to its end. *)
Lemma get_data_format_continue_yielded n f d fmt gv allowed_modes
      flatten_includes is_parent out (m : member) :
  get_data_format (GenieClass n f d fmt) gv allowed_modes
                  flatten_includes is_parent = Ok out ->
  In m (fmt gv) ->
  is_ContinueReadMember (snd m) = true ->
  In (is_parent, m) out.
Proof.
  cbn [get_data_format]. revert out. generalize (fmt gv) as ms.
  induction ms as [|[[[export var_name] storage_type] read_type] ms IH];
    intros out Hout Hin Hcont.
  - destruct Hin.
  - assert (Hret : forall m' : member,
              is_ContinueReadMember (snd m') = true ->
              member_returned allowed_modes m' = true).
    { intros [[[e' n'] s'] t'] Ht'. cbn [snd] in Ht'. unfold member_returned.
      rewrite Ht'. destruct (modes_given allowed_modes); [|reflexivity].
      destruct (mode_in e' (default [] allowed_modes)); reflexivity. }
    destruct read_type as [dt|[] rm c|sub rm pa ot sd cl];
      try (destruct flatten_includes);
      repeat match type of Hout with
        | context [bind ?r _] =>
            let E := fresh "E" in destruct r eqn:E; cbn [bind] in Hout;
            [|discriminate]
        end;
      injection Hout as <-;
      (destruct Hin as [<-|Hin];
       [ try discriminate Hcont; rewrite (Hret _ Hcont); left; reflexivity
       | specialize (IH _ eq_refl Hin Hcont);
         first [ apply in_or_app; right; exact IH
               | destruct (member_returned allowed_modes _);
                 [right|]; exact IH ] ]).
Qed.

Lemma member_returned_given modes (m : member) :
  modes <> [] ->
  member_returned (Some modes) m
  = is_ContinueReadMember (member_type m) || mode_in (member_export m) modes.
Proof.
  intros Hne. destruct m as [[[export var_name] storage_type] read_type].
  unfold member_returned, member_type, member_export; cbn [fst snd].
  destruct modes as [|i l]; [congruence|]. cbn [modes_given default from_option id].
  destruct (mode_in export (i :: l)), (is_ContinueReadMember read_type);
    reflexivity.
Qed.

(** C6, as the code has it: with a filter that holds at least one
    entry, [get_data_format] yields every member whose read type is a
    [ContinueReadMember], also when its export mode is not in the
    filter, and omits every other member whose export mode is not in the
    filter.  Without flattening the members yielded are exactly the
    declared ones that are abort markers or have a listed mode, in the
    order of the declaration. *)
Theorem get_data_format_filters n f d fmt gv modes flatten_includes is_parent :
  modes <> [] ->
  get_data_format (GenieClass n f d fmt) gv (Some modes) false is_parent
  = Ok (map (pair is_parent)
          (List.filter
             (fun m => is_ContinueReadMember (member_type m)
                       || mode_in (member_export m) modes)
             (fmt gv)))
  /\ forall out,
      get_data_format (GenieClass n f d fmt) gv (Some modes)
                      flatten_includes is_parent = Ok out ->
      (forall m, In m (fmt gv) ->
                 is_ContinueReadMember (member_type m) = true ->
                 In (is_parent, m) out)
      /\ (forall m, In m (fmt gv) ->
                    is_ContinueReadMember (member_type m) = false ->
                    mode_in (member_export m) modes = false ->
                    ~ In (is_parent, m) out).
Proof.
  intros Hne. split.
  - rewrite get_data_format_no_flatten. do 2 f_equal.
    apply List.filter_ext. intros m. apply member_returned_given, Hne.
  - intros out Hout. split.
    + intros m Hin Hcont.
      eapply get_data_format_continue_yielded; eassumption.
    + intros m Hin Hcont Hmode Hyield.
      apply get_data_format_entries_returned in Hout.
      rewrite List.Forall_forall in Hout. specialize (Hout _ Hyield).
      cbn [snd] in Hout. rewrite member_returned_given in Hout by exact Hne.
      rewrite Hcont, Hmode in Hout. discriminate.
Qed.

(** The modes of [read] applied to a struct whose abort marker and one
    further member are declared NOREAD_EXPORT: the marker stays, the
    other member goes. *)
Lemma get_data_format_filters_witness :
  get_data_format Samples.marked Samples.aoc (Some read_modes) false false
  = Ok (map (pair false)
          (List.filter
             (fun m => is_ContinueReadMember (member_type m)
                       || mode_in (member_export m) read_modes)
             [(READ, Some "first", INT_MEMBER, TData (TStr (Plain "uint8_t")));
              (NOREAD_EXPORT, Some "more", BOOLEAN_MEMBER,
               TData (TReadMember ContinueReadMember
                                  (Samples.continue_read "int8_t")));
              (NOREAD_EXPORT, Some "hidden", INT_MEMBER,
               TData (TStr (Plain "uint8_t")));
              (READ_GEN, Some "second", INT_MEMBER,
               TData (TStr (Plain "uint8_t")))])).
Proof.
  refine (proj1 (get_data_format_filters _ _ _ _ Samples.aoc read_modes
                                         false false _)).
  discriminate.
Defined.

(** C6 as stated fails for the empty filter: an empty [allowed_modes]
    is false, so nothing is filtered, and the member of
    [Samples.read_only], which is no abort marker and whose mode READ
    the filter does not list, is yielded. *)
Lemma get_data_format_empty_filter_yields_all :
  ~ (forall cls gv modes flatten_includes is_parent out m,
        get_data_format cls gv (Some modes) flatten_includes is_parent = Ok out ->
        In m (declared_members cls gv) ->
        is_ContinueReadMember (member_type m) = false ->
        mode_in (member_export m) modes = false ->
        ~ In (is_parent, m) out).
Proof.
  intros H.
  apply (H Samples.read_only Samples.aoc [] false false
           [(false, (READ, Some "value", INT_MEMBER,
                     TData (TStr (Plain "int8_t"))))]
           (READ, Some "value", INT_MEMBER, TData (TStr (Plain "int8_t"))));
    try reflexivity; left; reflexivity.
Qed.

(** ** The fingerprint *)

Lemma member_returned_same_but_storage allowed_modes m m' :
  same_but_storage m m' ->
  member_returned allowed_modes m = member_returned allowed_modes m'.
Proof.
  destruct m as [[[e n] s] t], m' as [[[e' n'] s'] t'].
  unfold same_but_storage, member_export, member_name, member_type;
    cbn [fst snd]. intros (-> & _ & ->). reflexivity.
Qed.

Lemma filter_same_but_storage allowed_modes ms ms' :
  Forall2 same_but_storage ms ms' ->
  Forall2 same_but_storage
          (List.filter (member_returned allowed_modes) ms)
          (List.filter (member_returned allowed_modes) ms').
Proof.
  induction 1 as [|m m' ms ms' Hm _ IH]; cbn [List.filter].
  - constructor.
  - rewrite (member_returned_same_but_storage _ _ _ Hm).
    destruct (member_returned allowed_modes m'); [constructor|]; assumption.
Qed.

Lemma hash_members_same_but_storage is_parent ms ms' :
  Forall2 same_but_storage ms ms' ->
  forall h,
    hash_members (map (pair is_parent) ms) h
    = hash_members (map (pair is_parent) ms') h.
Proof.
  induction 1 as [|m m' ms ms' Hm _ IH]; intros h.
  - reflexivity.
  - destruct m as [[[e n] s] t], m' as [[[e' n'] s'] t'].
    unfold same_but_storage, member_export, member_name, member_type in Hm;
      cbn [fst snd] in Hm. destruct Hm as (-> & -> & ->).
    cbn [map hash_members].
    destruct (match is_ReadMember t' with
              | Some rm => Ok (member_format_hash rm _)
              | None => _
              end) as [h'|err]; cbn [bind]; [apply IH | reflexivity].
Qed.

(** C1, as the code has it: the storage type of a member is not among
    the data fed to the hasher.  Two structs whose members agree in
    export mode, name and read type, whatever their storage types, leave
    the hasher in the same state, and so produce the same digest. *)
Theorem format_hash_ignores_storage_type n f d fmt fmt' gv hasher :
  (forall gv, Forall2 same_but_storage (fmt gv) (fmt' gv)) ->
  format_hash (GenieClass n f d fmt) gv hasher
  = format_hash (GenieClass n f d fmt') gv hasher.
Proof.
  intros Hsame. unfold format_hash.
  rewrite !get_data_format_no_flatten. cbn [bind].
  apply hash_members_same_but_storage, filter_same_but_storage, Hsame.
Qed.

(** An exported integer stored as INT_MEMBER or as ID_MEMBER. *)
Lemma format_hash_ignores_storage_type_witness :
  format_hash (Samples.one_int INT_MEMBER) Samples.aoc None
  = format_hash (Samples.one_int ID_MEMBER) Samples.aoc None.
Proof.
  apply format_hash_ignores_storage_type.
  intros gv. constructor; [|constructor].
  repeat split.
Defined.

(** C1 as stated fails: changing the storage type of the one member of
    [Samples.one_int] from INT_MEMBER to ID_MEMBER leaves the hasher
    that [format_hash] returns as it was. *)
Lemma format_hash_storage_type_unchanged :
  ~ (forall n f d pre post export var_name s s' read_type gv hasher,
        s <> s' ->
        format_hash
          (GenieClass n f d
             (fun _ => pre ++ (export, var_name, s, read_type) :: post))
          gv hasher
        <> format_hash
             (GenieClass n f d
                (fun _ => pre ++ (export, var_name, s', read_type) :: post))
             gv hasher).
Proof.
  intros H.
  apply (H "one_int" "one_int.h" "a single number" [] [] READ_GEN
           (Some "value") INT_MEMBER ID_MEMBER
           (TData (TStr (Plain "int32_t"))) Samples.aoc None).
  - discriminate.
  - reflexivity.
Qed.

(** ** Members holding actual content *)

Lemma read_member_data d raw gv export var_name storage_type st :
  stop_reading_members st = false ->
  read_member (TData d) raw gv export var_name storage_type st
  = read_data_member raw export var_name storage_type d st.
Proof. intros Hstop. cbn [read_member]. rewrite Hstop. reflexivity. Qed.

Lemma read_member_stopped var_type raw gv export var_name storage_type st :
  stop_reading_members st = true ->
  read_member var_type raw gv export var_name storage_type st
  = skip_member var_name var_type st.
Proof. intros Hstop. destruct var_type; cbn [read_member]; rewrite Hstop; reflexivity. Qed.

Lemma read_members_app raw gv pre post st :
  read_members raw gv (pre ++ post) st
  = let* st' := read_members raw gv pre st in read_members raw gv post st'.
Proof.
  revert st.
  induction pre as [|[p [[[export var_name] storage_type] var_type]] pre IH];
    intros st; [reflexivity|].
  cbn [app read_members].
  destruct (read_member var_type raw gv export var_name storage_type st);
    cbn [bind]; [apply IH | reflexivity].
Qed.

(** The buffer-reading part of the branch leaves the offset alone. *)
Lemma unpack_member_offset raw export var_name storage_type lay sym st st' :
  unpack_member raw export var_name storage_type lay sym st = Ok st' ->
  offset st' = offset st.
Proof.
  unfold unpack_member. intros H.
  repeat match type of H with
    | bind ?r _ = Ok _ =>
        let E := fresh "E" in
        destruct r as [?|?] eqn:E; cbn [bind] in H; [|discriminate]
    | (let '(_, _) := ?p in _) = Ok _ => destruct p
    end.
  injection H as <-. reflexivity.
Qed.

(** What [read_data_member] does with a member whose layout resolves. *)
Lemma read_data_member_offset raw export var_name storage_type d st st' :
  read_data_member raw export var_name storage_type d st = Ok st' ->
  exists lay sym,
    resolve_layout (self st) storage_type d = Ok lay
    /\ 0 <= data_count lay
    /\ struct_type_lookup (struct_type lay) = Some sym
    /\ offset st' = offset st + data_count lay * width sym.
Proof.
  unfold read_data_member. intros H.
  destruct (resolve_layout (self st) storage_type d) as [lay|] eqn:Hlay;
    cbn [bind] in H; [|discriminate].
  destruct (data_count lay <? 0) eqn:Hneg; [discriminate|].
  destruct (struct_type_lookup (struct_type lay)) as [sym|] eqn:Hsym;
    [|discriminate].
  exists lay, sym.
  split; [first [assumption | reflexivity]|]. split; [lia|].
  split; [assumption|].
  destruct (decide (export = SKIP)); cbn [bind] in H.
  - injection H as <-. reflexivity.
  - destruct (unpack_member _ _ _ _ _ _ _) as [st1|] eqn:Hun;
      cbn [bind] in H; [|discriminate].
    injection H as <-. cbn [offset].
    apply unpack_member_offset in Hun. rewrite Hun. reflexivity.
Qed.

(** C10: a member holding actual content whose export mode is SKIP,
    met while reading has not been aborted, moves the offset on by the
    element count times the element width and does nothing else: the
    object, the generated members, the abort flag and [gen_member] are
    as before.  The outcome is the same for every buffer, so nothing is
    unpacked; it is the same whatever the validation predicate and the
    entry hook of the member are, so neither is run; and the offset is
    the one the member gets when it is read with another export mode. *)
Theorem skip_only_advances_offset raw gv var_name storage_type d st :
  stop_reading_members st = false ->
  read_member (TData d) raw gv SKIP var_name storage_type st
  = (let* lay := resolve_layout (self st) storage_type d in
     if data_count lay <? 0 then Err InvalidLength
     else match struct_type_lookup (struct_type lay) with
          | None => Err UnknownElementType
          | Some sym =>
              Ok (LoopState (offset st + data_count lay * width sym)
                            (self st) (generated_value_members st)
                            (stop_reading_members st) (gen_member st))
          end)
  /\ (forall raw',
         read_member (TData d) raw' gv SKIP var_name storage_type st
         = read_member (TData d) raw gv SKIP var_name storage_type st)
  /\ (forall k rm verify hook,
         d = TReadMember k rm ->
         read_member
           (TData (TReadMember k
                     {| raw_type := raw_type rm;
                        get_length := get_length rm;
                        verify_read_data := verify;
                        entry_hook := hook;
                        get_empty_value := get_empty_value rm;
                        member_format_hash := member_format_hash rm |}))
           raw gv SKIP var_name storage_type st
         = read_member (TData d) raw gv SKIP var_name storage_type st)
  /\ (forall export st',
         read_member (TData d) raw gv export var_name storage_type st = Ok st' ->
         exists st_skip,
           read_member (TData d) raw gv SKIP var_name storage_type st
           = Ok st_skip
           /\ offset st_skip = offset st').
Proof.
  intros Hstop.
  assert (Heq : forall raw0 d0,
    read_member (TData d0) raw0 gv SKIP var_name storage_type st
    = (let* lay := resolve_layout (self st) storage_type d0 in
       if data_count lay <? 0 then Err InvalidLength
       else match struct_type_lookup (struct_type lay) with
            | None => Err UnknownElementType
            | Some sym =>
                Ok (LoopState (offset st + data_count lay * width sym)
                              (self st) (generated_value_members st)
                              (stop_reading_members st) (gen_member st))
            end)).
  { intros raw0 d0. rewrite read_member_data by exact Hstop.
    unfold read_data_member.
    destruct (resolve_layout (self st) storage_type d0) as [lay|];
      cbn [bind]; [|reflexivity].
    destruct (data_count lay <? 0); [reflexivity|].
    destruct (struct_type_lookup (struct_type lay)); reflexivity. }
  split; [|split; [|split]].
  - apply Heq.
  - intros raw'. rewrite !Heq. reflexivity.
  - intros k rm verify hook ->. rewrite !Heq.
    unfold resolve_layout, resolve_count; cbn [raw_type get_length bind].
    destruct (get_length rm (self st)) as [c|]; cbn [bind]; reflexivity.
  - intros export st' Hread. rewrite Heq.
    rewrite read_member_data in Hread by exact Hstop.
    apply read_data_member_offset in Hread
      as (lay & sym & Hlay & Hcount & Hsym & Hoff).
    rewrite Hlay. cbn [bind]. rewrite Hsym.
    destruct (data_count lay <? 0) eqn:Hneg; [lia|].
    eexists. split; [reflexivity|]. cbn [offset]. symmetry. exact Hoff.
Qed.

(** Three skipped 16-bit numbers, with nothing at all in the buffer. *)
Lemma skip_only_advances_offset_witness :
  read_member (TData (TStr (VarArray "int16_t" (Literal 3)))) []
              Samples.aoc SKIP (Some "padding") ARRAY_INT (init_state 0 ∅)
  = Ok (LoopState 6 ∅ [] false None).
Proof.
  exact (proj1 (skip_only_advances_offset
                  [] Samples.aoc (Some "padding") ARRAY_INT
                  (TStr (VarArray "int16_t" (Literal 3)))
                  (init_state 0 ∅) eq_refl)).
Defined.

Lemma resolve_layout_count self storage_type d c :
  resolve_count self d = Ok c ->
  storage_admits storage_type d = true ->
  exists lay, resolve_layout self storage_type d = Ok lay /\ data_count lay = c.
Proof.
  unfold resolve_layout, resolve_count, storage_admits. intros Hc Hadm.
  destruct d as [[ty|ty cnt]|k rm|]; try discriminate Hc.
  - injection Hc as <-. eexists; split; reflexivity.
  - destruct (count_value self cnt) as [v|]; cbn [bind] in Hc |- *;
      [|discriminate].
    rewrite Hadm. cbn [guard bind]. rewrite Hc. cbn [bind].
    eexists; split; reflexivity.
  - rewrite Hc. cbn [bind]. eexists; split; reflexivity.
Qed.

(** C9, as the code has it: a member holding actual content whose
    element count resolves to a negative number, met while reading has
    not been aborted, makes [read] fail with the invalid-length
    exception, provided that an array read type is declared with a
    storage type that arrays can be stored as (that check comes first).
    The exception is raised before anything is unpacked and before the
    offset is moved: no state is returned, for any buffer.  The failure
    of the member is the failure of the whole loop. *)
Theorem negative_count_invalid_length raw gv export var_name storage_type d
        st c :
  stop_reading_members st = false ->
  resolve_count (self st) d = Ok c ->
  c < 0 ->
  storage_admits storage_type d = true ->
  read_member (TData d) raw gv export var_name storage_type st
  = Err InvalidLength
  /\ forall pre is_parent post st0,
      read_members raw gv pre st0 = Ok st ->
      read_members raw gv
        (pre ++ (is_parent, (export, var_name, storage_type, TData d)) :: post)
        st0
      = Err InvalidLength.
Proof.
  intros Hstop Hcount Hneg Hadm.
  assert (Hm : read_member (TData d) raw gv export var_name storage_type st
               = Err InvalidLength).
  { rewrite read_member_data by exact Hstop. unfold read_data_member.
    destruct (resolve_layout_count _ _ _ _ Hcount Hadm) as (lay & -> & Hc).
    cbn [bind]. rewrite Hc.
    destruct (c <? 0) eqn:E; [reflexivity | lia]. }
  split; [exact Hm|].
  intros pre is_parent post st0 Hpre.
  rewrite read_members_app, Hpre. cbn [bind read_members].
  rewrite Hm. reflexivity.
Qed.

(** A length byte of -1 in front of the array it sizes. *)
Lemma negative_count_invalid_length_witness :
  read_member (TData (TStr (VarArray "int8_t" (FieldRef "n")))) [Byte.xff]
              Samples.aoc READ (Some "xs") ARRAY_INT
              (LoopState 1 (<["n" := VInt (-1)]> ∅) [] false None)
  = Err InvalidLength.
Proof.
  refine (proj1 (negative_count_invalid_length
                   [Byte.xff] Samples.aoc READ (Some "xs") ARRAY_INT
                   (TStr (VarArray "int8_t" (FieldRef "n")))
                   (LoopState 1 (<["n" := VInt (-1)]> ∅) [] false None)
                   (-1) eq_refl eq_refl _ eq_refl)).
  lia.
Defined.

(** C9 as stated fails when the array is declared with a storage type
    that no array can be stored as: in [Samples.miscounted] the length
    is read as -1, and the read of the array fails on its storage type,
    before the count is compared with zero. *)
Lemma negative_count_storage_checked_first :
  ~ (forall raw gv pre is_parent export var_name storage_type d post st0 st c,
        read_members raw gv pre st0 = Ok st ->
        stop_reading_members st = false ->
        resolve_count (self st) d = Ok c ->
        c < 0 ->
        read_members raw gv
          (pre ++ (is_parent, (export, var_name, storage_type, TData d)) :: post)
          st0
        = Err InvalidLength).
Proof.
  intros H.
  specialize (H [Byte.xff] Samples.aoc
                [(false, (READ, Some "n", INT_MEMBER,
                          TData (TStr (Plain "int8_t"))))]
                false READ (Some "xs") INT_MEMBER
                (TStr (VarArray "int8_t" (FieldRef "n"))) []
                (init_state 0 ∅)
                (LoopState 1 (<["n" := VInt (-1)]> ∅) [] false None) (-1)
                eq_refl eq_refl eq_refl).
  assert (Hneg : -1 < 0) by lia. specialize (H Hneg).
  vm_compute in H. discriminate H.
Qed.

(** The same on the whole struct: the read of [Samples.miscounted]
    ends with the storage exception, that of [Samples.counted] with the
    invalid-length one. *)
Example miscounted_read :
  read Samples.miscounted [Byte.xff] Samples.aoc 0 ∅ = Err StorageMismatch
  /\ read Samples.counted [Byte.xff] Samples.aoc 0 ∅ = Err InvalidLength.
Proof. split; reflexivity. Qed.

(** A length that is read from a member need not be an integer.  A
    float is taken by its integral part: 2.5 skips two elements, and
    -0.5 is a negative length.  A string cannot be compared with zero,
    which shows only once the storage type has been accepted.  An
    infinite length fails when the format is built, after the type name
    has been looked up. *)
Example dynamic_count_read :
  let member storage_type type_name n :=
    read_member (TData (TStr (VarArray type_name (FieldRef "n")))) []
                Samples.aoc SKIP (Some "xs") storage_type
                (LoopState 0 (<["n" := n]> ∅) [] false None) in
  member ARRAY_INT "int16_t" (VFloat (S754_finite false 5 (-1)))
  = Ok (LoopState 4 (<["n" := VFloat (S754_finite false 5 (-1))]> ∅)
                  [] false None)
  /\ member ARRAY_INT "int16_t" (VFloat (S754_finite true 1 (-1)))
     = Err InvalidLength
  /\ member INT_MEMBER "int16_t" (VStr "two") = Err StorageMismatch
  /\ member ARRAY_INT "int16_t" (VStr "two") = Err TypeError
  /\ member ARRAY_INT "int16_t" (VFloat (S754_infinity false))
     = Err OverflowError
  /\ member ARRAY_INT "no_such_t" (VFloat (S754_infinity false))
     = Err UnknownElementType.
Proof. repeat split. Qed.

(** C2, as the code has it: a single element of the C type float
    (struct symbol f) that is read, not skipped, outside an array read
    type and while reading has not been aborted, makes [read] fail with
    the invalid-float exception when the decoded value is not finite
    (for a [ReadMember], once its validation predicate has accepted the
    raw data). *)
Theorem nonfinite_float_rejected raw gv export var_name storage_type d st
        lay f :
  stop_reading_members st = false ->
  export <> SKIP ->
  resolve_layout (self st) storage_type d = Ok lay ->
  is_array lay = false ->
  data_count lay = 1 ->
  struct_type_lookup (struct_type lay) = Some Sym_f ->
  unpack_from 1 Sym_f raw (offset st) = Ok [VFloat f] ->
  isfinite f = false ->
  (forall k rm, is_custom_member lay = Some (k, rm) ->
                verify_read_data rm (self st) [VFloat f] = true) ->
  read_member (TData d) raw gv export var_name storage_type st
  = Err InvalidFloat.
Proof.
  intros Hstop Hexp Hlay Harr Hcount Hsym Hunpack Hinf Hverify.
  rewrite read_member_data by exact Hstop.
  unfold read_data_member. rewrite Hlay. cbn [bind].
  rewrite Hcount, Hsym. cbn [Z.ltb Z.compare].
  destruct (decide (export = SKIP)) as [|_]; [contradiction|].
  unfold unpack_member. rewrite Hcount, Hunpack. cbn [bind].
  assert (Hv : match is_custom_member lay with
               | Some (_, rm) =>
                   guard (verify_read_data rm (self st) [VFloat f]) InvalidData
               | None => Ok tt
               end = Ok tt).
  { destruct (is_custom_member lay) as [[k rm]|] eqn:Hc; [|reflexivity].
    rewrite (Hverify _ _ eq_refl). reflexivity. }
  rewrite Hv. cbn [bind].
  destruct (decide (Sym_f = Sym_s)) as [|_]; [discriminate|].
  rewrite Harr. cbn [Z.eqb Pos.eqb bind].
  destruct (decide (Sym_f = Sym_f)) as [_|]; [|contradiction].
  rewrite Hinf. reflexivity.
Qed.

(** A float whose four bytes are the pattern of +infinity. *)
Lemma nonfinite_float_rejected_witness :
  read_member (TData (TStr (Plain "float"))) Samples.inf32 Samples.aoc
              READ (Some "value") FLOAT_MEMBER (init_state 0 ∅)
  = Err InvalidFloat.
Proof.
  refine (nonfinite_float_rejected
            Samples.inf32 Samples.aoc READ (Some "value") FLOAT_MEMBER
            (TStr (Plain "float")) (init_state 0 ∅)
            (DataLayout "float" 1 false None) (S754_infinity false)
            eq_refl _ eq_refl eq_refl eq_refl eq_refl eq_refl eq_refl _).
  - discriminate.
  - intros k rm H. discriminate H.
Defined.

(** C2 as stated fails for the elements of an array and for doubles:
    the two floats of [Samples.float_pair] are read although the first
    is +infinity, and so is the double of [Samples.one_double]. *)
Lemma nonfinite_array_element_accepted :
  isfinite (S754_infinity false) = false
  /\ read Samples.float_pair (Samples.inf32 ++ Samples.one32) Samples.aoc 0 ∅
     = Ok (8,
           <["values" := VTuple [VFloat (S754_infinity false);
                                 VFloat (S754_finite false 8388608 (-23))]]> ∅,
           [])
  /\ read Samples.one_double Samples.inf64 Samples.aoc 0 ∅
     = Ok (8, <["value" := VFloat (S754_infinity false)]> ∅, []).
Proof. repeat split. Qed.

(** ** Offsets *)

Lemma skip_member_state var_name var_type st st' :
  skip_member var_name var_type st = Ok st' ->
  offset st' = offset st
  /\ generated_value_members st' = generated_value_members st
  /\ stop_reading_members st' = stop_reading_members st
  /\ gen_member st' = gen_member st.
Proof.
  unfold skip_member. intros H.
  destruct (replacement_value var_type); cbn [bind] in H; [|discriminate].
  destruct (setattr (self st) var_name a); cbn [bind] in H; [|discriminate].
  injection H as <-. repeat split.
Qed.

Lemma unpack_from_shape data_count sym raw offset result :
  unpack_from data_count sym raw offset = Ok result ->
  (sym = Sym_s -> exists b, result = [VBytes b])
  /\ (sym <> Sym_s -> data_count = 1 -> exists r, result = [r]).
Proof.
  unfold unpack_from. intros H.
  destruct (if offset <? 0 then _ else _) as [start|]; cbn [bind] in H;
    [|discriminate].
  destruct (_ <? _); [discriminate|].
  split.
  - intros ->. injection H as <-. eauto.
  - intros Hs ->. destruct sym; try contradiction; injection H as <-;
      cbn [Z.to_nat Pos.to_nat Pos.iter_op Init.Nat.add decode_elems]; eauto.
Qed.

Lemma resolve_layout_str self storage_type t lay :
  resolve_layout self storage_type (TStr t) = Ok lay ->
  is_custom_member lay = None.
Proof.
  unfold resolve_layout. intros H.
  destruct t as [ty|ty cnt].
  - injection H as <-. reflexivity.
  - destruct (count_value self cnt); cbn [bind] in H; [|discriminate].
    destruct (guard _ _); cbn [bind] in H; [|discriminate].
    destruct (dynamic_count _ _); cbn [bind] in H; [|discriminate].
    injection H as <-. reflexivity.
Qed.

(** A member given by a type string that is only read, not exported,
    is decoded whenever its layout resolves and the buffer holds its
    bytes; a float needs to be finite and is left aside here. *)
Lemma read_str_member_succeeds raw gv name storage_type t st lay sym result :
  stop_reading_members st = false ->
  resolve_layout (self st) storage_type (TStr t) = Ok lay ->
  0 <= data_count lay ->
  struct_type_lookup (struct_type lay) = Some sym ->
  sym <> Sym_f ->
  unpack_from (data_count lay) sym raw (offset st) = Ok result ->
  exists v,
    read_member (TData (TStr t)) raw gv READ (Some name) storage_type st
    = Ok (LoopState (offset st + data_count lay * width sym)
                    (<[name := v]> (self st)) (generated_value_members st)
                    false (gen_member st)).
Proof.
  intros Hstop Hlay Hcount Hsym Hf Hunpack.
  rewrite read_member_data by exact Hstop. unfold read_data_member.
  rewrite Hlay. cbn [bind].
  destruct (data_count lay <? 0) eqn:Hneg; [lia|]. rewrite Hsym.
  destruct (decide (READ = READ_UNKNOWN)) as [|_]; [discriminate|].
  destruct (decide (READ = SKIP)) as [|_]; [discriminate|].
  unfold unpack_member. rewrite Hunpack. cbn [bind].
  rewrite (resolve_layout_str _ _ _ _ Hlay). cbn [bind].
  destruct (decide (READ = READ_GEN)) as [|_]; [discriminate|].
  apply unpack_from_shape in Hunpack as [Hs Hone].
  destruct (decide (sym = Sym_s)) as [->|Hns].
  - destruct (Hs eq_refl) as [b ->]. cbn [bind setattr offset self
      generated_value_members stop_reading_members gen_member].
    rewrite Hstop. unfold calcsize. eauto.
  - destruct (is_array lay).
    + cbn [bind setattr offset self generated_value_members
           stop_reading_members gen_member].
      rewrite Hstop. unfold calcsize. eauto.
    + destruct (data_count lay =? 1) eqn:H1.
      * apply Z.eqb_eq in H1. destruct (Hone Hns H1) as [r ->].
        cbn [bind]. destruct (decide (sym = Sym_f)) as [|_]; [contradiction|].
        cbn [bind setattr offset self generated_value_members
             stop_reading_members gen_member].
        rewrite Hstop. unfold calcsize. eauto.
      * cbn [bind setattr offset self generated_value_members
             stop_reading_members gen_member].
        rewrite Hstop. unfold calcsize. eauto.
Qed.


(** ** The abort state *)

(** Once reading has been aborted, the loop runs through the remaining
    members without touching offset, generated members, flag or
    [gen_member], and stores the replacement value of each. *)
Lemma read_members_stopped raw gv post :
  forall st,
    stop_reading_members st = true ->
    Forall skippable post ->
    exists st',
      read_members raw gv post st = Ok st'
      /\ offset st' = offset st
      /\ generated_value_members st' = generated_value_members st
      /\ stop_reading_members st' = true
      /\ gen_member st' = gen_member st
      /\ (forall i p e name s t v,
             post !! i = Some (p, (e, Some name, s, t)) ->
             (forall j m', (i < j)%nat -> post !! j = Some m' ->
                           member_name (snd m') <> Some name) ->
             replacement_value t = Ok v ->
             self st' !! name = Some v)
      /\ (forall name,
             (forall m', In m' post -> member_name (snd m') <> Some name) ->
             self st' !! name = self st !! name).
Proof.
  induction post as [|[p [[[e n] s] t]] rest IH]; intros st Hstop Hskip.
  - exists st. repeat split; try assumption. intros i ? ? ? ? ? ? Hi.
    rewrite lookup_nil in Hi. discriminate.
  - apply Forall_cons in Hskip as [(name & v & Hn & Hv) Hrest].
    unfold member_name, member_type in Hn, Hv; cbn [fst snd] in Hn, Hv.
    subst n. cbn [read_members].
    rewrite read_member_stopped by exact Hstop.
    unfold skip_member. rewrite Hv. cbn [bind setattr].
    set (st1 := LoopState (offset st) (<[name := v]> (self st))
                          (generated_value_members st)
                          (stop_reading_members st) (gen_member st)).
    destruct (IH st1 Hstop Hrest)
      as (st' & Hrun & Hoff & Hgen & Hst & Hgm & Hattr & Hother).
    exists st'. split; [exact Hrun|]. repeat split; try assumption.
    + intros [|i] p0 e0 name0 s0 t0 v0 Hi Hlast Hv0.
      * cbn in Hi. injection Hi as -> -> -> -> ->.
        rewrite Hother.
        -- subst st1. cbn [self]. rewrite lookup_insert_eq. congruence.
        -- intros m' Hin. apply list_elem_of_In, list_elem_of_lookup in Hin
             as [j Hj].
           apply (Hlast (S j) m'); [lia | exact Hj].
      * cbn in Hi. apply (Hattr i p0 e0 name0 s0 t0 v0 Hi); [|exact Hv0].
        intros j m' Hlt Hj. apply (Hlast (S j) m'); [lia | exact Hj].
    + intros name0 Hfresh. rewrite Hother.
      * subst st1. cbn [self]. apply lookup_insert_ne.
        intros <-. apply (Hfresh (p, (e, Some name, s, t))); [left|]; reflexivity.
      * intros m' Hin. apply Hfresh. right. exact Hin.
Qed.

(** C3, as the code has it: when the entry hook of member [mk] flips
    [stop_reading_members], no member after it takes a byte from the
    buffer or adds a value member, and [read] returns the offset and
    the generated members as they are after [mk].  Each later member is
    set to the replacement value of its read type: what
    [get_empty_value] of a [ReadMember] gives, and the integer 0 for
    every other read type, whatever the storage type says. *)
Theorem abort_skips_remaining_members n f d fmt raw gv start self0
        pre mk post st1 st2 :
  get_data_format (GenieClass n f d fmt) gv (Some read_modes) false false
  = Ok (pre ++ mk :: post) ->
  read_members raw gv pre (init_state start self0) = Ok st1 ->
  read_members raw gv [mk] st1 = Ok st2 ->
  stop_reading_members st1 = false ->
  stop_reading_members st2 = true ->
  Forall skippable post ->
  exists self',
    read (GenieClass n f d fmt) raw gv start self0
    = Ok (offset st2, self', generated_value_members st2)
    /\ (forall i p e name s t,
           post !! i = Some (p, (e, Some name, s, t)) ->
           (forall j m', (i < j)%nat -> post !! j = Some m' ->
                         member_name (snd m') <> Some name) ->
           self' !! name
           = Some (match is_ReadMember t, replacement_value t with
                   | Some _, Ok empty_value => empty_value
                   | _, _ => VInt 0
                   end))
    /\ (forall name,
           (forall m', In m' post -> member_name (snd m') <> Some name) ->
           self' !! name = self st2 !! name).
Proof.
  intros Hfmt Hpre Hk _ Hstop Hskip.
  destruct (read_members_stopped raw gv post st2 Hstop Hskip)
    as (st3 & Hrun & Hoff & Hgen & _ & _ & Hattr & Hother).
  exists (self st3). split; [|split].
  - rewrite read_eq, Hfmt. cbn [bind].
    rewrite read_members_app, Hpre. cbn [bind].
    change (mk :: post) with ([mk] ++ post).
    rewrite read_members_app, Hk. cbn [bind]. rewrite Hrun. cbn [bind].
    unfold finish. rewrite Hoff, Hgen. reflexivity.
  - intros i p e name s t Hi Hlast.
    assert (Hsk : skippable (p, (e, Some name, s, t))).
    { rewrite List.Forall_forall in Hskip. apply Hskip.
      apply list_elem_of_In, list_elem_of_lookup. eauto. }
    destruct Hsk as (name' & v & _ & Hv).
    unfold member_type in Hv; cbn [snd] in Hv.
    rewrite (Hattr i p e name s t v Hi Hlast Hv). rewrite Hv.
    unfold replacement_value in Hv.
    destruct (is_ReadMember t) as [rm|]; congruence.
  - exact Hother.
Qed.

(** The marker of [Samples.five] read as 0 after three bytes: the read
    ends at offset 4, and what follows in the buffer stays unread. *)
Lemma abort_skips_remaining_members_witness :
  exists self',
    read Samples.five
         [Byte.x01; Byte.x02; Byte.x00; Byte.x00; Byte.xff; Byte.xff]
         Samples.aoc 0 ∅
    = Ok (4, self', [])
    /\ self' !! "c" = Some (VInt 0)
    /\ self' !! "d" = Some (VInt 0)
    /\ self' !! "b" = Some (VInt 2).
Proof.
  destruct (abort_skips_remaining_members
              "five" "five.h" "two numbers, a marker, a number and a name"
              (fun _ =>
                 [(READ, Some "a", INT_MEMBER, TData (TStr (Plain "uint8_t")));
                  (READ, Some "b", INT_MEMBER, TData (TStr (Plain "uint16_t")));
                  (READ, Some "more", BOOLEAN_MEMBER,
                   TData (TReadMember ContinueReadMember
                                      (Samples.continue_read "int8_t")));
                  (READ, Some "c", INT_MEMBER, TData (TStr (Plain "uint32_t")));
                  (READ, Some "d", BOOLEAN_MEMBER,
                   TData (TReadMember PlainReadMember
                                      (Samples.number_member "int8_t" 1)))])
              [Byte.x01; Byte.x02; Byte.x00; Byte.x00; Byte.xff; Byte.xff]
              Samples.aoc 0 ∅
              [(false, (READ, Some "a", INT_MEMBER,
                        TData (TStr (Plain "uint8_t"))));
               (false, (READ, Some "b", INT_MEMBER,
                        TData (TStr (Plain "uint16_t"))))]
              (false, (READ, Some "more", BOOLEAN_MEMBER,
                       TData (TReadMember ContinueReadMember
                                          (Samples.continue_read "int8_t"))))
              [(false, (READ, Some "c", INT_MEMBER,
                        TData (TStr (Plain "uint32_t"))));
               (false, (READ, Some "d", BOOLEAN_MEMBER,
                        TData (TReadMember PlainReadMember
                                           (Samples.number_member "int8_t" 1))))]
              (LoopState 3 (<["b" := VInt 2]> (<["a" := VInt 1]> ∅))
                         [] false None)
              (LoopState 4 (<["more" := VResult ABORT]>
                              (<["b" := VInt 2]> (<["a" := VInt 1]> ∅)))
                         [] true None)
              eq_refl eq_refl eq_refl eq_refl eq_refl)
    as (self' & Hread & Hattr & Hother).
  - repeat constructor; eexists _, _; split; reflexivity.
  - exists self'. split; [exact Hread|]. split; [|split].
    + apply (Hattr 0%nat false READ "c" INT_MEMBER
                   (TData (TStr (Plain "uint32_t"))) eq_refl).
      intros [|[|j]] m' Hlt Hj; [lia| |discriminate Hj].
      injection Hj as <-. discriminate.
    + apply (Hattr 1%nat false READ "d" BOOLEAN_MEMBER
                   (TData (TReadMember PlainReadMember
                                       (Samples.number_member "int8_t" 1)))
                   eq_refl).
      intros [|[|j]] m' Hlt Hj; [lia|lia|discriminate Hj].
    + rewrite Hother; [reflexivity|].
      intros m' [<-|[<-|[]]]; discriminate.
Defined.

(** C3 as stated fails for a member whose read type is a string: after
    the marker of [Samples.named] has been read as 0, the member "name",
    read as char[4] and stored as STRING_MEMBER, is set to the integer
    0, not to the empty string. *)
Lemma aborted_string_member_set_to_zero :
  read Samples.named [Byte.x00; Byte.x61; Byte.x62; Byte.x63; Byte.x64]
       Samples.aoc 0 ∅
  = Ok (1, <["name" := VInt 0]> (<["more" := VResult ABORT]> ∅), [])
  /\ VInt 0 <> VStr EmptyString.
Proof. split; [reflexivity | discriminate]. Qed.

Lemma resolve_layout_custom self storage_type d lay k rm :
  resolve_layout self storage_type d = Ok lay ->
  is_custom_member lay = Some (k, rm) ->
  d = TReadMember k rm.
Proof.
  unfold resolve_layout. intros H Hc.
  destruct d as [[ty|ty cnt]|k' rm'|]; try discriminate H.
  - injection H as <-. discriminate Hc.
  - destruct (count_value self cnt); cbn [bind] in H; [|discriminate].
    destruct (guard _ _); cbn [bind] in H; [|discriminate].
    destruct (dynamic_count _ _); cbn [bind] in H; [|discriminate].
    injection H as <-. discriminate Hc.
  - destruct (get_length rm' self); cbn [bind] in H; [|discriminate].
    injection H as <-. cbn [is_custom_member] in Hc. congruence.
Qed.

(** The flag is only ever set on the way through the entry hook. *)
Lemma unpack_member_stop raw export var_name storage_type lay sym st st' :
  unpack_member raw export var_name storage_type lay sym st = Ok st' ->
  stop_reading_members st' = stop_reading_members st
  \/ exists k rm v,
      is_custom_member lay = Some (k, rm)
      /\ entry_hook rm v = Ok (VResult ABORT).
Proof.
  unfold unpack_member. intros H.
  destruct (unpack_from _ _ _ _) as [result|]; cbn [bind] in H; [|discriminate].
  destruct (match is_custom_member lay with
            | Some (_, rm) => guard _ _
            | None => Ok tt
            end); cbn [bind] in H; [|discriminate].
  match type of H with
  | bind ?r _ = Ok _ =>
      destruct r as [[[res gens] gm]|]; cbn [bind] in H; [|discriminate]
  end.
  destruct (is_custom_member lay) as [[k rm]|].
  - destruct (entry_hook rm res) as [res'|] eqn:Hhook; cbn [bind] in H;
      [|discriminate].
    destruct (setattr _ _ _); cbn [bind] in H; [|discriminate].
    injection H as <-. cbn [stop_reading_members].
    destruct (is_abort res') eqn:Hab; [right | left; reflexivity].
    exists k, rm, res. split; [reflexivity|].
    destruct res' as [| | | | | |[]| | |]; try discriminate Hab. exact Hhook.
  - cbn [bind] in H. destruct (setattr _ _ _); cbn [bind] in H; [|discriminate].
    injection H as <-. left. reflexivity.
Qed.

Lemma read_group_stop rd include export var_name storage_type st st' :
  read_group rd include export var_name storage_type st = Ok st' ->
  stop_reading_members st' = stop_reading_members st.
Proof.
  unfold read_group. intros H. destruct rd as [cls_read|]; [|discriminate].
  destruct include.
  - destruct (cls_read _ _) as [[[o s] g]|]; cbn [bind] in H; [|discriminate].
    injection H as <-. reflexivity.
  - destruct (cls_read _ _) as [[[o s] g]|]; cbn [bind] in H; [|discriminate].
    destruct (setattr _ _ _); cbn [bind] in H; [|discriminate].
    destruct (if decide (export = READ_GEN) then _ else _);
      cbn [bind] in H; [|discriminate].
    injection H as <-. reflexivity.
Qed.

Lemma read_multisubtype_stop subdata rm passed_args offset_to subtype_read
      subtype_name_attr class_lookup export var_name storage_type st st' :
  read_multisubtype subdata rm passed_args offset_to subtype_read
                    subtype_name_attr class_lookup export var_name
                    storage_type st = Ok st' ->
  stop_reading_members st' = stop_reading_members st.
Proof.
  unfold read_multisubtype. intros H.
  repeat match type of H with
    | bind ?r _ = Ok _ =>
        destruct r; cbn [bind] in H; [|discriminate]
    end.
  injection H as <-. reflexivity.
Qed.

Lemma read_member_sets_stop raw gv var_type export var_name storage_type st st' :
  stop_reading_members st = false ->
  read_member var_type raw gv export var_name storage_type st = Ok st' ->
  stop_reading_members st' = true ->
  exists k rm v,
    var_type = TData (TReadMember k rm)
    /\ export <> SKIP
    /\ entry_hook rm v = Ok (VResult ABORT).
Proof.
  intros Hstop H Hset. destruct var_type as [d|include rm cls|].
  - rewrite read_member_data in H by exact Hstop.
    unfold read_data_member in H.
    destruct (resolve_layout (self st) storage_type d) as [lay|] eqn:Hlay;
      cbn [bind] in H; [|discriminate].
    destruct (data_count lay <? 0); [discriminate|].
    destruct (struct_type_lookup (struct_type lay)) as [sym|]; [|discriminate].
    destruct (decide (export = SKIP)) as [|Hexp]; cbn [bind] in H.
    + injection H as <-. cbn [stop_reading_members] in Hset. congruence.
    + destruct (unpack_member _ _ _ _ _ _ _) as [st1|] eqn:Hun;
        cbn [bind] in H; [|discriminate].
      injection H as <-. cbn [stop_reading_members] in Hset.
      apply unpack_member_stop in Hun as [Hsame|(k & rm & v & Hc & Hhook)];
        [congruence|].
      exists k, rm, v. split; [|split; assumption].
      f_equal. eapply resolve_layout_custom; eassumption.
  - cbn [read_member] in H. rewrite Hstop in H.
    apply read_group_stop in H. congruence.
  - cbn [read_member] in H. rewrite Hstop in H.
    apply read_multisubtype_stop in H. congruence.
Qed.

Lemma read_members_stop_monotone raw gv members :
  forall st st',
    stop_reading_members st = true ->
    read_members raw gv members st = Ok st' ->
    stop_reading_members st' = true.
Proof.
  induction members as [|[p [[[e n] s] t]] rest IH]; intros st st' Hstop H.
  - injection H as <-. exact Hstop.
  - cbn [read_members] in H.
    destruct (read_member t raw gv e n s st) as [st1|] eqn:Hm;
      cbn [bind] in H; [|discriminate].
    rewrite read_member_stopped in Hm by exact Hstop.
    apply skip_member_state in Hm as (_ & _ & Hs & _).
    apply (IH st1 st'); congruence.
Qed.

(** C8: the abort state belongs to one run of the loop over the members
    of one struct.  Every call of [read] begins its loop with the flag
    down, whatever the state of the loop that called it, and hands back
    offset, object and value members only; a member that refers to
    other classes (a group, an inclusion, a list of sub-objects, with
    the on-the-fly read of a subtype definition) leaves the flag of the
    loop that meets it down, even when a read inside it was aborted; the
    flag goes up only through the entry hook of a member of the loop
    itself; and once up it stays up for the rest of that loop. *)
Theorem abort_state_is_local raw gv :
  (forall n f d fmt start self0,
      read (GenieClass n f d fmt) raw gv start self0
      = (let* members := get_data_format (GenieClass n f d fmt) gv
                                          (Some read_modes) false false in
         let* st := read_members raw gv members (init_state start self0) in
         Ok (finish st))
      /\ stop_reading_members (init_state start self0) = false)
  /\ (forall var_type export var_name storage_type st st',
         stop_reading_members st = false ->
         (forall d, var_type <> TData d) ->
         read_member var_type raw gv export var_name storage_type st = Ok st' ->
         stop_reading_members st' = false)
  /\ (forall var_type export var_name storage_type st st',
         stop_reading_members st = false ->
         read_member var_type raw gv export var_name storage_type st = Ok st' ->
         stop_reading_members st' = true ->
         exists k rm v,
           var_type = TData (TReadMember k rm)
           /\ export <> SKIP
           /\ entry_hook rm v = Ok (VResult ABORT))
  /\ (forall members st st',
         stop_reading_members st = true ->
         read_members raw gv members st = Ok st' ->
         stop_reading_members st' = true).
Proof.
  split; [|split; [|split]].
  - intros n f d fmt start self0. split; [apply read_eq | reflexivity].
  - intros var_type export var_name storage_type st st' Hstop Hnodata H.
    destruct (stop_reading_members st') eqn:Hset; [|reflexivity].
    destruct (read_member_sets_stop _ _ _ _ _ _ _ _ Hstop H Hset)
      as (k & rm & v & -> & _).
    exfalso. eapply Hnodata. reflexivity.
  - intros var_type export var_name storage_type st st' Hstop H Hset.
    eapply read_member_sets_stop; eassumption.
  - intros members. apply read_members_stop_monotone.
Qed.

(** The first group of [Samples.family], whose marker is read as 0:
    the read inside is aborted, the loop that met the group goes on
    reading. *)
Lemma abort_state_is_local_witness :
  read_member (TGroupMember false (Samples.ref_member "named" 1 VNone)
                            Samples.named)
              [Byte.x00; Byte.x01; Byte.x61; Byte.x62; Byte.x00; Byte.x64;
               Byte.x07]
              Samples.aoc READ (Some "first") CONTAINER_MEMBER (init_state 0 ∅)
  = Ok (LoopState 1
          (<["first" := VObj (<["name" := VInt 0]>
                                (<["more" := VResult ABORT]> ∅))]> ∅)
          [] false None)
  /\ stop_reading_members
       (LoopState 1
          (<["first" := VObj (<["name" := VInt 0]>
                                (<["more" := VResult ABORT]> ∅))]> ∅)
          [] false None) = false.
Proof.
  split; [reflexivity|].
  refine (proj1 (proj2 (abort_state_is_local
            [Byte.x00; Byte.x01; Byte.x61; Byte.x62; Byte.x00; Byte.x64;
             Byte.x07] Samples.aoc))
            (TGroupMember false (Samples.ref_member "named" 1 VNone)
                          Samples.named)
            READ (Some "first") CONTAINER_MEMBER (init_state 0 ∅) _
            eq_refl _ eq_refl).
  intros d. discriminate.
Defined.

(** Two records side by side: the first ends at its marker, the second
    is read in full, and so is the number behind them. *)
Example family_read :
  read Samples.family
       [Byte.x00; Byte.x01; Byte.x61; Byte.x62; Byte.x00; Byte.x64; Byte.x07]
       Samples.aoc 0 ∅
  = Ok (7,
        <["tail" := VInt 7]>
          (<["second" := VObj (<["name" := VStr "ab"]>
                                 (<["more" := VResult CONTINUE]> ∅))]>
             (<["first" := VObj (<["name" := VInt 0]>
                                   (<["more" := VResult ABORT]> ∅))]> ∅)),
        []).
Proof. reflexivity. Qed.

(** ** Lists of sub-objects *)

(** What the loop of [read] does with a list member, in terms of the
    bound reads of the classes and of the subtype definition. *)
Lemma read_member_multi subdata rm passed_args offset_to subtype_definition
      class_lookup raw gv export var_name storage_type st :
  stop_reading_members st = false ->
  read_member (TMultisubtypeMember subdata rm passed_args offset_to
                                   subtype_definition class_lookup)
              raw gv export var_name storage_type st
  = read_multisubtype subdata rm passed_args offset_to
      (subtype_reader raw gv <$> subtype_definition)
      (member_name <$> subtype_definition)
      (map (fun kc => (fst kc, class_reader raw gv (snd kc))) class_lookup)
      export var_name storage_type st.
Proof.
  intros Hstop. cbn [read_member]. rewrite Hstop.
  f_equal.
  - destruct subtype_definition as [[[[e n] s] t]|]; [|reflexivity].
    reflexivity.
  - destruct subtype_definition as [[[[e n] s] t]|]; reflexivity.
  - induction class_lookup as [|[k c] l IH]; [reflexivity|].
    cbn [map fst snd]. rewrite <- IH. destruct c; reflexivity.
Qed.


Lemma store_entry_offset subdata export var_name storage_type self1
      sub_members subtype_name members offset2 new_data gen_members sd' :
  store_entry subdata export var_name storage_type self1 sub_members
              subtype_name members (offset2, new_data, gen_members) = Ok sd' ->
  sd_offset sd' = offset2.
Proof.
  unfold store_entry. intros H.
  repeat match type of H with
    | bind ?r _ = Ok _ => destruct r; cbn [bind] in H; [|discriminate]
    end.
  injection H as <-. reflexivity.
Qed.






(** The two entries of that list, as the loop has decoded them: the
    first has the kind B, read at offset 0, and is read by
    [Samples.shape_b] from 1 to 4; the second has the kind A, read at
    offset 4, and is read by [Samples.shape_a] from 5 to 6. *)
Example drawing_entries :
  entries_decoded Samples.drawing_bytes Samples.aoc Samples.shape_kind
    "kind" [(KStr "A", Samples.shape_a); (KStr "B", Samples.shape_b)]
    None VNone "shapes" ∅ 0 0
    (<["shapes" := VDict [(KStr "A", []); (KStr "B", [])]]> ∅)
    [Some (DecodedEntry (VStr "B") Samples.shape_b 1 4
                        (<["z" := VInt 3]> (<["y" := VInt 258]> ∅)));
     Some (DecodedEntry (VStr "A") Samples.shape_a 5 6
                        (<["x" := VInt 9]> ∅))]
    6
    (<["shapes" :=
         VDict [(KStr "A", [VObj (<["x" := VInt 9]> ∅)]);
                (KStr "B", [VObj (<["z" := VInt 3]>
                                    (<["y" := VInt 258]> ∅))])]]>
       (<["kind" := VStr "A"]> ∅)).
Proof.
  cbn [entries_decoded entry_subtype_name entry_class entry_data_offset
       entry_end entry_object].
  split; [reflexivity|].
  eexists _, _, _, _, _, _.
  split; [reflexivity|]. split; [reflexivity|]. split; [reflexivity|].
  split; [reflexivity|]. split; [reflexivity|]. split; [reflexivity|].
  split; [reflexivity|].
  split; [reflexivity|].
  eexists _, _, _, _, _, _.
  split; [reflexivity|]. split; [reflexivity|]. split; [reflexivity|].
  split; [reflexivity|]. split; [reflexivity|]. split; [reflexivity|].
  split; [reflexivity|].
  split; [reflexivity|].
  vm_compute. reflexivity.
Qed.

(** The whole list: the entry of kind B takes the three bytes of its
    class, the entry of kind A the one byte of its own, and each is put
    into the bucket of its kind. *)
Example drawing_read :
  read Samples.drawing Samples.drawing_bytes Samples.aoc 0 ∅
  = Ok (6,
        <["shapes" :=
            VDict [(KStr "A", [VObj (<["x" := VInt 9]> ∅)]);
                   (KStr "B", [VObj (<["z" := VInt 3]>
                                       (<["y" := VInt 258]> ∅))])]]>
          (<["kind" := VStr "A"]> ∅),
        []).
Proof. reflexivity. Qed.

(** ** Determinism *)

(** The statement that rewrites [passed_args] does not change the names
    the loop runs over, neither in the call that executes it nor in any
    later one. *)
Lemma passed_names_written_back passed_args :
  passed_names (written_back passed_args) = passed_names passed_args.
Proof. destruct passed_args as [|[|c s]|names]; reflexivity. Qed.

Lemma read_member_group include rm cls raw gv export var_name storage_type st :
  stop_reading_members st = false ->
  read_member (TGroupMember include rm cls) raw gv export var_name
              storage_type st
  = read_group (class_reader raw gv cls) include export var_name
               storage_type st.
Proof.
  intros Hstop. cbn [read_member]. rewrite Hstop. destruct cls; reflexivity.
Qed.

Lemma read_group_ext rd rd' include export var_name storage_type st :
  readers_agree rd rd' ->
  read_group rd include export var_name storage_type st
  = read_group rd' include export var_name storage_type st.
Proof.
  destruct rd as [f|], rd' as [g|]; cbn [readers_agree]; intros H;
    try contradiction; [|reflexivity].
  unfold read_group. rewrite !H. reflexivity.
Qed.

Lemma dict_lookup_agree (cl cl' : list (key * option reader)) k :
  Forall2 (fun kc kc' => fst kc = fst kc' /\ readers_agree (snd kc) (snd kc'))
          cl cl' ->
  match dict_lookup cl k, dict_lookup cl' k with
  | Some r, Some r' => readers_agree r r'
  | None, None => True
  | _, _ => False
  end.
Proof.
  induction 1 as [|[k1 r1] [k2 r2] cl cl' [Hk Hr] _ IH]; cbn [dict_lookup].
  - exact I.
  - cbn [fst snd] in Hk, Hr. subst k2.
    destruct (decide (k1 = k)); [exact Hr | exact IH].
Qed.

Lemma read_subdata_entry_ext subdata offset_to sr sr' attr cl cl' export
      var_name storage_type varargs offset_lookup i sd :
  readers_agree sr sr' ->
  Forall2 (fun kc kc' => fst kc = fst kc' /\ readers_agree (snd kc) (snd kc'))
          cl cl' ->
  read_subdata_entry subdata offset_to sr attr cl export var_name
                     storage_type varargs offset_lookup i sd
  = read_subdata_entry subdata offset_to sr' attr cl' export var_name
                       storage_type varargs offset_lookup i sd.
Proof.
  intros Hsr Hcl. unfold read_subdata_entry.
  destruct (entry_skipped offset_to offset_lookup i) as [[]|];
    cbn [bind]; try reflexivity.
  unfold select_subtype. destruct subdata.
  - pose proof (dict_lookup_agree cl cl' KNone Hcl) as Hl.
    destruct (dict_lookup cl KNone) as [[r|]|],
             (dict_lookup cl' KNone) as [[r'|]|];
      cbn [readers_agree] in Hl; try contradiction; cbn [bind];
      try reflexivity.
    rewrite Hl. reflexivity.
  - destruct sr as [rd|], sr' as [rd'|]; cbn [readers_agree] in Hsr;
      try contradiction; [|reflexivity].
    destruct attr as [attr|]; [|reflexivity].
    rewrite Hsr.
    destruct (rd' (sd_offset sd) (sd_self sd)) as [[[o1 s1] subm]|];
      cbn [bind]; [|reflexivity].
    destruct (match attr with
              | Some n0 => getattr s1 n0
              | None => Err TypeError
              end) as [name|]; cbn [bind]; [|reflexivity].
    destruct (value_key name) as [k|]; cbn [bind]; [|reflexivity].
    pose proof (dict_lookup_agree cl cl' k Hcl) as Hl.
    destruct (dict_lookup cl k) as [[r|]|], (dict_lookup cl' k) as [[r'|]|];
      cbn [readers_agree] in Hl; try contradiction; cbn [bind];
      try reflexivity.
    rewrite Hl. reflexivity.
Qed.

Lemma read_subdata_entries_ext step step' indices :
  (forall i sd, step i sd = step' i sd) ->
  forall sd,
    read_subdata_entries step indices sd
    = read_subdata_entries step' indices sd.
Proof.
  intros Hstep. induction indices as [|i rest IH]; intros sd; [reflexivity|].
  cbn [read_subdata_entries]. rewrite Hstep.
  destruct (step' i sd); cbn [bind]; [apply IH | reflexivity].
Qed.

Lemma read_multisubtype_ext subdata rm passed_args passed_args' offset_to
      sr sr' attr cl cl' export var_name storage_type st :
  passed_names passed_args = passed_names passed_args' ->
  readers_agree sr sr' ->
  Forall2 (fun kc kc' => fst kc = fst kc' /\ readers_agree (snd kc) (snd kc'))
          cl cl' ->
  read_multisubtype subdata rm passed_args offset_to sr attr cl export
                    var_name storage_type st
  = read_multisubtype subdata rm passed_args' offset_to sr' attr cl' export
                      var_name storage_type st.
Proof.
  intros Hnames Hsr Hcl. unfold read_multisubtype. rewrite Hnames.
  assert (Hkeys : map (fun kc : key * option reader => (fst kc, @nil value)) cl
                  = map (fun kc => (fst kc, [])) cl').
  { clear -Hcl. induction Hcl as [|kc kc' cl cl' [Hk _] _ IH]; [reflexivity|].
    cbn [map]. rewrite Hk, IH. reflexivity. }
  rewrite Hkeys.
  destruct (collect_varargs _ _ _) as [varargs|]; cbn [bind]; [|reflexivity].
  destruct (get_length rm (self st)) as [list_len|]; cbn [bind]; [|reflexivity].
  destruct (setattr _ _ _) as [self0|]; cbn [bind]; [|reflexivity].
  destruct (match offset_to with
            | Some (name, _) => getattr self0 name
            | None => Ok VNone
            end) as [offset_lookup|]; cbn [bind]; [|reflexivity].
  rewrite (read_subdata_entries_ext _
             (read_subdata_entry subdata offset_to sr' attr cl' export
                                 var_name storage_type varargs offset_lookup));
    [reflexivity|].
  intros i sd. apply read_subdata_entry_ext; assumption.
Qed.

Lemma member_returned_agrees allowed_modes (m m' : member) :
  fst m = fst m' ->
  agrees_type (snd m) (snd m') ->
  member_returned allowed_modes m = member_returned allowed_modes m'.
Proof.
  destruct m as [[[e n] s] t], m' as [[[e' n'] s'] t']. cbn [fst snd].
  intros [= -> -> ->] Ht. unfold member_returned.
  destruct Ht; reflexivity.
Qed.

Lemma skip_member_agrees var_name t t' st :
  agrees_type t t' ->
  skip_member var_name t st = skip_member var_name t' st.
Proof. intros Ht. unfold skip_member, replacement_value. destruct Ht; reflexivity. Qed.

(** Schemas that agree are read alike. *)
Lemma read_agrees cls :
  forall cls', agrees_class cls cls' ->
  forall raw gv offset self,
    read cls raw gv offset self = read cls' raw gv offset self.
Proof.
  pattern cls.
  apply class_ref_schema_ind with
    (P := fun t =>
            forall t', agrees_type t t' ->
            forall raw gv export var_name storage_type st,
              read_member t raw gv export var_name storage_type st
              = read_member t' raw gv export var_name storage_type st);
    clear cls.
  - intros d t' Ht. inversion Ht; subst. reflexivity.
  - intros include rm cls IH t' Ht raw gv export var_name storage_type st.
    destruct (stop_reading_members st) eqn:Hstop.
    { rewrite !read_member_stopped by exact Hstop.
      apply skip_member_agrees, Ht. }
    inversion Ht as [|? ? ? cls' Hcls|]; subst.
    rewrite !read_member_group by exact Hstop.
    apply read_group_ext.
    specialize (IH cls' Hcls raw gv).
    destruct Hcls; cbn [class_reader readers_agree]; [exact IH | exact I].
  - intros subdata rm passed_args offset_to sd cl IHsd IHcl t' Ht
           raw gv export var_name storage_type st.
    destruct (stop_reading_members st) eqn:Hstop.
    { rewrite !read_member_stopped by exact Hstop.
      apply skip_member_agrees, Ht. }
    inversion Ht as [| |? ? ? passed_args' ? ? sd' ? cl' Hnames Hsd Hcl];
      subst.
    rewrite !read_member_multi by exact Hstop.
    assert (Hattr : member_name <$> sd = member_name <$> sd').
    { destruct Hsd as [m m' [Hm _]|]; [|reflexivity].
      cbn [fmap option_fmap option_map]. unfold member_name.
      rewrite Hm. reflexivity. }
    rewrite Hattr.
    apply read_multisubtype_ext; [exact Hnames | |].
    + destruct Hsd as [m m' [Hm Ht']|]; [|exact I].
      cbn [fmap option_fmap option_map readers_agree from_option snd] in *.
      destruct m as [[[e n] s] t], m' as [[[e' n'] s'] t']. cbn [fst snd] in *.
      injection Hm as <- <- <-. intros offset self.
      unfold subtype_reader. rewrite (IHsd t' Ht'). reflexivity.
    + clear -IHcl Hcl.
      induction Hcl as [|[k c] [k' c'] cl cl' [Hk Hc] _ IH]; [constructor|].
      apply Forall_cons in IHcl as [IHc IHcl].
      cbn [map fst snd] in *. constructor; [|apply IH, IHcl].
      cbn [fst snd]. split; [exact Hk|].
      specialize (IHc c' Hc raw gv).
      destruct Hc; cbn [class_reader readers_agree]; [exact IHc | exact I].
  - intros n f d fmt IH cls' Hcls raw gv offset self.
    inversion Hcls as [? ? ? ? fmt' Hfmt|]; subst.
    rewrite !read_eq, !get_data_format_no_flatten. cbn [bind].
    specialize (IH gv). specialize (Hfmt gv). revert IH Hfmt.
    generalize (init_state offset self) as st.
    generalize (fmt gv) as ms, (fmt' gv) as ms'.
    intros ms ms' st IH Hfmt. revert st.
    induction Hfmt as [|m m' ms ms' [Hm Ht] _ IHms]; intros st;
      [reflexivity|].
    apply Forall_cons in IH as [IHm IHrest]. specialize (IHms IHrest).
    cbn [List.filter].
    rewrite (member_returned_agrees _ m m' Hm Ht).
    destruct (member_returned (Some read_modes) m'); [|apply IHms].
    destruct m as [[[e n0] s] t], m' as [[[e' n'] s'] t'].
    cbn [fst snd] in *. injection Hm as <- <- <-.
    cbn [map read_members]. rewrite (IHm t' Ht).
    destruct (read_member t' raw gv e n0 s st) as [st1|]; cbn [bind];
      [|reflexivity].
    specialize (IHms st1).
    destruct (read_members raw gv _ st1), (read_members raw gv _ st1);
      cbn [bind] in IHms |- *; congruence.
  - intros n cls' Hcls. inversion Hcls; subst. reflexivity.
Qed.

(** Every schema agrees with itself. *)
Lemma agrees_class_refl cls : agrees_class cls cls.
Proof.
  pattern cls.
  apply class_ref_schema_ind with (P := fun t => agrees_type t t); clear cls.
  - constructor.
  - intros include rm cls IH. constructor. exact IH.
  - intros subdata rm passed_args offset_to sd cl IHsd IHcl.
    constructor; [reflexivity | |].
    + destruct sd as [[p t]|]; constructor. split; [reflexivity | exact IHsd].
    + induction IHcl as [|kc cl Hc _ IH]; constructor; [|exact IH].
      split; [reflexivity | exact Hc].
  - intros n f d fmt IH. constructor. intros gv. specialize (IH gv).
    induction IH as [|m ms Hm _ IH]; constructor; [|exact IH].
    split; [reflexivity | exact Hm].
  - constructor.
Qed.

(** C5: [read] keeps no state between calls.  Two calls with the same
    buffer, offset, game version and object, on the same class, or on
    the class as an earlier call has left it (a call may replace the
    string in the [passed_args] of a list member by the set of its
    characters), have the same outcome: the same offset, the same
    attributes on the object and the same value members, or the same
    exception. *)
Theorem read_deterministic cls cls' raw gv offset self first second :
  agrees_class cls cls' ->
  read cls raw gv offset self = first ->
  read cls' raw gv offset self = second ->
  first = second.
Proof.
  intros Hagree <- <-. apply read_agrees, Hagree.
Qed.

(** The list member of [Samples.path_of] before and after the
    write-back of its [passed_args]. *)
Lemma path_agrees_after_write_back :
  agrees_class (Samples.path_of (PStr "ab"))
               (Samples.path_of (written_back (PStr "ab"))).
Proof.
  constructor. intros gv.
  repeat (constructor; [split; [reflexivity|]; try constructor|]);
    try constructor.
Qed.

(** A list of two points read twice, the second time with the member
    as the first read has left it. *)
Lemma read_deterministic_witness :
  Ok (6,
      <["points" := VList [VObj (<["x" := VInt 4]>
                                   (<["b" := VInt 2]> (<["a" := VInt 1]> ∅)));
                           VObj (<["x" := VInt 5]>
                                   (<["b" := VInt 2]> (<["a" := VInt 1]> ∅)))]]>
        (<["b" := VInt 2]> (<["a" := VInt 1]> ∅)),
      [ArrayMember (Some "points") (Some CONTAINER_MEMBER)
         [ContainerMember (Some "points") [IntMember (Some "x") (VInt 4)];
          ContainerMember (Some "points") [IntMember (Some "x") (VInt 5)]]])
  = read (Samples.path_of (written_back (PStr "ab")))
         [Byte.x01; Byte.x02; Byte.x04; Byte.x00; Byte.x05; Byte.x00]
         Samples.aoc 0 ∅.
Proof.
  refine (read_deterministic
            (Samples.path_of (PStr "ab"))
            (Samples.path_of (written_back (PStr "ab")))
            [Byte.x01; Byte.x02; Byte.x04; Byte.x00; Byte.x05; Byte.x00]
            Samples.aoc 0 ∅ _ _ path_agrees_after_write_back eq_refl eq_refl).
Defined.

(** ** Bytes consumed *)

Lemma total_app a b : total (a ++ b) = total a + total b.
Proof.
  unfold total. induction a as [|x a IH]; cbn [app fold_right]; lia.
Qed.

Lemma member_consumed_stopped var_type raw gv export var_name storage_type st :
  stop_reading_members st = true ->
  member_consumed var_type raw gv export var_name storage_type st = [].
Proof.
  intros Hstop. destruct var_type; cbn [member_consumed]; rewrite Hstop;
    reflexivity.
Qed.

Lemma member_consumed_data d raw gv export var_name storage_type st :
  stop_reading_members st = false ->
  member_consumed (TData d) raw gv export var_name storage_type st
  = data_member_consumed storage_type d st.
Proof. intros Hstop. cbn [member_consumed]. rewrite Hstop. reflexivity. Qed.

Lemma member_consumed_group include rm cls raw gv export var_name storage_type
      st :
  stop_reading_members st = false ->
  member_consumed (TGroupMember include rm cls) raw gv export var_name
                  storage_type st
  = group_consumed (class_consumer raw gv cls) include st.
Proof.
  intros Hstop. cbn [member_consumed]. rewrite Hstop. destruct cls; reflexivity.
Qed.

Lemma member_consumed_multi subdata rm passed_args offset_to subtype_definition
      class_lookup raw gv export var_name storage_type st :
  stop_reading_members st = false ->
  member_consumed (TMultisubtypeMember subdata rm passed_args offset_to
                                       subtype_definition class_lookup)
                  raw gv export var_name storage_type st
  = multisubtype_consumed subdata rm passed_args offset_to
      (subtype_reader raw gv <$> subtype_definition)
      (subtype_consumer raw gv <$> subtype_definition)
      (member_name <$> subtype_definition)
      (map (fun kc => (fst kc, class_reader raw gv (snd kc))) class_lookup)
      (map (fun kc => (fst kc, class_consumer raw gv (snd kc))) class_lookup)
      export var_name storage_type st.
Proof.
  intros Hstop. cbn [member_consumed]. rewrite Hstop.
  f_equal.
  - destruct subtype_definition as [[[[e n] s] t]|]; reflexivity.
  - induction class_lookup as [|[k c] l IH]; [reflexivity|].
    cbn [map fst snd]. rewrite <- IH. destruct c; reflexivity.
Qed.

(** [consumed] is [members_consumed] over the members that
    [get_data_format] yields for [read_modes]. *)
Lemma consumed_eq n f d fmt raw gv offset self :
  consumed (GenieClass n f d fmt) raw gv offset self
  = members_consumed raw gv
      (map (pair false)
           (List.filter (member_returned (Some read_modes)) (fmt gv)))
      (init_state offset self).
Proof.
  cbn [consumed].
  generalize (init_state offset self) as st. generalize (fmt gv) as ms.
  induction ms as [|[[[export var_name] storage_type] var_type] ms IH];
    intros st.
  - reflexivity.
  - cbn [List.filter].
    destruct (member_returned (Some read_modes)
                (export, var_name, storage_type, var_type)) eqn:Hret.
    + cbn [map members_consumed]. f_equal.
      destruct (read_member var_type raw gv export var_name storage_type st)
        as [st'|e]; [apply IH | reflexivity].
    + apply IH.
Qed.

(** The read of a list member, with what comes before the loop over
    the entries set apart. *)
Lemma read_multisubtype_setup subdata rm passed_args offset_to subtype_read
      attr class_lookup export var_name storage_type st :
  read_multisubtype subdata rm passed_args offset_to subtype_read attr
                    class_lookup export var_name storage_type st
  = let* '(varargs, list_len, self0, offset_lookup) :=
      subdata_setup subdata rm passed_args offset_to class_lookup var_name st in
    let* sd :=
      read_subdata_entries
        (read_subdata_entry subdata offset_to subtype_read attr class_lookup
                            export var_name storage_type varargs offset_lookup)
        (seq 0 (Z.to_nat list_len))
        (SubdataState (offset st) self0 []) in
    Ok (LoopState (sd_offset sd) (sd_self sd)
          (if decide (export = READ_GEN)
           then generated_value_members st
                  ++ [ArrayMember var_name (Some CONTAINER_MEMBER)
                                  (subdata_value_members sd)]
           else generated_value_members st)
          (stop_reading_members st) (gen_member st)).
Proof.
  unfold read_multisubtype, subdata_setup.
  destruct (collect_varargs _ _ _); cbn [bind]; [|reflexivity].
  destruct (get_length rm (self st)); cbn [bind]; [|reflexivity].
  destruct (setattr _ _ _); cbn [bind]; [|reflexivity].
  destruct (match offset_to with Some _ => _ | None => _ end); cbn [bind];
    reflexivity.
Qed.

Lemma read_data_member_consumed raw export var_name storage_type d st st' :
  read_data_member raw export var_name storage_type d st = Ok st' ->
  offset st' = offset st + total (data_member_consumed storage_type d st).
Proof.
  intros H. apply read_data_member_offset in H
    as (lay & sym & Hlay & _ & Hsym & ->).
  unfold data_member_consumed. rewrite Hlay, Hsym.
  unfold total. cbn [fold_right]. lia.
Qed.

Lemma read_group_consumed rd pieces include export var_name storage_type
      st st' :
  accounted_class rd pieces ->
  read_group rd include export var_name storage_type st = Ok st' ->
  offset st' = offset st + total (group_consumed pieces include st).
Proof.
  unfold read_group, group_consumed. intros Hacc H.
  destruct rd as [cls_read|]; [|discriminate].
  destruct pieces as [pieces|]; [|contradiction].
  cbn [accounted_class] in Hacc. destruct include.
  - destruct (cls_read _ _) as [[[o s] g]|] eqn:Hr; cbn [bind] in H;
      [|discriminate].
    injection H as <-. cbn [offset]. eapply Hacc, Hr.
  - destruct (cls_read _ _) as [[[o s] g]|] eqn:Hr; cbn [bind] in H;
      [|discriminate].
    destruct (setattr _ _ _); cbn [bind] in H; [|discriminate].
    destruct (if decide (export = READ_GEN) then _ else _);
      cbn [bind] in H; [|discriminate].
    injection H as <-. cbn [offset]. eapply Hacc, Hr.
Qed.

Lemma dict_lookup_accounted (readers : list (key * option reader))
      (consumers : list (key * option consumer)) k rd :
  Forall2 (fun r c => fst r = fst c /\ accounted_class (snd r) (snd c))
          readers consumers ->
  dict_lookup readers k = Some rd ->
  exists pieces,
    dict_lookup consumers k = Some pieces /\ accounted_class rd pieces.
Proof.
  induction 1 as [|[k1 r] [k2 c] rs cs [Hk Hrc] _ IH]; cbn [dict_lookup];
    [discriminate|].
  cbn [fst snd] in Hk, Hrc. subst k2.
  destruct (decide (k1 = k)); [|exact IH].
  intros [= <-]. eauto.
Qed.

Lemma read_subdata_entry_consumed subdata offset_to subtype_read
      subtype_consumed attr class_lookup class_consumed export var_name
      storage_type varargs offset_lookup i sd sd' :
  accounted_class subtype_read subtype_consumed ->
  Forall2 (fun r c => fst r = fst c /\ accounted_class (snd r) (snd c))
          class_lookup class_consumed ->
  read_subdata_entry subdata offset_to subtype_read attr class_lookup export
                     var_name storage_type varargs offset_lookup i sd = Ok sd' ->
  sd_offset sd'
  = sd_offset sd
    + total (subdata_entry_consumed subdata offset_to subtype_read
               subtype_consumed attr class_lookup class_consumed
               varargs offset_lookup i sd).
Proof.
  intros Hsr Hcl. unfold read_subdata_entry, subdata_entry_consumed. intros H.
  destruct (entry_skipped offset_to offset_lookup i) as [[]|];
    cbn [bind] in H; try discriminate.
  { injection H as <-. unfold total. cbn [fold_right]. lia. }
  destruct (select_subtype subdata subtype_read attr class_lookup sd)
    as [[[[[o1 s1] subm] name] [rd|]]|] eqn:Hsel; cbn [bind] in H;
    try discriminate.
  destruct (rd o1 varargs) as [[[o2 nd] g]|] eqn:Hrd; cbn [bind] in H;
    [|discriminate].
  apply store_entry_offset in H. rewrite H. rewrite total_app.
  unfold select_subtype in Hsel. destruct subdata.
  - destruct (dict_lookup class_lookup KNone) as [c|] eqn:Hl; [|discriminate].
    injection Hsel as <- _ _ _ ->.
    destruct (dict_lookup_accounted _ _ _ _ Hcl Hl) as (pieces & -> & Hacc).
    destruct pieces as [pieces|]; [|contradiction].
    cbn [accounted_class] in Hacc. rewrite (Hacc _ _ _ _ _ Hrd).
    unfold total at 2. cbn [fold_right]. lia.
  - destruct subtype_read as [sr|]; [|discriminate].
    destruct attr as [attr|]; [|discriminate].
    destruct subtype_consumed as [sc|]; [|contradiction].
    cbn [accounted_class] in Hsr.
    destruct (sr (sd_offset sd) (sd_self sd)) as [[[o1' s1'] subm']|] eqn:Hs;
      cbn [bind] in Hsel; [|discriminate].
    destruct (match attr with
              | Some n0 => getattr s1' n0
              | None => Err TypeError
              end) as [subtype_name|]; cbn [bind] in Hsel; [|discriminate].
    destruct (value_key subtype_name) as [k|] eqn:Hk; cbn [bind] in Hsel;
      [|discriminate].
    destruct (dict_lookup class_lookup k) as [c|] eqn:Hl; [|discriminate].
    injection Hsel as <- _ _ <- ->.
    destruct (dict_lookup_accounted _ _ _ _ Hcl Hl) as (pieces & Hp & Hacc).
    rewrite Hk, Hp.
    destruct pieces as [pieces|]; [|contradiction].
    cbn [accounted_class] in Hacc. rewrite (Hacc _ _ _ _ _ Hrd).
    rewrite (Hsr _ _ _ _ _ Hs). lia.
Qed.

Lemma read_subdata_entries_consumed step pieces indices :
  (forall i sd sd',
      step i sd = Ok sd' -> sd_offset sd' = sd_offset sd + total (pieces i sd)) ->
  forall sd sd',
    read_subdata_entries step indices sd = Ok sd' ->
    sd_offset sd'
    = sd_offset sd + total (subdata_entries_consumed step pieces indices sd).
Proof.
  intros Hstep. induction indices as [|i rest IH]; intros sd sd' H.
  - injection H as <-. unfold total. cbn [subdata_entries_consumed fold_right].
    lia.
  - cbn [read_subdata_entries subdata_entries_consumed] in H |- *.
    destruct (step i sd) as [sd1|] eqn:H1; cbn [bind] in H; [|discriminate].
    rewrite total_app. apply Hstep in H1. apply IH in H. lia.
Qed.

Lemma read_multisubtype_consumed subdata rm passed_args offset_to subtype_read
      subtype_consumed attr class_lookup class_consumed export var_name
      storage_type st st' :
  accounted_class subtype_read subtype_consumed ->
  Forall2 (fun r c => fst r = fst c /\ accounted_class (snd r) (snd c))
          class_lookup class_consumed ->
  read_multisubtype subdata rm passed_args offset_to subtype_read attr
                    class_lookup export var_name storage_type st = Ok st' ->
  offset st'
  = offset st
    + total (multisubtype_consumed subdata rm passed_args offset_to
               subtype_read subtype_consumed attr class_lookup class_consumed
               export var_name storage_type st).
Proof.
  intros Hsr Hcl. rewrite read_multisubtype_setup.
  unfold multisubtype_consumed. intros H.
  destruct (subdata_setup _ _ _ _ _ _ _)
    as [[[[varargs list_len] self0] offset_lookup]|]; cbn [bind] in H;
    [|discriminate].
  destruct (read_subdata_entries _ _ _) as [sd|] eqn:Hsd; cbn [bind] in H;
    [|discriminate].
  injection H as <-. cbn [offset].
  apply (read_subdata_entries_consumed _
           (subdata_entry_consumed subdata offset_to subtype_read
              subtype_consumed attr class_lookup class_consumed
              varargs offset_lookup)) in Hsd; [exact Hsd|].
  intros i sd0 sd1. apply read_subdata_entry_consumed; assumption.
Qed.

Lemma read_members_consumed raw gv members :
  Forall (fun e : bool * member =>
            forall export var_name storage_type st st',
              read_member (member_type (snd e)) raw gv export var_name
                          storage_type st = Ok st' ->
              offset st'
              = offset st
                + total (member_consumed (member_type (snd e)) raw gv export
                                         var_name storage_type st)) members ->
  forall st st',
    read_members raw gv members st = Ok st' ->
    offset st' = offset st + total (members_consumed raw gv members st).
Proof.
  induction 1 as [|[p [[[e n] s] t]] rest Hm _ IH]; intros st st' H.
  - injection H as <-. unfold total. cbn [members_consumed fold_right]. lia.
  - cbn [read_members members_consumed] in H |- *.
    destruct (read_member t raw gv e n s st) as [st1|] eqn:H1;
      cbn [bind] in H; [|discriminate].
    rewrite total_app. apply Hm in H1. apply IH in H.
    cbn [snd member_type] in H1. lia.
Qed.

(** Every read is accounted for by its pieces: the offset moves by the
    sum of their sizes, for a member of any kind and for a class. *)
Lemma schema_accounted :
  (forall t raw gv export var_name storage_type st st',
      read_member t raw gv export var_name storage_type st = Ok st' ->
      offset st'
      = offset st
        + total (member_consumed t raw gv export var_name storage_type st))
  /\ (forall cls raw gv, accounted (read cls raw gv) (consumed cls raw gv)).
Proof.
  set (P := fun t =>
              forall raw gv export var_name storage_type st st',
                read_member t raw gv export var_name storage_type st = Ok st' ->
                offset st'
                = offset st
                  + total (member_consumed t raw gv export var_name
                                           storage_type st)).
  set (Q := fun cls =>
              forall raw gv, accounted (read cls raw gv) (consumed cls raw gv)).
  assert (Hstopped :
    forall t raw gv export var_name storage_type st st',
      stop_reading_members st = true ->
      read_member t raw gv export var_name storage_type st = Ok st' ->
      offset st'
      = offset st
        + total (member_consumed t raw gv export var_name storage_type st)).
  { intros t raw gv export var_name storage_type st st' Hstop H.
    rewrite read_member_stopped in H by exact Hstop.
    rewrite member_consumed_stopped by exact Hstop.
    apply skip_member_state in H as (-> & _). unfold total.
    cbn [fold_right]. lia. }
  assert (Hd : forall d, P (TData d)).
  { intros d raw gv export var_name storage_type st st' H.
    destruct (stop_reading_members st) eqn:Hstop;
      [exact (Hstopped _ _ _ _ _ _ _ _ Hstop H)|].
    rewrite read_member_data in H by exact Hstop.
    rewrite member_consumed_data by exact Hstop.
    eapply read_data_member_consumed, H. }
  assert (Hg : forall include rm cls,
             Q cls -> P (TGroupMember include rm cls)).
  { intros include rm cls IH raw gv export var_name storage_type st st' H.
    destruct (stop_reading_members st) eqn:Hstop;
      [exact (Hstopped _ _ _ _ _ _ _ _ Hstop H)|].
    rewrite read_member_group in H by exact Hstop.
    rewrite member_consumed_group by exact Hstop.
    eapply read_group_consumed; [|exact H].
    destruct cls; cbn [class_reader class_consumer accounted_class];
      [|exact I].
    apply IH. }
  assert (Hm : forall subdata rm passed_args offset_to sd cl,
             from_option P True (snd <$> sd) ->
             Forall (fun kc => Q (snd kc)) cl ->
             P (TMultisubtypeMember subdata rm passed_args offset_to sd cl)).
  { intros subdata rm passed_args offset_to sd cl IHsd IHcl
           raw gv export var_name storage_type st st' H.
    destruct (stop_reading_members st) eqn:Hstop;
      [exact (Hstopped _ _ _ _ _ _ _ _ Hstop H)|].
    rewrite read_member_multi in H by exact Hstop.
    rewrite member_consumed_multi by exact Hstop.
    eapply read_multisubtype_consumed; [| |exact H].
    - destruct sd as [[[[e n] s] t]|]; [|exact I].
      cbn [fmap option_fmap option_map from_option snd accounted_class] in *.
      intros o s0 o' s' g Hr. unfold subtype_reader in Hr.
      unfold subtype_consumer.
      destruct (read_member t raw gv e n s (init_state o s0)) as [st1|] eqn:H1;
        cbn [bind] in Hr; [|discriminate].
      injection Hr as <- _ _. apply IHsd in H1. exact H1.
    - clear -IHcl. induction IHcl as [|[k c] l Hc _ IH]; constructor;
        [|exact IH].
      cbn [fst snd] in *. split; [reflexivity|].
      destruct c; cbn [class_reader class_consumer accounted_class];
        [|exact I].
      apply Hc. }
  assert (Hc : forall n f d fmt,
             (forall gv, Forall (fun m : member => P (snd m)) (fmt gv)) ->
             Q (GenieClass n f d fmt)).
  { intros n f d fmt IH raw gv offset self offset' self' gens H.
    rewrite read_eq, get_data_format_no_flatten in H. cbn [bind] in H.
    rewrite consumed_eq.
    destruct (read_members raw gv _ (init_state offset self)) as [st|] eqn:Hms;
      cbn [bind] in H; [|discriminate].
    injection H as <- _ _.
    apply read_members_consumed in Hms; [exact Hms|].
    specialize (IH gv). apply Forall_map.
    apply List.Forall_forall. intros m Hin.
    apply List.filter_In in Hin as [Hin _].
    rewrite List.Forall_forall in IH. specialize (IH m Hin).
    cbn [snd member_type]. intros export var_name storage_type st0 st1.
    apply IH. }
  assert (Ho : forall n, Q (OtherClass n)).
  { intros n raw gv offset self offset' self' gens H. discriminate. }
  split.
  - intros t. apply (read_type_schema_ind P Q); assumption.
  - intros cls. apply (class_ref_schema_ind P Q); assumption.
Qed.

(** C4: a member holding actual content that is decoded while reading
    has not been aborted moves the offset by its element count times
    the width of its element type, and that is its one piece; a member
    given by a type string is so decoded whenever the buffer holds that
    many bytes at the offset.  A member met after the abort has no
    piece and leaves the offset where it is.  A group member has the
    pieces of the read of its class, the struct has those of its
    members, and a list member those of its entries; none of the three
    adds a byte of its own.  With that, every member of whatever kind
    moves the offset by the sum of the sizes of its pieces, and the
    offset that [read] returns is the starting offset plus the sum of
    the sizes of all pieces: of the members of the struct that were not
    aborted and of everything decoded below them. *)
Theorem read_offset_is_sum_of_consumed raw gv :
  (forall export var_name storage_type dt st st',
      stop_reading_members st = false ->
      read_member (TData dt) raw gv export var_name storage_type st = Ok st' ->
      exists lay sym,
        resolve_layout (self st) storage_type dt = Ok lay
        /\ struct_type_lookup (struct_type lay) = Some sym
        /\ offset st' - offset st = data_count lay * width sym
        /\ member_consumed (TData dt) raw gv export var_name storage_type st
           = [data_count lay * width sym])
  /\ (forall name storage_type t st lay sym result,
         stop_reading_members st = false ->
         resolve_layout (self st) storage_type (TStr t) = Ok lay ->
         0 <= data_count lay ->
         struct_type_lookup (struct_type lay) = Some sym ->
         sym <> Sym_f ->
         unpack_from (data_count lay) sym raw (offset st) = Ok result ->
         exists st',
           read_member (TData (TStr t)) raw gv READ (Some name) storage_type st
           = Ok st'
           /\ offset st' - offset st = data_count lay * width sym)
  /\ (forall var_type export var_name storage_type st,
         stop_reading_members st = true ->
         member_consumed var_type raw gv export var_name storage_type st = []
         /\ forall st',
             read_member var_type raw gv export var_name storage_type st
             = Ok st' ->
             offset st' = offset st)
  /\ (forall include rm cls export var_name storage_type st,
         stop_reading_members st = false ->
         member_consumed (TGroupMember include rm cls) raw gv export var_name
                         storage_type st
         = consumed cls raw gv (offset st) (if include then self st else ∅))
  /\ (forall n f d fmt start self0,
         exists members,
           get_data_format (GenieClass n f d fmt) gv (Some read_modes)
                           false false = Ok members
           /\ consumed (GenieClass n f d fmt) raw gv start self0
              = members_consumed raw gv members (init_state start self0))
  /\ (forall var_type export var_name storage_type st st',
         read_member var_type raw gv export var_name storage_type st = Ok st' ->
         offset st'
         = offset st
           + total (member_consumed var_type raw gv export var_name
                                    storage_type st))
  /\ (forall cls start self0 end_offset self' gens,
         read cls raw gv start self0 = Ok (end_offset, self', gens) ->
         end_offset = start + total (consumed cls raw gv start self0)).
Proof.
  split; [|split; [|split; [|split; [|split; [|split]]]]].
  - intros export var_name storage_type dt st st' Hstop H.
    rewrite read_member_data in H by exact Hstop.
    apply read_data_member_offset in H as (lay & sym & Hl & _ & Hs & Ho).
    exists lay, sym. split; [exact Hl|]. split; [exact Hs|].
    split; [lia|].
    rewrite member_consumed_data by exact Hstop.
    unfold data_member_consumed. rewrite Hl, Hs. reflexivity.
  - intros name storage_type t st lay sym result Hstop Hlay Hc Hsym Hf Hun.
    destruct (read_str_member_succeeds raw gv name storage_type t st lay sym
                result Hstop Hlay Hc Hsym Hf Hun) as [v Hv].
    eexists. split; [exact Hv|]. cbn [offset]. lia.
  - intros var_type export var_name storage_type st Hstop.
    split; [apply member_consumed_stopped, Hstop|].
    intros st' H. rewrite read_member_stopped in H by exact Hstop.
    apply skip_member_state in H. tauto.
  - intros include rm cls export var_name storage_type st Hstop.
    rewrite member_consumed_group by exact Hstop.
    destruct cls; reflexivity.
  - intros n f d fmt start self0. rewrite get_data_format_no_flatten.
    eexists. split; [reflexivity|]. apply consumed_eq.
  - intros var_type. apply (proj1 schema_accounted).
  - intros cls. apply (proj2 schema_accounted).
Qed.

(** The pieces of [Samples.drawing]: the kind of the first entry, the
    word and the byte of its class, the kind of the second entry and
    the byte of its class. *)
Example drawing_consumed :
  consumed Samples.drawing Samples.drawing_bytes Samples.aoc 0 ∅
  = [1; 2; 1; 1; 1].
Proof. reflexivity. Qed.

(** The list of [Samples.drawing], read from the start of the buffer to
    its end at 6. *)
Lemma read_offset_is_sum_of_consumed_witness :
  6 = 0 + total (consumed Samples.drawing Samples.drawing_bytes Samples.aoc
                          0 ∅).
Proof.
  exact (proj2 (proj2 (proj2 (proj2 (proj2 (proj2
           (read_offset_is_sum_of_consumed
              Samples.drawing_bytes Samples.aoc))))))
           Samples.drawing 0 ∅ 6
           (<["shapes" :=
                VDict [(KStr "A", [VObj (<["x" := VInt 9]> ∅)]);
                       (KStr "B", [VObj (<["z" := VInt 3]>
                                           (<["y" := VInt 258]> ∅))])]]>
              (<["kind" := VStr "A"]> ∅))
           [] eq_refl).
Defined.

(** * Further properties *)

(** ** Flattening of inclusions *)

(** With flattening, no inclusion is left among the entries: every
    [IncludeMembers] member is replaced by what the included class
    yields, at every depth. *)
Theorem flatten_leaves_no_inclusion cls :
  forall gv allowed_modes is_parent out,
    get_data_format cls gv allowed_modes true is_parent = Ok out ->
    Forall (fun e => is_IncludeMembers (member_type (snd e)) = false) out.
Proof.
  pattern cls.
  apply class_ref_schema_ind with
    (P := fun t =>
            match t with
            | TGroupMember _ _ c =>
                forall gv allowed_modes is_parent out,
                  get_data_format c gv allowed_modes true is_parent = Ok out ->
                  Forall (fun e => is_IncludeMembers (member_type (snd e)) = false)
                         out
            | _ => True
            end); clear cls.
  - trivial.
  - intros _ _ c Hc. exact Hc.
  - trivial.
  - intros n f d fmt IHfmt gv allowed_modes is_parent.
    cbn [get_data_format]. specialize (IHfmt gv). revert IHfmt.
    generalize (fmt gv) as ms.
    induction ms as [|[[[export var_name] storage_type] read_type] ms IH];
      intros Hms out Hout.
    + injection Hout as <-. constructor.
    + apply Forall_cons in Hms as [Hm Hms]. specialize (IH Hms).
      cbn [snd] in Hm.
      destruct read_type as [dt|[] rm c|sub rm pa ot sd cl];
        repeat match type of Hout with
          | context [bind ?r _] =>
              let E := fresh "E" in destruct r eqn:E; cbn [bind] in Hout;
              [|discriminate]
          end;
        injection Hout as <-;
        try (destruct (member_returned allowed_modes _);
             [constructor; [reflexivity|]|]; apply IH; reflexivity).
      apply Forall_app; split; [eapply Hm; eassumption | apply IH; reflexivity].
  - intros n gv allowed_modes is_parent out Hout. discriminate.
Qed.

(** What a class yields when it is asked as a parent is flagged as
    inherited throughout. *)
Lemma get_data_format_parent_flag cls :
  forall gv allowed_modes flatten_includes out,
    get_data_format cls gv allowed_modes flatten_includes true = Ok out ->
    Forall (fun e => fst e = true) out.
Proof.
  pattern cls.
  apply class_ref_schema_ind with
    (P := fun t =>
            match t with
            | TGroupMember _ _ c =>
                forall gv allowed_modes flatten_includes out,
                  get_data_format c gv allowed_modes flatten_includes true
                  = Ok out ->
                  Forall (fun e => fst e = true) out
            | _ => True
            end); clear cls.
  - trivial.
  - intros _ _ c Hc. exact Hc.
  - trivial.
  - intros n f d fmt IHfmt gv allowed_modes flatten_includes.
    cbn [get_data_format]. specialize (IHfmt gv). revert IHfmt.
    generalize (fmt gv) as ms.
    induction ms as [|[[[export var_name] storage_type] read_type] ms IH];
      intros Hms out Hout.
    + injection Hout as <-. constructor.
    + apply Forall_cons in Hms as [Hm Hms]. specialize (IH Hms).
      cbn [snd] in Hm.
      destruct read_type as [dt|[] rm c|sub rm pa ot sd cl];
        try (destruct flatten_includes);
        repeat match type of Hout with
          | context [bind ?r _] =>
              let E := fresh "E" in destruct r eqn:E; cbn [bind] in Hout;
              [|discriminate]
          end;
        injection Hout as <-;
        try (destruct (member_returned allowed_modes _);
             [constructor; [reflexivity|]|]; apply IH; reflexivity).
      apply Forall_app; split; [eapply Hm; eassumption | apply IH; reflexivity].
  - intros n gv allowed_modes flatten_includes out Hout. discriminate.
Qed.

(** With flattening, the entries that are not flagged as inherited are
    the members the class declares itself, inclusions left out, that
    pass the filter, in the order of their declaration; all that the
    inclusions bring in is flagged. *)
Theorem flatten_flags_inherited n f d fmt gv allowed_modes out :
  get_data_format (GenieClass n f d fmt) gv allowed_modes true false = Ok out ->
  List.filter (fun e => negb (fst e)) out
  = map (pair false)
        (List.filter
           (fun m => negb (is_IncludeMembers (member_type m))
                     && member_returned allowed_modes m)
           (fmt gv)).
Proof.
  cbn [get_data_format]. revert out. generalize (fmt gv) as ms.
  induction ms as [|[[[export var_name] storage_type] read_type] ms IH];
    intros out Hout.
  - injection Hout as <-. reflexivity.
  - destruct read_type as [dt|[] rm c|sub rm pa ot sd cl];
      repeat match type of Hout with
        | context [bind ?r _] =>
            let E := fresh "E" in destruct r eqn:E; cbn [bind] in Hout;
            [|discriminate]
        end;
      injection Hout as <-;
      cbn [List.filter member_type snd is_IncludeMembers negb andb];
      try (destruct (member_returned allowed_modes _);
           cbn [List.filter fst negb map]; rewrite (IH _ eq_refl);
           reflexivity).
    rewrite List.filter_app, (IH _ eq_refl).
    apply get_data_format_parent_flag in E.
    replace (List.filter (fun e : bool * member => negb (fst e)) a) with
      (@nil (bool * member)); [reflexivity|].
    clear -E. induction E as [|[b m] l Hb _ IHl]; [reflexivity|].
    cbn [fst] in Hb. subst b. cbn [List.filter fst negb]. exact IHl.
Qed.

(** ** What the fingerprint covers *)

Lemma hashed_member_returned m :
  member_returned (Some hash_modes) m = hashed_member m.
Proof.
  destruct m as [[[e n] s] t].
  unfold member_returned, hashed_member, member_type, member_export.
  cbn [fst snd modes_given hash_modes default from_option id].
  destruct e, (is_ContinueReadMember t); reflexivity.
Qed.

Lemma format_hash_unfold n f d fmt gv hasher :
  format_hash (GenieClass n f d fmt) gv hasher
  = hash_members
      (map (pair false) (List.filter hashed_member (fmt gv)))
      (update (update (update (default EmptyString hasher) n) f) d).
Proof.
  unfold format_hash. rewrite get_data_format_no_flatten. cbn [bind].
  rewrite (List.filter_ext _ _ hashed_member_returned).
  destruct hasher; reflexivity.
Qed.

(** Members that are only read (READ, READ_UNKNOWN) and are no abort
    markers do not enter the fingerprint: two structs with the same
    name, file and description whose other members are the same leave
    the hasher in the same state. *)
Theorem format_hash_skips_unexported n f d fmt fmt' gv hasher :
  List.filter hashed_member (fmt gv) = List.filter hashed_member (fmt' gv) ->
  format_hash (GenieClass n f d fmt) gv hasher
  = format_hash (GenieClass n f d fmt') gv hasher.
Proof. intros H. rewrite !format_hash_unfold, H. reflexivity. Qed.

Lemma hash_members_unhashable is_parent ms :
  forall h,
    if existsb unhashable_member ms
    then hash_members (map (pair is_parent) (List.filter hashed_member ms)) h
         = Err UnsupportedHashMember
    else exists h',
        hash_members (map (pair is_parent) (List.filter hashed_member ms)) h
        = Ok h'.
Proof.
  induction ms as [|[[[e n] s] t] ms IH]; intros h.
  - cbn. eauto.
  - cbn [existsb List.filter]. unfold unhashable_member at 1.
    destruct (hashed_member (e, n, s, t)) eqn:Hh; cbn [andb orb].
    + cbn [map hash_members member_type snd].
      destruct t as [[t0|k rm|]|inc rm c|sub rm pa ot sd cl];
        cbn [is_ReadMember bind orb]; try apply IH.
      reflexivity.
    + apply IH.
Qed.

(** [format_hash] raises its one exception exactly when a member that
    it looks at has a read type that is neither a [ReadMember] nor a
    string; for every other struct it returns a hasher. *)
Theorem format_hash_fails_on_unsupported n f d fmt gv hasher :
  (existsb unhashable_member (fmt gv) = true ->
   format_hash (GenieClass n f d fmt) gv hasher = Err UnsupportedHashMember)
  /\ (existsb unhashable_member (fmt gv) = false ->
      exists h, format_hash (GenieClass n f d fmt) gv hasher = Ok h).
Proof.
  rewrite format_hash_unfold.
  pose proof (hash_members_unhashable false (fmt gv)
                (update (update (update (default EmptyString hasher) n) f) d))
    as H.
  split; intros He; rewrite He in H; exact H.
Qed.

Lemma string_app_assoc (a b c : string) :
  String.append (String.append a b) c = String.append a (String.append b c).
Proof.
  induction a as [|x a IH]; [reflexivity|].
  change (String x (String.append (String.append a b) c)
          = String x (String.append a (String.append b c))).
  rewrite IH. reflexivity.
Qed.

(** The hasher is fed the name and the type of a member one after the
    other, with nothing in between: letters moved from the end of the
    name of a member to the front of its type string give a struct with
    the same fingerprint. *)
Theorem format_hash_joins_name_and_type n f d pre post export name moved ty
        storage_type gv hasher :
  name <> EmptyString ->
  format_hash
    (GenieClass n f d
       (fun _ => pre ++ (export, Some (String.append name moved), storage_type,
                         TData (TStr (Plain ty))) :: post))
    gv hasher
  = format_hash
      (GenieClass n f d
         (fun _ => pre ++ (export, Some name, storage_type,
                           TData (TStr (Plain (String.append moved ty))))
                          :: post))
      gv hasher.
Proof.
  intros Hname. rewrite !format_hash_unfold.
  generalize (update (update (update (default EmptyString hasher) n) f) d).
  rewrite !List.filter_app, !map_app. cbn [List.filter].
  replace (hashed_member (export, Some (String.append name moved),
                          storage_type, TData (TStr (Plain ty))))
    with (hashed_member (export, Some name, storage_type,
                         TData (TStr (Plain (String.append moved ty)))))
    by reflexivity.
  destruct (hashed_member _); [|reflexivity].
  induction (map (pair false) (List.filter hashed_member pre))
    as [|[p [[[e' n'] s'] t']] l IH]; intros h.
  - cbn [app map hash_members is_ReadMember bind type_text].
    assert (Hg : name_given (Some (String.append name moved))
                 = Some (String.append name moved)).
    { destruct name; [congruence | reflexivity]. }
    assert (Hg' : name_given (Some name) = Some name).
    { destruct name; [congruence | reflexivity]. }
    rewrite Hg, Hg'. unfold update. rewrite !string_app_assoc. reflexivity.
  - cbn [app hash_members].
    destruct (match is_ReadMember t' with
              | Some rm => Ok (member_format_hash rm _)
              | None => _
              end) as [h'|]; cbn [bind]; [apply IH | reflexivity].
Qed.

Lemma hash_members_continues ms :
  (forall p m rm, In (p, m) ms ->
                  is_ReadMember (member_type m) = Some rm -> feeds_hasher rm) ->
  forall h h0,
    hash_members ms (String.append h h0)
    = match hash_members ms h0 with
      | Ok out => Ok (String.append h out)
      | Err e => Err e
      end.
Proof.
  induction ms as [|[p [[[e n] s] t]] ms IH]; intros Hfeeds h h0.
  - reflexivity.
  - assert (IH' : forall h h0,
              hash_members ms (String.append h h0)
              = match hash_members ms h0 with
                | Ok out => Ok (String.append h out)
                | Err e => Err e
                end).
    { apply IH. intros p' m' rm' Hin. apply (Hfeeds p' m' rm'). right.
      exact Hin. }
    cbn [hash_members].
    assert (Hgen : exists h1,
               match name_given n with
               | Some n0 => update (String.append h h0) n0
               | None => String.append h h0
               end = String.append h h1
               /\ match name_given n with
                  | Some n0 => update h0 n0
                  | None => h0
                  end = h1).
    { destruct (name_given n) as [n0|]; eexists; (split; [|reflexivity]);
        [apply string_app_assoc | reflexivity]. }
    destruct Hgen as (h1 & -> & ->).
    destruct (is_ReadMember t) as [rm|] eqn:Hrm.
    + cbn [bind].
      pose proof (Hfeeds p (e, n, s, t) rm (or_introl eq_refl) Hrm) as Hf.
      rewrite (Hf (String.append h h1)), (Hf h1).
      unfold update. rewrite !string_app_assoc.
      rewrite <- (string_app_assoc h1). apply IH'.
    + destruct t as [[t0|k rm|]|inc rm c|sub rm pa ot sd cl];
        try discriminate Hrm; cbn [bind]; [|reflexivity].
      unfold update. rewrite !string_app_assoc.
      rewrite <- (string_app_assoc h1). apply IH'.
Qed.

(** A hasher handed to [format_hash] is continued: when the
    [format_hash] of every [ReadMember] looked at only feeds the hasher
    it is given, the data fed in the end is the data fed before the
    call followed by the data the call feeds to a fresh hasher. *)
Theorem format_hash_continues_hasher n f d fmt gv h out :
  (forall m rm, In m (fmt gv) -> hashed_member m = true ->
                is_ReadMember (member_type m) = Some rm -> feeds_hasher rm) ->
  format_hash (GenieClass n f d fmt) gv None = Ok out ->
  format_hash (GenieClass n f d fmt) gv (Some h) = Ok (String.append h out).
Proof.
  intros Hfeeds. rewrite !format_hash_unfold.
  cbn [default from_option id]. intros Hout.
  replace (update (update (update h n) f) d)
    with (String.append h (update (update (update EmptyString n) f) d))
    by (unfold update; rewrite !string_app_assoc; reflexivity).
  rewrite hash_members_continues, Hout; [reflexivity|].
  intros p m rm Hin Hrm.
  apply in_map_iff in Hin as ([p' m'] & [= <- <-] & Hin).
  apply List.filter_In in Hin as [Hin Hh].
  eapply Hfeeds; eassumption.
Qed.

(** ** What [read] looks at *)

Lemma decoded_member_returned m :
  member_returned (Some read_modes) m = decoded_member m.
Proof.
  destruct m as [[[e n] s] t].
  unfold member_returned, decoded_member, member_type, member_export.
  cbn [fst snd modes_given read_modes default from_option id].
  destruct e, (is_ContinueReadMember t); reflexivity.
Qed.

(** Members declared NOREAD_EXPORT that are no abort markers are not
    decoded: two structs whose other members are the same are read
    alike, whatever the buffer holds. *)
Theorem read_skips_noread_members n f d n' f' d' fmt fmt' raw gv offset self :
  List.filter decoded_member (fmt gv) = List.filter decoded_member (fmt' gv) ->
  read (GenieClass n f d fmt) raw gv offset self
  = read (GenieClass n' f' d' fmt') raw gv offset self.
Proof.
  intros H. rewrite !read_eq, !get_data_format_no_flatten.
  rewrite !(List.filter_ext _ _ decoded_member_returned), H. reflexivity.
Qed.

(** ** The offset never goes back *)

Lemma read_data_member_advances raw export var_name storage_type d st st' :
  read_data_member raw export var_name storage_type d st = Ok st' ->
  offset st <= offset st'.
Proof.
  intros H. apply read_data_member_offset in H
    as (lay & sym & _ & Hcount & _ & ->).
  assert (0 < width sym) by (destruct sym; reflexivity). nia.
Qed.

Lemma read_group_advances rd include export var_name storage_type st st' :
  from_option reader_advances True rd ->
  read_group rd include export var_name storage_type st = Ok st' ->
  offset st <= offset st'.
Proof.
  unfold read_group. intros Hrd H. destruct rd as [cls_read|]; [|discriminate].
  cbn [from_option] in Hrd. destruct include.
  - destruct (cls_read _ _) as [[[o s] g]|] eqn:Hr; cbn [bind] in H;
      [|discriminate].
    injection H as <-. cbn [offset]. eapply Hrd, Hr.
  - destruct (cls_read _ _) as [[[o s] g]|] eqn:Hr; cbn [bind] in H;
      [|discriminate].
    destruct (setattr _ _ _); cbn [bind] in H; [|discriminate].
    destruct (if decide (export = READ_GEN) then _ else _);
      cbn [bind] in H; [|discriminate].
    injection H as <-. cbn [offset]. eapply Hrd, Hr.
Qed.

Lemma dict_lookup_Forall {A : Type} (P : A -> Prop) (d : list (key * A)) k a :
  Forall (fun kc => P (snd kc)) d ->
  dict_lookup d k = Some a -> P a.
Proof.
  induction 1 as [|[k' a'] d Ha _ IH]; cbn [dict_lookup]; [discriminate|].
  destruct (decide (k' = k)); [|exact IH].
  intros [= <-]. exact Ha.
Qed.

Lemma read_subdata_entry_advances subdata offset_to subtype_read attr
      class_lookup export var_name storage_type varargs offset_lookup i sd sd' :
  from_option reader_advances True subtype_read ->
  Forall (fun kc => from_option reader_advances True (snd kc)) class_lookup ->
  read_subdata_entry subdata offset_to subtype_read attr class_lookup export
                     var_name storage_type varargs offset_lookup i sd = Ok sd' ->
  sd_offset sd <= sd_offset sd'.
Proof.
  intros Hsr Hcl. unfold read_subdata_entry. intros H.
  destruct (entry_skipped offset_to offset_lookup i) as [[]|];
    cbn [bind] in H; try discriminate.
  { injection H as <-. lia. }
  destruct (select_subtype subdata subtype_read attr class_lookup sd)
    as [[[[[o1 s1] subm] name] [rd|]]|] eqn:Hsel; cbn [bind] in H;
    try discriminate.
  destruct (rd o1 varargs) as [[[o2 nd] g]|] eqn:Hrd; cbn [bind] in H;
    [|discriminate].
  apply store_entry_offset in H. rewrite H.
  assert (Ho1 : sd_offset sd <= o1
                /\ from_option reader_advances True (Some rd)).
  { unfold select_subtype in Hsel. destruct subdata.
    - destruct (dict_lookup class_lookup KNone) as [c|] eqn:Hl;
        [|discriminate].
      injection Hsel as <- _ _ _ ->. split; [lia|].
      eapply (dict_lookup_Forall (from_option reader_advances True));
        eassumption.
    - destruct subtype_read as [sr|]; [|discriminate].
      destruct attr as [attr|]; [|discriminate].
      destruct (sr (sd_offset sd) (sd_self sd)) as [[[o1' s1'] subm']|] eqn:Hs;
        cbn [bind] in Hsel; [|discriminate].
      destruct (match attr with
                | Some n0 => getattr s1' n0
                | None => Err TypeError
                end); cbn [bind] in Hsel; [|discriminate].
      destruct (value_key a) as [k|]; cbn [bind] in Hsel; [|discriminate].
      destruct (dict_lookup class_lookup k) as [c|] eqn:Hl; [|discriminate].
      injection Hsel as <- _ _ _ ->. split.
      + eapply Hsr, Hs.
      + eapply (dict_lookup_Forall (from_option reader_advances True));
          eassumption. }
  destruct Ho1 as [Ho1 Hadv]. cbn [from_option] in Hadv.
  specialize (Hadv _ _ _ _ _ Hrd). lia.
Qed.

Lemma read_subdata_entries_advances step indices :
  (forall i sd sd', step i sd = Ok sd' -> sd_offset sd <= sd_offset sd') ->
  forall sd sd',
    read_subdata_entries step indices sd = Ok sd' ->
    sd_offset sd <= sd_offset sd'.
Proof.
  intros Hstep. induction indices as [|i rest IH]; intros sd sd' H.
  - injection H as <-. lia.
  - cbn [read_subdata_entries] in H.
    destruct (step i sd) as [sd1|] eqn:H1; cbn [bind] in H; [|discriminate].
    apply Hstep in H1. apply IH in H. lia.
Qed.

Lemma read_multisubtype_advances subdata rm passed_args offset_to subtype_read
      attr class_lookup export var_name storage_type st st' :
  from_option reader_advances True subtype_read ->
  Forall (fun kc => from_option reader_advances True (snd kc)) class_lookup ->
  read_multisubtype subdata rm passed_args offset_to subtype_read attr
                    class_lookup export var_name storage_type st = Ok st' ->
  offset st <= offset st'.
Proof.
  intros Hsr Hcl. unfold read_multisubtype. intros H.
  repeat match type of H with
    | bind ?r _ = Ok _ =>
        let E := fresh "E" in
        destruct r eqn:E; cbn [bind] in H; [|discriminate]
    end.
  injection H as <-. cbn [offset].
  match goal with
  | E : read_subdata_entries _ _ _ = Ok _ |- _ =>
      apply read_subdata_entries_advances in E; [exact E|]
  end.
  intros i sd sd'. apply read_subdata_entry_advances; assumption.
Qed.

Lemma read_members_advances raw gv members :
  Forall (fun e : bool * member =>
            forall export var_name storage_type st st',
              read_member (member_type (snd e)) raw gv export var_name
                          storage_type st = Ok st' ->
              offset st <= offset st') members ->
  forall st st',
    read_members raw gv members st = Ok st' -> offset st <= offset st'.
Proof.
  induction 1 as [|[p [[[e n] s] t]] rest Hm _ IH]; intros st st' H.
  - injection H as <-. lia.
  - cbn [read_members] in H.
    destruct (read_member t raw gv e n s st) as [st1|] eqn:H1;
      cbn [bind] in H; [|discriminate].
    apply Hm in H1. apply IH in H. lia.
Qed.

(** The offset that [read] returns is never before the one it was
    given, whatever the struct and the buffer: a negative count is
    refused, and nothing else moves the offset but the sizes of the
    members read. *)
Theorem read_never_rewinds cls :
  forall raw gv offset self offset' self' gens,
    read cls raw gv offset self = Ok (offset', self', gens) ->
    offset <= offset'.
Proof.
  pattern cls.
  apply class_ref_schema_ind with
    (P := fun t =>
            forall raw gv export var_name storage_type st st',
              read_member t raw gv export var_name storage_type st = Ok st' ->
              offset st <= offset st'); clear cls.
  - intros d raw gv export var_name storage_type st st' H.
    destruct (stop_reading_members st) eqn:Hstop.
    + rewrite read_member_stopped in H by exact Hstop.
      apply skip_member_state in H as (-> & _). lia.
    + rewrite read_member_data in H by exact Hstop.
      eapply read_data_member_advances, H.
  - intros include rm cls IH raw gv export var_name storage_type st st' H.
    destruct (stop_reading_members st) eqn:Hstop.
    + rewrite read_member_stopped in H by exact Hstop.
      apply skip_member_state in H as (-> & _). lia.
    + rewrite read_member_group in H by exact Hstop.
      eapply read_group_advances; [|exact H].
      destruct cls; cbn [class_reader from_option]; [|exact I].
      intros o s o' s' g. apply IH.
  - intros subdata rm passed_args offset_to sd cl IHsd IHcl
           raw gv export var_name storage_type st st' H.
    destruct (stop_reading_members st) eqn:Hstop.
    + rewrite read_member_stopped in H by exact Hstop.
      apply skip_member_state in H as (-> & _). lia.
    + rewrite read_member_multi in H by exact Hstop.
      eapply read_multisubtype_advances; [| |exact H].
      * destruct sd as [[[[e n] s] t]|]; [|exact I].
        cbn [fmap option_fmap option_map from_option snd] in *.
        intros o s0 o' s' g Hr. unfold subtype_reader in Hr.
        destruct (read_member t raw gv e n s (init_state o s0)) as [st1|] eqn:H1;
          cbn [bind] in Hr; [|discriminate].
        injection Hr as <- _ _. apply IHsd in H1. exact H1.
      * clear -IHcl. induction IHcl as [|[k c] l Hc _ IH]; constructor;
          [|exact IH].
        cbn [fst snd] in *. destruct c; cbn [class_reader from_option];
          [|exact I].
        intros o s o' s' g. apply Hc.
  - intros n f d fmt IH raw gv offset self offset' self' gens H.
    rewrite read_eq, get_data_format_no_flatten in H. cbn [bind] in H.
    destruct (read_members raw gv _ (init_state offset self)) as [st|] eqn:Hms;
      cbn [bind] in H; [|discriminate].
    injection H as <- _ _.
    apply read_members_advances in Hms; [exact Hms|].
    specialize (IH gv). apply Forall_map.
    apply List.Forall_forall. intros m Hin.
    apply List.filter_In in Hin as [Hin _].
    rewrite List.Forall_forall in IH. specialize (IH m Hin).
    cbn [snd member_type]. intros export var_name storage_type st0 st1.
    apply IH.
  - intros n raw gv offset self offset' self' gens H. discriminate.
Qed.

(** ** Value members and attributes *)

Lemma unpack_member_not_generated raw export var_name storage_type lay sym
      st st' :
  export <> READ_GEN ->
  unpack_member raw export var_name storage_type lay sym st = Ok st' ->
  generated_value_members st' = generated_value_members st
  /\ gen_member st' = gen_member st.
Proof.
  intros Hexp. unfold unpack_member. intros H.
  destruct (decide (export = READ_GEN)) as [|_]; [contradiction|].
  destruct (unpack_from _ _ _ _) as [result|]; cbn [bind] in H; [|discriminate].
  destruct (match is_custom_member lay with
            | Some (_, rm) => guard _ _
            | None => Ok tt
            end); cbn [bind] in H; [|discriminate].
  match type of H with
  | bind ?r _ = Ok _ =>
      destruct r as [[[res gens] gm]|] eqn:Hr; cbn [bind] in H; [|discriminate]
  end.
  assert (Hg : gens = generated_value_members st /\ gm = gen_member st).
  { destruct (decide (sym = Sym_s)).
    - destruct result as [|[] ?]; cbn [bind] in Hr; try discriminate.
      injection Hr as _ <- <-. split; reflexivity.
    - destruct (is_array lay).
      + injection Hr as _ <- <-. split; reflexivity.
      + destruct (data_count lay =? 1).
        * destruct result as [|r0 ?]; cbn [bind] in Hr; [discriminate|].
          destruct (if decide (sym = Sym_f) then _ else _);
            cbn [bind] in Hr; [|discriminate].
          injection Hr as _ <- <-. split; reflexivity.
        * injection Hr as _ <- <-. split; reflexivity. }
  destruct Hg as [-> ->].
  destruct (match is_custom_member lay with
            | Some (_, rm) => _
            | None => Ok (res, stop_reading_members st)
            end) as [[res' stop]|]; cbn [bind] in H; [|discriminate].
  destruct (setattr _ _ _); cbn [bind] in H; [|discriminate].
  injection H as <-. split; reflexivity.
Qed.

Lemma read_member_not_generated var_type raw gv export var_name storage_type
      st st' :
  export <> READ_GEN ->
  read_member var_type raw gv export var_name storage_type st = Ok st' ->
  generated_value_members st' = generated_value_members st.
Proof.
  intros Hexp H. destruct (stop_reading_members st) eqn:Hstop.
  { rewrite read_member_stopped in H by exact Hstop.
    apply skip_member_state in H. tauto. }
  destruct var_type as [d|include rm cls|subdata rm pa ot sd cl].
  - rewrite read_member_data in H by exact Hstop.
    unfold read_data_member in H.
    destruct (resolve_layout _ _ _) as [lay|]; cbn [bind] in H; [|discriminate].
    destruct (data_count lay <? 0); [discriminate|].
    destruct (struct_type_lookup _) as [sym|]; [|discriminate].
    destruct (decide (export = SKIP)); cbn [bind] in H.
    + injection H as <-. reflexivity.
    + destruct (unpack_member _ _ _ _ _ _ _) as [st1|] eqn:Hun;
        cbn [bind] in H; [|discriminate].
      injection H as <-. cbn [generated_value_members].
      eapply unpack_member_not_generated in Hun; [tauto | exact Hexp].
  - rewrite read_member_group in H by exact Hstop.
    unfold read_group in H.
    destruct (class_reader raw gv cls) as [cls_read|]; [|discriminate].
    destruct (decide (export = READ_GEN)) as [|_]; [contradiction|].
    destruct include.
    + destruct (cls_read _ _) as [[[o s] g]|]; cbn [bind] in H; [|discriminate].
      injection H as <-. reflexivity.
    + destruct (cls_read _ _) as [[[o s] g]|]; cbn [bind] in H; [|discriminate].
      destruct (setattr _ _ _); cbn [bind] in H; [|discriminate].
      injection H as <-. reflexivity.
  - rewrite read_member_multi in H by exact Hstop.
    unfold read_multisubtype in H.
    destruct (decide (export = READ_GEN)) as [|_]; [contradiction|].
    repeat match type of H with
      | bind ?r _ = Ok _ => destruct r; cbn [bind] in H; [|discriminate]
      end.
    injection H as <-. reflexivity.
Qed.

(** Value members come from READ_GEN members only: a member of any
    kind with another export mode leaves the list of generated members
    as it is, also when it is a group or a list whose own members are
    READ_GEN; and a struct none of whose members is READ_GEN is read
    without a single value member. *)
Theorem only_read_gen_generates raw gv :
  (forall var_type export var_name storage_type st st',
      export <> READ_GEN ->
      read_member var_type raw gv export var_name storage_type st = Ok st' ->
      generated_value_members st' = generated_value_members st)
  /\ (forall n f d fmt offset self offset' self' gens,
         Forall (fun m => member_export m <> READ_GEN) (fmt gv) ->
         read (GenieClass n f d fmt) raw gv offset self
         = Ok (offset', self', gens) ->
         gens = []).
Proof.
  split; [intros; eapply read_member_not_generated; eassumption|].
  intros n f d fmt offset self offset' self' gens Hall H.
  rewrite read_eq, get_data_format_no_flatten in H. cbn [bind] in H.
  destruct (read_members raw gv _ (init_state offset self)) as [st|] eqn:Hms;
    cbn [bind] in H; [|discriminate].
  injection H as _ _ <-.
  change [] with (generated_value_members (init_state offset self)).
  revert Hms. generalize (init_state offset self) as st0.
  induction (fmt gv) as [|[[[e n0] s] t] ms IH]; intros st0 Hms.
  - injection Hms as <-. reflexivity.
  - apply Forall_cons in Hall as [He Hall]. cbn [List.filter] in Hms.
    destruct (member_returned _ _); [|apply IH; assumption].
    cbn [map read_members] in Hms.
    destruct (read_member t raw gv e n0 s st0) as [st1|] eqn:H1;
      cbn [bind] in Hms; [|discriminate].
    apply read_member_not_generated in H1; [|exact He].
    rewrite <- H1. apply IH; assumption.
Qed.

Lemma unpack_member_self raw export var_name storage_type lay sym st st' :
  unpack_member raw export var_name storage_type lay sym st = Ok st' ->
  exists name v, var_name = Some name /\ self st' = <[name := v]> (self st).
Proof.
  unfold unpack_member. intros H.
  repeat match type of H with
    | bind ?r _ = Ok _ =>
        let E := fresh "E" in
        destruct r as [?|?] eqn:E; cbn [bind] in H; [|discriminate]
    | (let '(_, _) := ?p in _) = Ok _ => destruct p
    end.
  injection H as <-. cbn [self].
  match goal with
  | E : setattr _ var_name ?v = Ok _ |- _ =>
      destruct var_name as [name|]; [|discriminate E];
      injection E as <-; exists name, v; split; reflexivity
  end.
Qed.

(** A member holding actual content that is read changes one attribute
    of the object and no other: the one named by [stored_name].  For a
    READ_UNKNOWN member that is the name made of "unknown-0x" and the
    offset in eight hexadecimal digits, so that the name it was declared
    with is left as it was; a SKIP member changes none. *)
Theorem data_member_stores_one_attribute raw gv export var_name storage_type
        d st st' :
  stop_reading_members st = false ->
  read_member (TData d) raw gv export var_name storage_type st = Ok st' ->
  if decide (export = SKIP) then self st' = self st
  else exists name v,
      stored_name export var_name (offset st) = Some name
      /\ self st' = <[name := v]> (self st).
Proof.
  intros Hstop H. rewrite read_member_data in H by exact Hstop.
  unfold read_data_member in H.
  destruct (resolve_layout _ _ _) as [lay|]; cbn [bind] in H; [|discriminate].
  destruct (data_count lay <? 0); [discriminate|].
  destruct (struct_type_lookup _) as [sym|]; [|discriminate].
  destruct (decide (export = SKIP)); cbn [bind] in H.
  - injection H as <-. reflexivity.
  - destruct (unpack_member _ _ _ _ _ _ _) as [st1|] eqn:Hun;
      cbn [bind] in H; [|discriminate].
    injection H as <-. cbn [self].
    apply unpack_member_self in Hun as (name & v & Hn & Hs).
    exists name, v. split; [exact Hn | exact Hs].
Qed.

(** ** Failures of a member holding actual content *)

(** The buffer is too short: a member that is read, not skipped, from a
    non-negative offset fails with the error of [struct.unpack_from]
    when fewer than count times width bytes are left, before any
    attribute is stored. *)
Theorem short_buffer_struct_error raw gv export var_name storage_type d st
        lay sym :
  stop_reading_members st = false ->
  export <> SKIP ->
  resolve_layout (self st) storage_type d = Ok lay ->
  0 <= data_count lay ->
  struct_type_lookup (struct_type lay) = Some sym ->
  0 <= offset st ->
  Z.of_nat (length raw) < offset st + data_count lay * width sym ->
  read_member (TData d) raw gv export var_name storage_type st
  = Err StructError.
Proof.
  intros Hstop Hexp Hlay Hcount Hsym Hoff Hshort.
  rewrite read_member_data by exact Hstop. unfold read_data_member.
  rewrite Hlay. cbn [bind].
  destruct (data_count lay <? 0) eqn:Hneg; [lia|]. rewrite Hsym.
  destruct (decide (export = SKIP)) as [|_]; [contradiction|].
  unfold unpack_member, unpack_from, calcsize.
  destruct (offset st <? 0) eqn:Ho; [lia|]. cbn [bind].
  destruct (Z.of_nat (length raw) - offset st <? data_count lay * width sym)
    eqn:Hlt; [reflexivity | lia].
Qed.

(** The declaration is checked before the buffer is looked at, and for
    every export mode, SKIP among them: an array read type declared
    with a storage type that no array can be stored as fails with the
    storage exception as soon as its count resolves, and a member whose
    count is not negative but whose type has no struct symbol fails
    with the unknown-type exception. *)
Theorem declaration_checked_first raw gv export var_name storage_type st :
  stop_reading_members st = false ->
  (forall ty cnt c,
      resolve_count (self st) (TStr (VarArray ty cnt)) = Ok c ->
      array_storage storage_type = false ->
      read_member (TData (TStr (VarArray ty cnt))) raw gv export var_name
                  storage_type st
      = Err StorageMismatch)
  /\ (forall d lay,
         resolve_layout (self st) storage_type d = Ok lay ->
         0 <= data_count lay ->
         struct_type_lookup (struct_type lay) = None ->
         read_member (TData d) raw gv export var_name storage_type st
         = Err UnknownElementType).
Proof.
  intros Hstop. split.
  - intros ty cnt c Hc Hst. rewrite read_member_data by exact Hstop.
    unfold resolve_count in Hc. unfold read_data_member, resolve_layout.
    destruct (count_value (self st) cnt) as [v|]; cbn [bind] in Hc |- *;
      [|discriminate].
    rewrite Hst. reflexivity.
  - intros d lay Hlay Hcount Hsym. rewrite read_member_data by exact Hstop.
    unfold read_data_member. rewrite Hlay. cbn [bind].
    destruct (data_count lay <? 0) eqn:Hneg; [lia|]. rewrite Hsym. reflexivity.
Qed.

(** A READ_GEN member that is a [ReadMember] but neither an
    [EnumLookupMember] nor a [ContinueReadMember], and that reads a
    single element that is no string, never gets a value member of its
    own: what is appended is the value member generated last before it,
    once more; and when none has been generated yet, the read fails. *)
Theorem plain_read_member_repeats_last raw gv var_name storage_type rm st st'
        sym :
  stop_reading_members st = false ->
  get_length rm (self st) = Ok 1 ->
  struct_type_lookup (raw_type rm) = Some sym ->
  sym <> Sym_s ->
  read_member (TData (TReadMember PlainReadMember rm)) raw gv READ_GEN
              var_name storage_type st = Ok st' ->
  exists last,
    gen_member st = Some last
    /\ generated_value_members st' = generated_value_members st ++ [last]
    /\ gen_member st' = Some last.
Proof.
  intros Hstop Hlen Hsym Hns H.
  rewrite read_member_data in H by exact Hstop.
  unfold read_data_member, resolve_layout, resolve_count in H.
  rewrite Hlen in H.
  cbn [bind data_count struct_type is_array is_custom_member Z.ltb Z.compare]
    in H.
  rewrite Hsym in H.
  destruct (decide (READ_GEN = READ_UNKNOWN)) as [|_]; [discriminate|].
  destruct (decide (READ_GEN = SKIP)) as [|_]; [discriminate|].
  destruct (unpack_member _ _ _ _ _ _ _) as [st1|] eqn:Hun;
    cbn [bind] in H; [|discriminate].
  injection H as <-.
  cbn [generated_value_members gen_member].
  unfold unpack_member in Hun.
  cbn [data_count is_array is_custom_member] in Hun.
  destruct (unpack_from _ _ _ _) as [result|]; cbn [bind] in Hun;
    [|discriminate].
  destruct (guard _ _); cbn [bind] in Hun; [|discriminate].
  destruct (decide (sym = Sym_s)) as [|_]; [contradiction|].
  cbn [Z.eqb Pos.eqb] in Hun.
  destruct result as [|r0 rest]; cbn [bind] in Hun; [discriminate|].
  destruct (if decide (sym = Sym_f) then _ else _); cbn [bind] in Hun;
    [|discriminate].
  destruct (decide (READ_GEN = READ_GEN)) as [_|]; [|contradiction].
  unfold scalar_member in Hun.
  destruct (entry_hook rm r0) as [lookup_result|]; cbn [bind] in Hun;
    [|discriminate].
  destruct (gen_member st) as [last|]; cbn [bind] in Hun; [|discriminate].
  repeat match type of Hun with
    | bind ?r _ = Ok _ =>
        destruct r as [?|?]; cbn [bind] in Hun; [|discriminate]
    | (let '(_, _) := ?p in _) = Ok _ => destruct p
    end.
  injection Hun as <-. exists last. repeat split.
Qed.

(** ** The arguments passed to sub-objects *)

Lemma collect_varargs_missing self names name :
  In name names ->
  self !! name = None ->
  forall varargs, collect_varargs self names varargs = Err AttributeError.
Proof.
  intros Hin Hnone. induction names as [|n0 names IH]; [destruct Hin|].
  intros varargs. cbn [collect_varargs]. unfold getattr.
  destruct (self !! n0) as [v|] eqn:Hv; cbn [bind]; [|reflexivity].
  destruct Hin as [->|Hin]; [congruence|]. apply IH, Hin.
Qed.

(** The members passed on to the sub-objects of a list are looked up on
    the object before anything is read: if one of the names is not an
    attribute, the member fails, even when the list is empty.  When
    [passed_args] is a string the names are its characters, each on its
    own, and never the string as a whole. *)
Theorem passed_args_looked_up_first subdata rm passed_args offset_to
        subtype_definition class_lookup raw gv export var_name storage_type
        st name :
  stop_reading_members st = false ->
  In name (passed_names passed_args) ->
  self st !! name = None ->
  read_member (TMultisubtypeMember subdata rm passed_args offset_to
                                   subtype_definition class_lookup)
              raw gv export var_name storage_type st
  = Err AttributeError
  /\ (forall s, passed_args = PStr s ->
                exists c, name = String c EmptyString
                          /\ In c (list_ascii_of_string s)).
Proof.
  intros Hstop Hin Hnone. split.
  - rewrite read_member_multi by exact Hstop. unfold read_multisubtype.
    rewrite (collect_varargs_missing _ _ _ Hin Hnone). reflexivity.
  - intros s ->. cbn [passed_names] in Hin.
    rewrite <- list_elem_of_In, elem_of_remove_dups, list_elem_of_In in Hin.
    apply in_map_iff in Hin as (c & <- & Hc). eauto.
Qed.

(** ** Lists of sub-objects of one class *)

Lemma subdata_entry_appends offset_to subtype_read attr class_lookup export
      name storage_type varargs i sd sd' base objects :
  sd_self sd = <[name := VList objects]> base ->
  read_subdata_entry true offset_to subtype_read attr class_lookup export
                     (Some name) storage_type varargs VNone i sd = Ok sd' ->
  exists new_data,
    sd_self sd' = <[name := VList (objects ++ [VObj new_data])]> base
    /\ (export = READ_GEN ->
        exists container,
          subdata_value_members sd'
          = subdata_value_members sd ++ [container]).
Proof.
  intros Hself. unfold read_subdata_entry, entry_skipped, select_subtype.
  cbn [truthy bind]. intros H.
  destruct (dict_lookup class_lookup KNone) as [[rd|]|]; cbn [bind] in H;
    try discriminate.
  destruct (rd (sd_offset sd) varargs) as [[[o2 nd] g]|]; cbn [bind] in H;
    [|discriminate].
  unfold store_entry in H. unfold getattr in H. rewrite Hself in H.
  rewrite lookup_insert_eq in H. cbn [bind] in H.
  destruct (if decide (export = READ_GEN) then _ else _) as [members|] eqn:Hm;
    cbn [bind] in H; [|discriminate].
  injection H as <-. cbn [sd_self subdata_value_members].
  exists nd. split; [apply insert_insert_eq|].
  intros ->. destruct (decide (READ_GEN = READ_GEN)) as [_|]; [|contradiction].
  destruct storage_type; try discriminate Hm. injection Hm as <-. eauto.
Qed.

Lemma subdata_entries_append offset_to subtype_read attr class_lookup export
      name storage_type varargs base indices :
  forall sd sd' objects,
    sd_self sd = <[name := VList objects]> base ->
    read_subdata_entries
      (read_subdata_entry true offset_to subtype_read attr class_lookup export
                          (Some name) storage_type varargs VNone)
      indices sd = Ok sd' ->
    exists objects',
      sd_self sd' = <[name := VList objects']> base
      /\ length objects' = (length objects + length indices)%nat
      /\ (export = READ_GEN ->
          exists containers,
            subdata_value_members sd'
            = subdata_value_members sd ++ containers
            /\ length containers = length indices).
Proof.
  induction indices as [|i rest IH]; intros sd sd' objects Hself H.
  - injection H as <-. exists objects. split; [exact Hself|].
    split; [cbn; lia|]. intros _. exists []. split; [|reflexivity].
    symmetry. apply app_nil_r.
  - cbn [read_subdata_entries] in H.
    destruct (read_subdata_entry _ _ _ _ _ _ _ _ _ _ i sd) as [sd1|] eqn:H1;
      cbn [bind] in H; [|discriminate].
    eapply subdata_entry_appends in H1 as (nd & Hself1 & Hc1); [|exact Hself].
    destruct (IH _ _ _ Hself1 H) as (objects' & Hs' & Hlen & Hc').
    exists objects'. split; [exact Hs'|]. split.
    + rewrite Hlen, length_app. cbn [length]. lia.
    + intros He. destruct (Hc1 He) as [c Hc]. destruct (Hc' He) as (cs & Hcs & Hl).
      exists (c :: cs). split; [|cbn [length]; lia].
      rewrite Hcs, Hc, <- app_assoc. reflexivity.
Qed.

(** A list member of a single class ([SubdataMember]) without an offset
    guard stores, under its name, a list of as many objects as
    [get_length] says, and changes no other attribute of the object; a
    negative length is no error and gives the empty list.  When the
    member is READ_GEN, the one value member it adds is an array of as
    many containers. *)
Theorem subdata_list_has_length_entries rm passed_args subtype_definition
        class_lookup raw gv export name storage_type st st' len :
  stop_reading_members st = false ->
  get_length rm (self st) = Ok len ->
  read_member (TMultisubtypeMember true rm passed_args None
                                   subtype_definition class_lookup)
              raw gv export (Some name) storage_type st = Ok st' ->
  exists objects,
    self st' = <[name := VList objects]> (self st)
    /\ length objects = Z.to_nat len
    /\ (export = READ_GEN ->
        exists containers,
          generated_value_members st'
          = generated_value_members st
              ++ [ArrayMember (Some name) (Some CONTAINER_MEMBER) containers]
          /\ length containers = Z.to_nat len).
Proof.
  intros Hstop Hlen H. rewrite read_member_multi in H by exact Hstop.
  unfold read_multisubtype in H.
  destruct (collect_varargs _ _ _) as [varargs|]; cbn [bind] in H;
    [|discriminate].
  rewrite Hlen in H. cbn [bind setattr] in H.
  destruct (read_subdata_entries _ _ _) as [sd|] eqn:Hloop; cbn [bind] in H;
    [|discriminate].
  injection H as <-. cbn [self generated_value_members].
  eapply subdata_entries_append in Hloop as (objects & Hs & Hl & Hc);
    [|reflexivity].
  exists objects. split; [exact Hs|].
  rewrite length_seq in Hl, Hc. cbn [length] in Hl.
  split; [lia|]. intros He. destruct (Hc He) as (cs & Hcs & Hlc).
  destruct (decide (export = READ_GEN)) as [_|]; [|contradiction].
  exists cs. split; [|exact Hlc].
  cbn [subdata_value_members app] in Hcs. rewrite Hcs. reflexivity.
Qed.

(** ** structs *)

Lemma insert_item_In {A : Type} (x : key * A) l r :
  insert_item x l = Ok r ->
  forall y, In y r <-> y = x \/ In y l.
Proof.
  revert r. induction l as [|z l IH]; intros r H y.
  - injection H as <-. cbn. intuition congruence.
  - cbn [insert_item] in H.
    destruct (key_lt (fst x) (fst z)) as [[]|]; cbn [bind] in H;
      try discriminate.
    + injection H as <-. cbn. intuition congruence.
    + destruct (insert_item x l) as [r'|]; cbn [bind] in H; [|discriminate].
      injection H as <-. specialize (IH r' eq_refl y). cbn. intuition.
Qed.

Lemma sorted_items_In {A : Type} (l : list (key * A)) s :
  sorted_items l = Ok s ->
  forall y, In y s <-> In y l.
Proof.
  revert s. induction l as [|x l IH]; intros s H y.
  - injection H as <-. reflexivity.
  - cbn [sorted_items] in H.
    destruct (sorted_items l) as [s'|]; cbn [bind] in H; [|discriminate].
    rewrite (insert_item_In _ _ _ H y), (IH s' eq_refl y). cbn.
    intuition congruence.
Qed.

Lemma dependencies_first_app a b :
  dependencies_first a -> dependencies_first b -> dependencies_first (a ++ b).
Proof.
  intros Ha Hb i c c' Hi Href.
  destruct (decide (i < length a)%nat) as [Hlt|Hge].
  - rewrite lookup_app_l in Hi by exact Hlt.
    destruct (Ha i c c' Hi Href) as (j & Hj & Hl).
    exists j. split; [exact Hj|]. rewrite lookup_app_l by lia. exact Hl.
  - rewrite lookup_app_r in Hi by lia.
    destruct (Hb _ c c' Hi Href) as (j & Hj & Hl).
    exists (length a + j)%nat. split; [lia|].
    rewrite lookup_app_r by lia.
    replace (length a + j - length a)%nat with j by lia. exact Hl.
Qed.

Lemma dependencies_first_nil : dependencies_first [].
Proof. intros i c c' Hi. rewrite lookup_nil in Hi. discriminate. Qed.

Lemma concat_structs_spec items defs :
  concat_structs items = Ok defs ->
  (forall k r, In (k, r) items ->
               exists d, r = Ok d /\ forall x, In x d -> In x defs)
  /\ ((forall k d, In (k, Ok d) items -> dependencies_first d) ->
      dependencies_first defs).
Proof.
  revert defs. induction items as [|[k0 r0] items IH]; intros defs H.
  - injection H as <-. split; [intros k r []|].
    intros _. apply dependencies_first_nil.
  - cbn [concat_structs] in H.
    destruct r0 as [d0|]; cbn [bind] in H; [|discriminate].
    destruct (concat_structs items) as [more|]; cbn [bind] in H;
      [|discriminate].
    injection H as <-. destruct (IH more eq_refl) as [Hin Hdf]. split.
    + intros k r [[= <- <-]|Hi].
      * exists d0. split; [reflexivity|]. intros x Hx.
        apply in_or_app. left. exact Hx.
      * destruct (Hin k r Hi) as (d & -> & Hd). exists d.
        split; [reflexivity|]. intros x Hx. apply in_or_app. right.
        apply Hd, Hx.
    + intros Hall. apply dependencies_first_app.
      * apply (Hall k0 d0). left. reflexivity.
      * apply Hdf. intros k d Hi. apply (Hall k d). right. exact Hi.
Qed.

(** The definitions that [structs] returns are in the order of their
    dependencies: the definition of the class itself comes last, and
    every definition in the list, at whatever depth it was found, has
    somewhere before it a definition of each class that one of its
    members looked at refers to, as a group, an inclusion or an entry
    of a class lookup. *)
Theorem structs_dependencies_first cls :
  forall defs,
    structs cls = Ok defs ->
    dependencies_first defs
    /\ exists before, defs = before ++ [StructDefinitionOf cls].
Proof.
  pattern cls.
  apply class_ref_schema_ind with
    (P := fun t =>
            forall c, type_refers t c ->
            forall defs,
              structs c = Ok defs ->
              dependencies_first defs
              /\ exists before, defs = before ++ [StructDefinitionOf c]);
    clear cls.
  - intros d c [].
  - intros include rm cls IH c ->. exact IH.
  - intros subdata rm pa ot sd cl _ IHcl c [k Hin].
    rewrite List.Forall_forall in IHcl. apply (IHcl (k, c) Hin).
  - intros n f d fmt IH defs H. cbn [structs] in H.
    match type of H with
    | bind ?r _ = Ok _ => destruct r as [ret|] eqn:Hloop; cbn [bind] in H;
                          [|discriminate]
    end.
    injection H as <-.
    assert (Hret : dependencies_first ret
                   /\ forall m c',
                       In m (fmt dummy_version) ->
                       hashed_member m = true ->
                       type_refers (member_type m) c' ->
                       In (StructDefinitionOf c') ret).
    { specialize (IH dummy_version). revert ret Hloop IH.
      generalize (fmt dummy_version) as ms.
      induction ms as [|[[[e n0] s] t] ms IHms]; intros ret Hloop IH.
      - injection Hloop as <-. split; [apply dependencies_first_nil|].
        intros m c' [].
      - apply Forall_cons in IH as [IHt IH]. cbn [snd] in IHt.
        rewrite hashed_member_returned in Hloop.
        destruct (hashed_member (e, n0, s, t)) eqn:Hh.
        + match type of Hloop with
          | bind ?r _ = Ok _ =>
              destruct r as [found|] eqn:Hfound; cbn [bind] in Hloop;
              [|discriminate]
          end.
          match type of Hloop with
          | bind ?r _ = Ok _ =>
              destruct r as [rest|] eqn:Hrest; cbn [bind] in Hloop;
              [|discriminate]
          end.
          injection Hloop as <-.
          destruct (IHms rest eq_refl IH) as [Hdf Hin].
          assert (Hf : dependencies_first found
                       /\ forall c', type_refers t c' ->
                                     In (StructDefinitionOf c') found).
          { destruct t as [dt|inc rm c|sub rm pa ot sd cl].
            - injection Hfound as <-. split; [apply dependencies_first_nil|].
              intros c' [].
            - destruct c as [n1 f1 d1 fmt1|]; [|discriminate].
              destruct (IHt _ eq_refl found Hfound) as [Hd [before ->]].
              split; [exact Hd|]. intros c' ->.
              apply in_or_app. right. left. reflexivity.
            - match type of Hfound with
              | bind ?r _ = Ok _ =>
                  destruct r as [items|] eqn:Hsort; cbn [bind] in Hfound;
                  [|discriminate]
              end.
              apply concat_structs_spec in Hfound as [Hin' Hdf'].
              pose proof (sorted_items_In _ _ Hsort) as Hperm.
              assert (Heach : forall k r,
                In (k, r) items ->
                exists c, In (k, c) cl
                          /\ r = match c with
                                 | OtherClass _ => Err NonExportableReference
                                 | GenieClass _ _ _ _ => structs c
                                 end).
              { intros k r Hi. apply Hperm in Hi. clear -Hi.
                induction cl as [|[k1 c1] cl IHc]; [destruct Hi|].
                destruct Hi as [[= <- <-]|Hi].
                - exists c1. split; [left|]; reflexivity.
                - destruct (IHc Hi) as (c & Hc & ->). exists c.
                  split; [right; exact Hc | reflexivity]. }
              split.
              + apply Hdf'. intros k d0 Hi.
                destruct (Heach _ _ Hi) as (c & Hc & Hr).
                destruct c as [n1 f1 d1 fmt1|]; [|discriminate].
                symmetry in Hr.
                exact (proj1 (IHt _ (ex_intro _ k Hc) d0 Hr)).
              + intros c' [k Hc'].
                assert (Hi : In (k, match c' with
                                    | OtherClass _ => Err NonExportableReference
                                    | GenieClass _ _ _ _ => structs c'
                                    end) items).
                { apply Hperm. clear -Hc'.
                  induction cl as [|[k1 c1] cl IHc]; [destruct Hc'|].
                  destruct Hc' as [[= -> ->]|Hc']; [left; reflexivity|].
                  right. apply IHc, Hc'. }
                destruct (Hin' _ _ Hi) as (d0 & Hr & Hd0).
                destruct c' as [n1 f1 d1 fmt1|]; [|discriminate].
                destruct (IHt _ (ex_intro _ k Hc') d0 Hr) as [_ [before ->]].
                apply Hd0, in_or_app. right. left. reflexivity. }
          destruct Hf as [Hfd Hfin]. split.
          * apply dependencies_first_app; assumption.
          * intros m c' [<-|Hm] Hhm Href.
            -- apply in_or_app. left. apply Hfin, Href.
            -- apply in_or_app. right. eapply Hin; eassumption.
        + destruct (IHms ret Hloop IH) as [Hdf Hin]. split; [exact Hdf|].
          intros m c' [<-|Hm] Hhm Href; [congruence|].
          eapply Hin; eassumption. }
    destruct Hret as [Hdf Hin]. split; [|eauto].
    intros i c c' Hi Href.
    destruct (decide (i < length ret)%nat) as [Hlt|Hge].
    + rewrite lookup_app_l in Hi by exact Hlt.
      destruct (Hdf i c c' Hi Href) as (j & Hj & Hl).
      exists j. split; [exact Hj|]. rewrite lookup_app_l by lia. exact Hl.
    + rewrite lookup_app_r in Hi by lia.
      destruct (i - length ret)%nat as [|k] eqn:Hk; [|destruct k; discriminate].
      injection Hi as <-.
      destruct Href as (m & Hm & Hhm & Href). cbn [declared_members] in Hm.
      apply (Hin m c' Hm Hhm) in Href.
      apply list_elem_of_In, list_elem_of_lookup in Href as [j Hj].
      exists j. split.
      * apply lookup_lt_Some in Hj. lia.
      * rewrite lookup_app_l by (apply lookup_lt_Some in Hj; exact Hj).
        exact Hj.
  - intros n defs H. discriminate.
Qed.

(** ** The further properties on the samples *)

Lemma flatten_leaves_no_inclusion_witness :
  Forall (fun e => is_IncludeMembers (member_type (snd e)) = false)
         [(true, (READ_GEN, Some "id", ID_MEMBER,
                  TData (TStr (Plain "int16_t"))));
          (false, (READ_GEN, Some "hp", INT_MEMBER,
                   TData (TStr (Plain "int16_t"))))].
Proof.
  exact (flatten_leaves_no_inclusion Samples.derived Samples.aoc
           (Some hash_modes) false _ eq_refl).
Defined.

Lemma flatten_flags_inherited_witness :
  List.filter (fun e : bool * member => negb (fst e))
              [(true, (READ_GEN, Some "id", ID_MEMBER,
                       TData (TStr (Plain "int16_t"))));
               (false, (READ_GEN, Some "hp", INT_MEMBER,
                        TData (TStr (Plain "int16_t"))))]
  = map (pair false)
        (List.filter
           (fun m => negb (is_IncludeMembers (member_type m))
                     && member_returned (Some hash_modes) m)
           (declared_members Samples.derived Samples.aoc)).
Proof.
  exact (flatten_flags_inherited "derived" "derived.h" "a unit with hit points"
           Samples.derived_members Samples.aoc (Some hash_modes) _ eq_refl).
Defined.

(** [Samples.base] with and without its member that is only read. *)
Lemma format_hash_skips_unexported_witness :
  format_hash Samples.base Samples.aoc None
  = format_hash
      (GenieClass "base" "base.h" "what every unit has"
         (fun _ => [(READ_GEN, Some "id", ID_MEMBER,
                     TData (TStr (Plain "int16_t")))]))
      Samples.aoc None.
Proof.
  exact (format_hash_skips_unexported "base" "base.h" "what every unit has"
           Samples.base_members
           (fun _ => [(READ_GEN, Some "id", ID_MEMBER,
                       TData (TStr (Plain "int16_t")))])
           Samples.aoc None eq_refl).
Defined.

Lemma format_hash_fails_on_unsupported_witness :
  format_hash Samples.broken Samples.aoc None = Err UnsupportedHashMember.
Proof.
  exact (proj1 (format_hash_fails_on_unsupported
                  "broken" "broken.h" "a member of no known kind"
                  Samples.broken_members Samples.aoc None) eq_refl).
Defined.

(** A member "hp_" of type "max" and a member "hp" of type "_max". *)
Lemma format_hash_joins_name_and_type_witness :
  format_hash
    (GenieClass "unit" "unit.h" "a unit"
       (fun _ => [] ++ (READ_GEN, Some (String.append "hp" "_"), INT_MEMBER,
                        TData (TStr (Plain "max"))) :: []))
    Samples.aoc None
  = format_hash
      (GenieClass "unit" "unit.h" "a unit"
         (fun _ => [] ++ (READ_GEN, Some "hp", INT_MEMBER,
                          TData (TStr (Plain (String.append "_" "max")))) :: []))
      Samples.aoc None.
Proof.
  refine (format_hash_joins_name_and_type "unit" "unit.h" "a unit" [] []
            READ_GEN "hp" "_" "max" INT_MEMBER Samples.aoc None _).
  discriminate.
Defined.

Lemma format_hash_continues_hasher_witness :
  format_hash Samples.marked Samples.aoc (Some "seed")
  = Ok (String.append "seed"
          "markedmarked.hnumbers behind an abort markermoreint8_tNOREAD_EXPORThiddenuint8_tNOREAD_EXPORTseconduint8_tREAD_GEN").
Proof.
  refine (format_hash_continues_hasher
            "marked" "marked.h" "numbers behind an abort marker"
            (fun _ =>
               [(READ, Some "first", INT_MEMBER,
                 TData (TStr (Plain "uint8_t")));
                (NOREAD_EXPORT, Some "more", BOOLEAN_MEMBER,
                 TData (TReadMember ContinueReadMember
                                    (Samples.continue_read "int8_t")));
                (NOREAD_EXPORT, Some "hidden", INT_MEMBER,
                 TData (TStr (Plain "uint8_t")));
                (READ_GEN, Some "second", INT_MEMBER,
                 TData (TStr (Plain "uint8_t")))])
            Samples.aoc "seed" _ _ eq_refl).
  intros m rm [<-|[<-|[<-|[<-|[]]]]] Hh Hrm; try discriminate.
  injection Hrm as <-. intros h. reflexivity.
Defined.

(** [Samples.marked] with and without its hidden member. *)
Lemma read_skips_noread_members_witness :
  read Samples.marked [Byte.x05; Byte.x01; Byte.x07] Samples.aoc 0 ∅
  = read
      (GenieClass "marked" "marked.h" "numbers behind an abort marker"
         (fun _ =>
            [(READ, Some "first", INT_MEMBER, TData (TStr (Plain "uint8_t")));
             (NOREAD_EXPORT, Some "more", BOOLEAN_MEMBER,
              TData (TReadMember ContinueReadMember
                                 (Samples.continue_read "int8_t")));
             (READ_GEN, Some "second", INT_MEMBER,
              TData (TStr (Plain "uint8_t")))]))
      [Byte.x05; Byte.x01; Byte.x07] Samples.aoc 0 ∅.
Proof.
  exact (read_skips_noread_members
           "marked" "marked.h" "numbers behind an abort marker"
           "marked" "marked.h" "numbers behind an abort marker"
           (fun _ =>
               [(READ, Some "first", INT_MEMBER,
                 TData (TStr (Plain "uint8_t")));
                (NOREAD_EXPORT, Some "more", BOOLEAN_MEMBER,
                 TData (TReadMember ContinueReadMember
                                    (Samples.continue_read "int8_t")));
                (NOREAD_EXPORT, Some "hidden", INT_MEMBER,
                 TData (TStr (Plain "uint8_t")));
                (READ_GEN, Some "second", INT_MEMBER,
                 TData (TStr (Plain "uint8_t")))])
           (fun _ =>
              [(READ, Some "first", INT_MEMBER, TData (TStr (Plain "uint8_t")));
               (NOREAD_EXPORT, Some "more", BOOLEAN_MEMBER,
                TData (TReadMember ContinueReadMember
                                   (Samples.continue_read "int8_t")));
               (READ_GEN, Some "second", INT_MEMBER,
                TData (TStr (Plain "uint8_t")))])
           [Byte.x05; Byte.x01; Byte.x07] Samples.aoc 0 ∅ eq_refl).
Defined.

Lemma read_never_rewinds_witness : 0 <= 6.
Proof.
  exact (read_never_rewinds Samples.drawing Samples.drawing_bytes Samples.aoc
           0 ∅ 6 _ [] drawing_read).
Defined.

(** A group that is only read, whose one member is READ_GEN. *)
Lemma only_read_gen_generates_witness :
  generated_value_members
    (LoopState 2 (<["frame" := VObj (<["x" := VInt 4]> ∅)]> ∅) [] false None)
  = generated_value_members (init_state 0 ∅).
Proof.
  refine (proj1 (only_read_gen_generates [Byte.x04; Byte.x00] Samples.aoc)
            (TGroupMember false (Samples.ref_member "point" 1 VNone)
                          Samples.point)
            READ (Some "frame") CONTAINER_MEMBER (init_state 0 ∅) _ _ eq_refl).
  discriminate.
Defined.

(** A byte read as READ_UNKNOWN at offset 0. *)
Lemma data_member_stores_one_attribute_witness :
  exists name v,
    stored_name READ_UNKNOWN (Some "mystery") 0 = Some name
    /\ <["unknown-0x00000000" := VInt 7]> ∅ = <[name := v]> (∅ : obj).
Proof.
  exact (data_member_stores_one_attribute
           [Byte.x07] Samples.aoc READ_UNKNOWN (Some "mystery") INT_MEMBER
           (TStr (Plain "uint8_t")) (init_state 0 ∅)
           (LoopState 1 (<["unknown-0x00000000" := VInt 7]> ∅) [] false None)
           eq_refl eq_refl).
Defined.

(** A 32-bit number asked from a buffer of two bytes. *)
Lemma short_buffer_struct_error_witness :
  read_member (TData (TStr (Plain "int32_t"))) [Byte.x01; Byte.x02]
              Samples.aoc READ (Some "value") INT_MEMBER (init_state 0 ∅)
  = Err StructError.
Proof.
  refine (short_buffer_struct_error
            [Byte.x01; Byte.x02] Samples.aoc READ (Some "value") INT_MEMBER
            (TStr (Plain "int32_t")) (init_state 0 ∅)
            (DataLayout "int32_t" 1 false None) Sym_i
            eq_refl _ eq_refl _ eq_refl _ _);
    first [discriminate | cbn; lia].
Defined.

(** A skipped array declared as a single number. *)
Lemma declaration_checked_first_witness :
  read_member (TData (TStr (VarArray "int8_t" (Literal 3)))) []
              Samples.aoc SKIP (Some "padding") INT_MEMBER (init_state 0 ∅)
  = Err StorageMismatch.
Proof.
  exact (proj1 (declaration_checked_first [] Samples.aoc SKIP (Some "padding")
                  INT_MEMBER (init_state 0 ∅) eq_refl)
               "int8_t" (Literal 3) 3 eq_refl eq_refl).
Defined.

(** The second member of [Samples.labelled], met after the first has
    generated its value member. *)
Lemma plain_read_member_repeats_last_witness :
  exists last,
    Some (StringMember (Some "label") (VStr "B")) = Some last
    /\ [StringMember (Some "label") (VStr "B");
        StringMember (Some "label") (VStr "B")]
       = [StringMember (Some "label") (VStr "B")] ++ [last]
    /\ Some (StringMember (Some "label") (VStr "B")) = Some last.
Proof.
  exact (plain_read_member_repeats_last
           [Byte.x02; Byte.x05] Samples.aoc (Some "amount") INT_MEMBER
           (Samples.number_member "int8_t" 1)
           (LoopState 1 (<["label" := VStr "B"]> ∅)
                      [StringMember (Some "label") (VStr "B")] false
                      (Some (StringMember (Some "label") (VStr "B"))))
           (LoopState 2 (<["amount" := VInt 5]> (<["label" := VStr "B"]> ∅))
                      [StringMember (Some "label") (VStr "B");
                       StringMember (Some "label") (VStr "B")] false
                      (Some (StringMember (Some "label") (VStr "B"))))
           Sym_b eq_refl eq_refl eq_refl ltac:(discriminate) eq_refl).
Defined.

(** [Samples.labelled] read as a whole: the value member of the label
    comes twice, and there is none of the amount. *)
Example labelled_read :
  read Samples.labelled [Byte.x02; Byte.x05] Samples.aoc 0 ∅
  = Ok (2, <["amount" := VInt 5]> (<["label" := VStr "B"]> ∅),
        [StringMember (Some "label") (VStr "B");
         StringMember (Some "label") (VStr "B")]).
Proof. reflexivity. Qed.

(** The list of [Samples.path_of] with the string "ab" as its passed
    arguments, on an object that has an attribute "a" but no "b". *)
Lemma passed_args_looked_up_first_witness :
  read_member
    (TMultisubtypeMember true (Samples.ref_member "point" 2 (VList []))
                         (PStr "ab") None None [(KNone, Samples.point)])
    [] Samples.aoc READ_GEN (Some "points") ARRAY_CONTAINER
    (init_state 0 (<["a" := VInt 1]> ∅))
  = Err AttributeError.
Proof.
  refine (proj1 (passed_args_looked_up_first
                   true (Samples.ref_member "point" 2 (VList []))
                   (PStr "ab") None None [(KNone, Samples.point)]
                   [] Samples.aoc READ_GEN (Some "points") ARRAY_CONTAINER
                   (init_state 0 (<["a" := VInt 1]> ∅)) "b"
                   eq_refl _ eq_refl)).
  right. left. reflexivity.
Defined.

(** Two points of two bytes each. *)
Lemma subdata_list_has_length_entries_witness :
  exists objects,
    <["points" := VList [VObj (<["x" := VInt 4]> ∅);
                         VObj (<["x" := VInt 5]> ∅)]]> ∅
    = <["points" := VList objects]> (∅ : obj)
    /\ length objects = Z.to_nat 2
    /\ (READ_GEN = READ_GEN ->
        exists containers,
          [ArrayMember (Some "points") (Some CONTAINER_MEMBER)
             [ContainerMember (Some "points") [IntMember (Some "x") (VInt 4)];
              ContainerMember (Some "points") [IntMember (Some "x") (VInt 5)]]]
          = [] ++ [ArrayMember (Some "points") (Some CONTAINER_MEMBER)
                               containers]
          /\ length containers = Z.to_nat 2).
Proof.
  exact (subdata_list_has_length_entries
           (Samples.ref_member "point" 2 (VList [])) PNone None
           [(KNone, Samples.point)]
           [Byte.x04; Byte.x00; Byte.x05; Byte.x00] Samples.aoc READ_GEN
           "points" ARRAY_CONTAINER (init_state 0 ∅)
           (LoopState 4
              (<["points" := VList [VObj (<["x" := VInt 4]> ∅);
                                    VObj (<["x" := VInt 5]> ∅)]]> ∅)
              [ArrayMember (Some "points") (Some CONTAINER_MEMBER)
                 [ContainerMember (Some "points")
                                  [IntMember (Some "x") (VInt 4)];
                  ContainerMember (Some "points")
                                  [IntMember (Some "x") (VInt 5)]]]
              false None)
           2 eq_refl eq_refl eq_refl).
Defined.

(** The structs of [Samples.gallery]: the class of the group, the
    classes of the lookup in the order of their keys, the class
    itself. *)
Example gallery_structs :
  structs Samples.gallery
  = Ok [StructDefinitionOf Samples.point;
        StructDefinitionOf Samples.shape_a;
        StructDefinitionOf Samples.shape_b;
        StructDefinitionOf Samples.gallery].
Proof. reflexivity. Qed.

Lemma structs_dependencies_first_witness :
  dependencies_first
    [StructDefinitionOf Samples.point;
     StructDefinitionOf Samples.shape_a;
     StructDefinitionOf Samples.shape_b;
     StructDefinitionOf Samples.gallery]
  /\ exists before,
      [StructDefinitionOf Samples.point;
       StructDefinitionOf Samples.shape_a;
       StructDefinitionOf Samples.shape_b;
       StructDefinitionOf Samples.gallery]
      = before ++ [StructDefinitionOf Samples.gallery].
Proof.
  exact (structs_dependencies_first Samples.gallery _ eq_refl).
Defined.
